(** * LLM PR Assistant: the change-generation and application pipeline

    A shallow embedding of the core of [src/extension.ts] (task sizing,
    count extraction, patch normalisation, the patch application cascade,
    the plan runner and the single-shot/plan selector), of [src/llm/claude.ts]
    (the generation wrappers), of [src/git.ts] and of [src/context.ts],
    followed by the theorems that settle the specification's claims.

    Conventions of the embedding.
    - A JavaScript string is a [string]: one [ascii] per UTF-16 code unit, so
      the model covers the strings whose code units are below 256.
    - A thrown [Error] is its message; [Res] is the outcome of a call that
      may throw.
    - The working tree, the collaborators' call history and the output
      channel are threaded explicitly through the monad [M].
    - The text-generation service and the [git] executable are oracles held
      in an [Env]; every theorem quantifies over them. *)

From Stdlib Require Import ZArith Lia Bool Ascii String List DecimalString.
From stdpp Require Import gmap strings list.

Local Open Scope Z_scope.

(** ** JavaScript strings *)

Module JS.

Definition code (c : ascii) : N := N_of_ascii c.

Definition between (lo hi : N) (c : ascii) : bool :=
  ((lo <=? code c) && (code c <=? hi))%N.

(** [\s] and the characters [trim] removes: TAB, LF, VT, FF, CR, space and
    NBSP are the ones below 256. *)
Definition is_space (c : ascii) : bool :=
  between 9 13 c || (code c =? 32)%N || (code c =? 160)%N.

Definition is_digit (c : ascii) : bool := between 48 57 c.
Definition is_lower (c : ascii) : bool := between 97 122 c.
Definition is_upper (c : ascii) : bool := between 65 90 c.

(** [\w], whose complement decides [\b]. *)
Definition is_word (c : ascii) : bool :=
  is_lower c || is_upper c || is_digit c || (code c =? 95)%N.

(** A line terminator, for [.], [^] and [$] under the [m] flag. *)
Definition is_lt (c : ascii) : bool := (code c =? 10)%N || (code c =? 13)%N.

Definition LF : ascii := "010"%char.
Definition CR : ascii := "013"%char.
Definition nl : string := String LF "".

(** [String.prototype.toLowerCase] on code units below 256: A-Z and the
    Latin-1 capitals (all of 0xC0-0xDE but the multiplication sign). *)
Definition lower_char (c : ascii) : ascii :=
  if is_upper c || (between 192 222 c && negb (code c =? 215)%N)
  then ascii_of_N (code c + 32) else c.

Fixpoint toLowerCase (s : string) : string :=
  match s with
  | EmptyString => EmptyString
  | String c r => String (lower_char c) (toLowerCase r)
  end.

Fixpoint map_chars (f : ascii -> ascii) (s : string) : string :=
  match s with
  | EmptyString => EmptyString
  | String c r => String (f c) (map_chars f r)
  end.

Definition is_empty (s : string) : bool :=
  match s with EmptyString => true | _ => false end.

Fixpoint startsWith (pre s : string) : bool :=
  match pre, s with
  | EmptyString, _ => true
  | String a p, String b r => Ascii.eqb a b && startsWith p r
  | String _ _, EmptyString => false
  end.

Fixpoint includes (needle s : string) : bool :=
  startsWith needle s ||
  match s with
  | EmptyString => false
  | String _ r => includes needle r
  end.

(** [s.endsWith(c)] for a one-character suffix. *)
Fixpoint endsWithChar (c : ascii) (s : string) : bool :=
  match s with
  | EmptyString => false
  | String a EmptyString => Ascii.eqb a c
  | String _ r => endsWithChar c r
  end.

(** [s.slice(n)] for [0 <= n]. *)
Fixpoint slice_from (n : nat) (s : string) : string :=
  match n, s with
  | O, _ => s
  | S _, EmptyString => EmptyString
  | S m, String _ r => slice_from m r
  end.

(** [s.slice(0, n)]. *)
Fixpoint slice_to (n : nat) (s : string) : string :=
  match n, s with
  | O, _ => EmptyString
  | S _, EmptyString => EmptyString
  | S m, String c r => String c (slice_to m r)
  end.

(** [s.slice(0, end)]: a negative [end] counts from the end of [s]. *)
Definition slice0 (end_ : Z) (s : string) : string :=
  let len := Z.of_nat (String.length s) in
  let e := if end_ <? 0 then Z.max (len + end_) 0 else Z.min end_ len in
  slice_to (Z.to_nat e) s.

Fixpoint trimStart (s : string) : string :=
  match s with
  | EmptyString => EmptyString
  | String c r => if is_space c then trimStart r else s
  end.

Fixpoint trimEnd (s : string) : string :=
  match s with
  | EmptyString => EmptyString
  | String c r =>
      let r' := trimEnd r in
      if is_space c && is_empty r' then EmptyString else String c r'
  end.

Definition trim (s : string) : string := trimEnd (trimStart s).

(** [s.split(/\r?\n/)]: a CR that is followed by LF belongs to the
    separator, a lone CR to the line. *)
Fixpoint lines (s : string) : list string :=
  match s with
  | EmptyString => [EmptyString]
  | String c r =>
      if Ascii.eqb c LF then EmptyString :: lines r
      else if Ascii.eqb c CR && startsWith nl r then lines r
      else match lines r with
           | l :: ls => String c l :: ls
           | [] => [String c EmptyString]
           end
  end.

(** [s.split(/\s+/)]: one separator per maximal run of white space. *)
Fixpoint split_spaces (s : string) : list string :=
  match s with
  | EmptyString => [EmptyString]
  | String c r =>
      if is_space c then
        match r with
        | String d _ => if is_space d then split_spaces r
                        else EmptyString :: split_spaces r
        | EmptyString => EmptyString :: split_spaces r
        end
      else match split_spaces r with
           | l :: ls => String c l :: ls
           | [] => [String c EmptyString]
           end
  end.

(** [s.split(c)] for a one-character separator. *)
Fixpoint split_char (sep : ascii) (s : string) : list string :=
  match s with
  | EmptyString => [EmptyString]
  | String c r =>
      if Ascii.eqb c sep then EmptyString :: split_char sep r
      else match split_char sep r with
           | l :: ls => String c l :: ls
           | [] => [String c EmptyString]
           end
  end.

(** [xs.join(sep)]. *)
Fixpoint join (sep : string) (xs : list string) : string :=
  match xs with
  | [] => EmptyString
  | [x] => x
  | x :: rest => x +:+ sep +:+ join sep rest
  end.

(** [xs.findIndex(p)], with its -1. *)
Fixpoint findIndex {A} (p : A -> bool) (xs : list A) : Z :=
  match xs with
  | [] => -1
  | x :: rest =>
      if p x then 0
      else let i := findIndex p rest in if i <? 0 then -1 else i + 1
  end.

(** [xs[i]] for an index that is in range. *)
Definition at_index (xs : list string) (i : Z) : string :=
  nth (Z.to_nat i) xs EmptyString.

(** [Number(s)] for a string of decimal digits. *)
Definition digit_value (c : ascii) : Z := Z.of_N (code c) - 48.

Definition number_of_digits (s : string) : Z :=
  fold_left (fun acc c => 10 * acc + digit_value c) (list_ascii_of_string s) 0.

(** [String(n)] for a natural number. *)
Definition string_of_nat (n : nat) : string :=
  NilEmpty.string_of_uint (Nat.to_uint n).

End JS.

Import JS.

(** ** Count extractor ([extractRequestedCount], [findClosestNumberWord],
       [levenshteinDistance]) *)

Module Count.

(** What [map[key]] can evaluate to: [undefined], a number of the table,
    or an object that the literal inherits from [Object.prototype]. *)
Inductive jsval := VUndef | VNum (n : Z) | VObj.

(** A JavaScript number as the extractor produces it. *)
Inductive jsnum := Num (n : Z) | NaN.

(** The literal [map], in the order [Object.keys] lists it. *)
Definition number_words : list (string * Z) :=
  [ ("one", 1); ("two", 2); ("three", 3); ("four", 4); ("five", 5);
    ("six", 6); ("seven", 7); ("eight", 8); ("nine", 9); ("ten", 10);
    ("eleven", 11); ("twelve", 12); ("thirteen", 13); ("fourteen", 14);
    ("fifteen", 15); ("sixteen", 16); ("seventeen", 17); ("eighteen", 18);
    ("nineteen", 19); ("twenty", 20); ("thirty", 30); ("forty", 40);
    ("fifty", 50) ]%string.

(** The property names every object literal inherits. *)
Definition object_prototype_keys : list string :=
  [ "constructor"; "__defineGetter__"; "__defineSetter__"; "hasOwnProperty";
    "__lookupGetter__"; "__lookupSetter__"; "isPrototypeOf";
    "propertyIsEnumerable"; "toString"; "valueOf"; "__proto__";
    "toLocaleString" ]%string.

Fixpoint assoc (key : string) (table : list (string * Z)) : option Z :=
  match table with
  | [] => None
  | (k, v) :: rest => if String.eqb k key then Some v else assoc key rest
  end.

(** [map[key]]. *)
Definition map_get (key : string) : jsval :=
  match assoc key number_words with
  | Some v => VNum v
  | None =>
      if existsb (String.eqb key) object_prototype_keys then VObj else VUndef
  end.

Definition truthy (v : jsval) : bool :=
  match v with
  | VUndef => false
  | VNum n => negb (n =? 0)
  | VObj => true
  end.

(** [v < k] and [v >= k]: an object compares as NaN, so both are false. *)
Definition val_lt (v : jsval) (k : Z) : bool :=
  match v with VNum n => n <? k | _ => false end.

Definition val_ge (v : jsval) (k : Z) : bool :=
  match v with VNum n => k <=? n | _ => false end.

(** [ToNumber] of what [Math.max] receives. *)
Definition to_number (v : jsval) : jsnum :=
  match v with VNum n => Num n | _ => NaN end.

(** [a + b] as [Math.max] reads it: the sum of two numbers; with an object
    operand [+] concatenates strings and the result is not numeric. *)
Definition val_add (a b : jsval) : jsnum :=
  match a, b with
  | VNum x, VNum y => Num (x + y)
  | _, _ => NaN
  end.

Definition Math_max (a b : jsnum) : jsnum :=
  match a, b with
  | Num x, Num y => Num (Z.max x y)
  | _, _ => NaN
  end.

Definition num_ge (a : jsnum) (k : Z) : bool :=
  match a with Num n => k <=? n | NaN => false end.

(** *** [levenshteinDistance]: the two-row dynamic programme *)

Definition cell (row : list nat) (j : nat) : nat := nth j row O.

(** One pass of the inner loop body, at column [j]. *)
Definition lev_cell (ai : ascii) (b : list ascii) (prev next : list nat)
    (j : nat) : list nat :=
  let cost := if Ascii.eqb ai (nth j b "000"%char) then O else 1%nat in
  <[S j := Nat.min (Nat.min (cell prev (S j) + 1) (cell next j + 1))
                   (cell prev j + cost)]> next.

(** One pass of the outer loop body, at row [i]: returns the new [prev];
    [next] keeps the same contents. *)
Definition lev_row (b : list ascii) (prev next : list nat) (i : nat)
    (ai : ascii) : list nat :=
  let next0 := <[O := S i]> next in
  fold_left (lev_cell ai b prev) (seq 0 (List.length b)) next0.

Fixpoint lev_rows (b : list ascii) (prev : list nat) (i : nat)
    (a : list ascii) : list nat :=
  match a with
  | [] => prev
  | ai :: rest => lev_rows b (lev_row b prev prev i ai) (S i) rest
  end.

Definition levenshteinDistance (a b : string) : nat :=
  if String.eqb a b then O
  else if is_empty a then String.length b
  else if is_empty b then String.length a
  else
    let bs := list_ascii_of_string b in
    let prev := seq 0 (S (List.length bs)) in
    cell (lev_rows bs prev O (list_ascii_of_string a)) (List.length bs).

(** *** [findClosestNumberWord] *)

Definition closest_step (token : string) (st : string * nat) (word : string)
    : string * nat :=
  let '(best, bestDistance) := st in
  let distance := levenshteinDistance token word in
  if (distance <? bestDistance)%nat then (word, distance) else st.

Definition findClosestNumberWord (token : string) (maxDistance : nat)
    : string :=
  let '(best, bestDistance) :=
    fold_left (closest_step token) (map fst number_words)
              (EmptyString, S maxDistance) in
  if (bestDistance <=? maxDistance)%nat then best else EmptyString.

(** *** [extractRequestedCount] *)

(** [/\b\d{1,3}\b/] tried at the head of [s], the character before being
    [prev]: the digits are taken greedily, three, then two, then one. *)
Definition boundary (before after : option ascii) : bool :=
  let w o := match o with Some c => is_word c | None => false end in
  negb (Bool.eqb (w before) (w after)).

Fixpoint all_digits (s : string) : bool :=
  match s with
  | EmptyString => true
  | String c r => is_digit c && all_digits r
  end.

Definition last_char (s : string) : option ascii :=
  match rev (list_ascii_of_string s) with
  | c :: _ => Some c
  | [] => None
  end.

Definition head_char (s : string) : option ascii :=
  match s with String c _ => Some c | EmptyString => None end.

Definition digits_at (prev : option ascii) (s : string) : option string :=
  let try k :=
    let m := slice_to k s in
    (String.length m =? k)%nat && all_digits m &&
    boundary (last_char m) (head_char (slice_from k s)) in
  if negb (boundary prev (head_char s)) then None
  else if try 3%nat then Some (slice_to 3 s)
  else if try 2%nat then Some (slice_to 2 s)
  else if try 1%nat then Some (slice_to 1 s)
  else None.

(** [text.match(/\b\d{1,3}\b/g)]: a match can only start after a
    non-word character, so no position inside a match starts another. *)
Fixpoint digit_matches (prev : option ascii) (s : string) : list string :=
  match s with
  | EmptyString => []
  | String c r =>
      match digits_at prev s with
      | Some m => m :: digit_matches (Some c) r
      | None => digit_matches (Some c) r
      end
  end.

(** [text.replace(/[^a-z\s-]/g, " ").split(/\s+/).filter(Boolean)]. *)
Definition blank_other (c : ascii) : ascii :=
  if is_lower c || is_space c || Ascii.eqb c "-" then c else " "%char.

Definition words_of (text : string) : list string :=
  List.filter (fun w => negb (is_empty w))
         (split_spaces (map_chars blank_other text)).

(** The body of the loop over [words], at index [i]. *)
Definition count_step (words : list string) (maxValue : jsnum) (i : nat)
    : jsnum :=
  let token := nth i words EmptyString in
  let hyphen :=
    if includes "-" token then
      let parts := split_char "-" token in
      let base := map_get (nth 0 parts EmptyString) in
      let next := match parts with
                  | _ :: p1 :: _ => map_get p1
                  | _ => VUndef
                  end in
      if truthy base && truthy next && val_lt next 10
      then Some (val_add base next) else None
    else None in
  match hyphen with
  | Some sum => Math_max maxValue sum
  | None =>
      let value :=
        match map_get token with
        | VUndef => map_get (findClosestNumberWord token 2)
        | v => v
        end in
      if truthy value then
        let total :=
          match value with
          | VNum v =>
              if (20 <=? v) && (v mod 10 =? 0)
                 && (i + 1 <? List.length words)%nat then
                let next := map_get (nth (i + 1) words EmptyString) in
                if truthy next && val_lt next 10
                then val_add value next else Num v
              else Num v
          | _ => to_number value
          end in
        Math_max maxValue total
      else maxValue
  end.

Definition extractRequestedCount (text : string) : jsnum :=
  let matches := digit_matches None text in
  let maxValue0 :=
    match matches with
    | [] => Num 0
    | m :: ms =>
        Num (fold_left Z.max (map number_of_digits ms) (number_of_digits m))
    end in
  let words := words_of text in
  fold_left (count_step words) (seq 0 (List.length words)) maxValue0.

End Count.

(** ** Task sizing classifier ([classifyTaskSizing]) *)

Module Sizing.

Import Count.

Inductive TaskExecutionTier := TIER_1 | TIER_2 | TIER_3.

(** The alternatives of the scope regular expression. *)
Definition scope_signals : list string :=
  [ "all"; "every"; "each"; "across"; "compare"; "generate"; "create";
    "add"; "migrate"; "refactor"; "update"; "implement"; "replace" ]%string.

Definition hasScopeSignals (lower : string) : bool :=
  existsb (fun k => includes k lower) scope_signals.

(** The function as written: a mutable [score] updated by four statements,
    then two early returns. *)
Definition classifyTaskSizing (prompt contextText : string)
    : TaskExecutionTier :=
  let lower := toLowerCase prompt in
  let count := extractRequestedCount lower in
  let promptLength := Z.of_nat (String.length prompt) in
  let contextSize := Z.of_nat (String.length contextText) in
  let score := 0 in
  let score := if 600 <? promptLength then score + 2
               else if 300 <? promptLength then score + 1 else score in
  let score := if 200000 <? contextSize then score + 2
               else if 100000 <? contextSize then score + 1 else score in
  let score := if num_ge count 20 then score + 3
               else if num_ge count 8 then score + 2
               else if num_ge count 4 then score + 2 else score in
  let score := if hasScopeSignals lower then score + 1 else score in
  if 5 <=? score then TIER_3
  else if 3 <=? score then TIER_2
  else TIER_1.

End Sizing.

(** ** Patch normaliser: the pure helpers of [src/extension.ts] *)

Module Patch.

(** *** Regular expressions, each as the backtracking matcher runs it *)

(** [\s+] at the head of [s]: what follows the run, if the run is not
    empty. Every pattern below continues with a non-space character, so
    only the maximal run can lead to a match. *)
Definition spaces1 (s : string) : option string :=
  match s with
  | String c _ => if is_space c then Some (trimStart s) else None
  | EmptyString => None
  end.

(** [(.+)$] under the [m] flag at the head of [s]: the rest of the line. *)
Fixpoint line_rest (s : string) : string :=
  match s with
  | EmptyString => EmptyString
  | String c r => if is_lt c then EmptyString else String c (line_rest r)
  end.

Definition rest_of_line1 (s : string) : option string :=
  let g := line_rest s in if is_empty g then None else Some g.

(** A pattern anchored by [^] under the [m] flag: [try] is attempted at
    the start of the text and after every line terminator, leftmost
    first. [bol] says whether the head of [s] is such a position. *)
Fixpoint scan_lines {A} (try : string -> option A) (bol : bool) (s : string)
    : option A :=
  match (if bol then try s else None) with
  | Some x => Some x
  | None =>
      match s with
      | EmptyString => None
      | String c r => scan_lines try (is_lt c) r
      end
  end.

(** An unanchored pattern: [try] at every position, leftmost first. *)
Fixpoint scan_all {A} (try : string -> option A) (s : string) : option A :=
  match try s with
  | Some x => Some x
  | None =>
      match s with
      | EmptyString => None
      | String _ r => scan_all try r
      end
  end.

(** [b\/(.+)$] after [\s+]. *)
Definition b_path_at (s : string) : option string :=
  match spaces1 s with
  | Some r => if startsWith "b/" r then rest_of_line1 (slice_from 2 r) else None
  | None => None
  end.

(** [/^\+\+\+\s+b\/(.+)$/m]: group 1 of the first match. *)
Definition plus_line_at (s : string) : option string :=
  if startsWith "+++" s then b_path_at (slice_from 3 s) else None.

Definition match_plus_line (patch : string) : option string :=
  scan_lines plus_line_at true patch.

(** [/^diff --git a\/(.+)\s+b\/(.+)$/m]: group 2 of the first match. Group 1
    is greedy: it first takes the whole rest of the line and gives back one
    character at a time, down to one character. *)
Fixpoint diff_groups (k : nat) (r : string) : option string :=
  match k with
  | O => None
  | S k' =>
      match b_path_at (slice_from k r) with
      | Some g2 => Some g2
      | None => diff_groups k' r
      end
  end.

Definition diff_line_at (s : string) : option string :=
  if startsWith "diff --git a/" s then
    let r := slice_from 13 s in
    diff_groups (String.length (line_rest r)) r
  else None.

Definition match_diff_line (patch : string) : option string :=
  scan_lines diff_line_at true patch.

(** [/@@\s+-0,0\s+\+\d/.test(patch)]. *)
Definition empty_old_range_at (s : string) : option unit :=
  if startsWith "@@" s then
    match spaces1 (slice_from 2 s) with
    | Some r =>
        if startsWith "-0,0" r then
          match spaces1 (slice_from 4 r) with
          | Some r' =>
              match r' with
              | String p (String d _) =>
                  if Ascii.eqb p "+" && is_digit d then Some tt else None
              | _ => None
              end
          | None => None
          end
        else None
    | None => None
    end
  else None.

(** The character class and the extensions of the prompt's path pattern,
    [/([a-zA-Z0-9_./-]+\.(?:js|ts|tsx|jsx|py|java|go|rb|rs|cpp|c|h|md|json|yaml|yml))/]. *)
Definition is_path_char (c : ascii) : bool :=
  is_word c || Ascii.eqb c "." || Ascii.eqb c "/" || Ascii.eqb c "-".

Definition extensions : list string :=
  [ "js"; "ts"; "tsx"; "jsx"; "py"; "java"; "go"; "rb"; "rs"; "cpp"; "c";
    "h"; "md"; "json"; "yaml"; "yml" ]%string.

Fixpoint path_run (s : string) : nat :=
  match s with
  | String c r => if is_path_char c then S (path_run r) else O
  | EmptyString => O
  end.

(** The alternation is ordered: the first extension that matches is taken. *)
Definition extension_at (s : string) : option string :=
  find (fun e => startsWith e s) extensions.

(** The class [+] is greedy: it takes [k] characters, the longest run
    first, and the match needs a dot and an extension right after them. *)
Fixpoint path_backtrack (k : nat) (s : string) : option string :=
  match k with
  | O => None
  | S k' =>
      let after := slice_from k s in
      let here :=
        if startsWith "." after then
          match extension_at (slice_from 1 after) with
          | Some e => Some (slice_to k s +:+ "." +:+ e)
          | None => None
          end
        else None in
      match here with
      | Some m => Some m
      | None => path_backtrack k' s
      end
  end.

Definition path_at (s : string) : option string :=
  path_backtrack (path_run s) s.

(** *** The helpers *)

Definition isUnifiedDiff (text : string) : bool :=
  if is_empty text then false
  else includes "diff --git " text || includes "--- " text.

Definition strip_prefix (pre s : string) : string :=
  if startsWith pre s then slice_from (String.length pre) s else s.

Definition ensureDiffGitHeader (patch : string) : string :=
  if includes "diff --git " patch then patch
  else
    let lines := lines patch in
    let oldIndex := findIndex (startsWith "--- ") lines in
    let newIndex := findIndex (startsWith "+++ ") lines in
    if (oldIndex <? 0) || (newIndex <? 0) then patch
    else
      let oldPath := trim (slice_from 4 (at_index lines oldIndex)) in
      let newPath := trim (slice_from 4 (at_index lines newIndex)) in
      let cleanOld := strip_prefix "a/" oldPath in
      let cleanNew := strip_prefix "b/" newPath in
      let aPath := if String.eqb oldPath "/dev/null" then cleanNew else cleanOld in
      let bPath := if String.eqb newPath "/dev/null" then cleanOld else cleanNew in
      let header :=
        ("diff --git a/" +:+ aPath +:+ " b/" +:+ bPath) ::
        (if String.eqb oldPath "/dev/null" then ["new file mode 100644"%string]
         else if String.eqb newPath "/dev/null"
              then ["deleted file mode 100644"%string]
              else []) in
      join nl (header ++ lines).

Definition ensureTrailingNewline (patch : string) : string :=
  if is_empty patch then patch
  else if endsWithChar LF patch then patch else patch +:+ nl.

Definition isNewFilePatch (patch : string) : bool :=
  includes "--- /dev/null" patch
  || match scan_all empty_old_range_at patch with
     | Some _ => true
     | None => false
     end.

(** The loop of [extractNewFileContentFromPatch]: [inHunk] and [content]
    are its two variables. *)
Fixpoint new_file_lines (inHunk : bool) (ls : list string) : list string :=
  match ls with
  | [] => []
  | line :: rest =>
      if startsWith "@@" line then new_file_lines true rest
      else if negb inHunk then new_file_lines inHunk rest
      else if startsWith "+++" line then new_file_lines inHunk rest
      else if startsWith "+" line
           then slice_from 1 line :: new_file_lines inHunk rest
           else new_file_lines inHunk rest
  end.

Definition extractNewFileContentFromPatch (patch : string) : option string :=
  if negb (isNewFilePatch patch) then None
  else
    let content := new_file_lines false (lines patch) in
    match content with
    | [] => None
    | _ => Some (join nl content)
    end.

Definition extractFilePathFromPrompt (prompt : string) : option string :=
  scan_all path_at prompt.

(** [x.trim() || null]. *)
Definition trimmed_or_null (s : string) : option string :=
  let t := trim s in if is_empty t then None else Some t.

Definition extractPrimaryFilePath (patch : string) : option string :=
  match match_plus_line patch with
  | Some g => trimmed_or_null g
  | None =>
      match match_diff_line patch with
      | Some g => trimmed_or_null g
      | None => None
      end
  end.

(** [stripCodeFences]: [/```[\s\S]*?```/g] pairs a fence with the next one
    after it, and the callback deletes both. [cut] finds the first
    occurrence of the fence; the recursion is on the text left after the
    closing fence, bounded by the length of the text. *)
Fixpoint cut (needle s : string) : option (string * string) :=
  if startsWith needle s
  then Some (EmptyString, slice_from (String.length needle) s)
  else match s with
       | EmptyString => None
       | String c r =>
           match cut needle r with
           | Some (u, v) => Some (String c u, v)
           | None => None
           end
       end.

Definition fence : string := "```".

Fixpoint strip_fences (fuel : nat) (text : string) : string :=
  match fuel with
  | O => text
  | S fuel' =>
      match cut fence text with
      | None => text
      | Some (before, r) =>
          match cut fence r with
          | None => text
          | Some (inner, after) =>
              before +:+ inner +:+ strip_fences fuel' after
          end
      end
  end.

Definition stripCodeFences (text : string) : string :=
  strip_fences (String.length text) text.

Definition buildStepPrompt (originalPrompt title instruction : string)
    (index total : nat) : string :=
  "Original request:" +:+ nl +:+ originalPrompt +:+ nl +:+ nl +:+
  "Step " +:+ string_of_nat index +:+ " of " +:+ string_of_nat total +:+
  ": " +:+ title +:+ nl +:+
  "Instruction:" +:+ nl +:+ instruction +:+ nl +:+ nl +:+
  "Only make changes required for this step. " +:+
  "Do not repeat previous steps.".

Definition shouldFallbackToPlan (raw : string) : bool :=
  includes "Model response was not a patch" raw
  || includes "The model returned an invalid patch" raw.

End Patch.

(** ** The world: working tree, collaborators and their history *)

Module Sys.

(** The outcome of a call: a value, or the message of the [Error] thrown. *)
Inductive Res (A : Type) : Type :=
| Ok (a : A)
| Err (message : string).
Arguments Ok {A} a.
Arguments Err {A} message.

(** The repository directory: its files by absolute path, and the
    directories that are known to exist. *)
Record FS := mkFS {
  files : gmap string string;
  dirs : gset string
}.

(** The strategies of the application cascade. *)
Inductive Strategy :=
| DirectApply
| NewFileShortCircuit
| RewriteForExistingFile
| ThreeWayMerge
| Regeneration
| MissingFileCreation
| WholeFileReplace.

(** What a run does, in the order it does it. [ETry], [EDone] and [EFail]
    are ghost events with no counterpart in the source: they mark where the
    cascade enters a strategy, where it returns after the strategy
    succeeded, and where it goes on after the strategy did not succeed
    ([EFail] carries the message of the error caught there, if one was). *)
Inductive Event :=
| EApi (model system user : string)
| EGit (args : list string)
| EWriteFile (path content : string)
| EUnlink (path : string)
| EMkdir (path : string)
| ELog (message : string)
| ETry (s : Strategy)
| EDone (s : Strategy)
| EFail (s : Strategy) (message : string).

Record World := mkWorld {
  fs : FS;
  history : list Event
}.

(** The collaborators. [api] is [client.messages.create] followed by the
    concatenation of the text blocks; [git_exec] is [execFile("git", ...)],
    its error being what [getExecErrorMessage] extracts; [json_steps] is
    [JSON.parse] on a plan, giving for an array the [title] and
    [instruction] of each item as strings; [path_join] and [path_dirname]
    are Node's; [prepare] and [publish] stand for the parts of a run that
    precede and follow change generation (configuration, clean-tree check
    and branch creation, yielding the API key, the model and the repository
    root; then summary, commit, push and pull request). *)
Record Env := mkEnv {
  api : list Event -> string -> string -> Z -> string -> string -> Res string;
  git_exec : FS -> string -> list string -> Res string * FS;
  json_steps : string -> option (list (string * string));
  path_join : string -> string -> string;
  path_dirname : string -> string;
  prepare : FS -> Res (string * string * string) * FS;
  publish : string -> string -> FS -> Res (string * string) * FS
}.

Definition M (A : Type) : Type := World -> Res A * World.

#[global] Instance M_ret : MRet M := fun A a w => (Ok a, w).

#[global] Instance M_bind : MBind M := fun A B f m w =>
  match m w with
  | (Ok a, w') => f a w'
  | (Err e, w') => (Err e, w')
  end.

Definition throw {A} (message : string) : M A := fun w => (Err message, w).

(** [try { m } catch (error) { handler(error.message) }]. *)
Definition try_catch {A} (m : M A) (handler : string -> M A) : M A :=
  fun w =>
    match m w with
    | (Ok a, w') => (Ok a, w')
    | (Err e, w') => handler e w'
    end.

Definition emit (e : Event) : M unit := fun w =>
  (Ok tt, mkWorld (fs w) (history w ++ [e])).

Definition fs_exists (t : FS) (path : string) : bool :=
  bool_decide (is_Some (files t !! path)) || bool_decide (path ∈ dirs t).

(** [fs.stat(path)] succeeded. *)
Definition stat_ok (path : string) : M bool := fun w =>
  (Ok (fs_exists (fs w) path), w).

(** [fs.readFile(path, "utf8")], [None] when it throws. *)
Definition readFile (path : string) : M (option string) := fun w =>
  (Ok (files (fs w) !! path), w).

Definition writeFile (path content : string) : M unit := fun w =>
  (Ok tt,
   mkWorld (mkFS (<[path := content]> (files (fs w))) (dirs (fs w)))
           (history w ++ [EWriteFile path content])).

(** [fs.mkdir(path, { recursive: true })]. *)
Definition mkdir (path : string) : M unit := fun w =>
  (Ok tt,
   mkWorld (mkFS (files (fs w)) ({[ path ]} ∪ dirs (fs w)))
           (history w ++ [EMkdir path])).

Definition safeUnlink (filePath : string) : M unit := fun w =>
  (Ok tt,
   mkWorld (mkFS (delete filePath (files (fs w))) (dirs (fs w)))
           (history w ++ [EUnlink filePath])).

Definition logStep (message : string) : M unit := emit (ELog message).

End Sys.

Import Sys.

(** ** The generation wrappers of [src/llm/claude.ts] *)

Module Claude.

Import Patch.

Record ClaudePlanStep := mkStep {
  title : string;
  instruction : string
}.

(** [truncate] of [claude.ts]. *)
Definition truncate (value : string) (maxLength : Z) : string :=
  if Z.of_nat (String.length value) <=? maxLength then value
  else slice0 maxLength value +:+ nl +:+ "...truncated...".

(** The suffix of [s] that starts at [s.indexOf(needle)]. *)
Fixpoint from_first (needle s : string) : option string :=
  if startsWith needle s then Some s
  else match s with
       | EmptyString => None
       | String _ r => from_first needle r
       end.

(** [/^---\s+/m] at the head of [s]. *)
Definition dashes_at (s : string) : option string :=
  if startsWith "---" s then
    match spaces1 (slice_from 3 s) with
    | Some _ => Some s
    | None => None
    end
  else None.

Definition extractUnifiedDiff (raw : string) : string :=
  let cleaned := trim (stripCodeFences raw) in
  match from_first "diff --git " cleaned with
  | Some rest => trim rest
  | None =>
      match scan_lines dashes_at true cleaned with
      | Some rest => trim rest
      | None => trim cleaned
      end
  end.

(** [s.slice(start, end + 1)] between the first "[" and the last "]". *)
Fixpoint index_of (c : ascii) (s : string) : option nat :=
  match s with
  | EmptyString => None
  | String a r =>
      if Ascii.eqb a c then Some O
      else match index_of c r with Some i => Some (S i) | None => None end
  end.

Fixpoint last_index_of (c : ascii) (s : string) : option nat :=
  match s with
  | EmptyString => None
  | String a r =>
      match last_index_of c r with
      | Some i => Some (S i)
      | None => if Ascii.eqb a c then Some O else None
      end
  end.

Definition plan_candidate (cleaned : string) : string :=
  match index_of "[" cleaned, last_index_of "]" cleaned with
  | Some start, Some end_ =>
      if (start <=? end_)%nat
      then slice_to (S end_ - start) (slice_from start cleaned)
      else cleaned
  | _, _ => cleaned
  end.

Section WithEnv.

Variable env : Env.

(** [client.messages.create] and the join of its text blocks. *)
Definition messages_create (apiKey model : string) (max_tokens : Z)
    (system user : string) : M string := fun w =>
  let w' := mkWorld (fs w) (history w ++ [EApi model system user]) in
  (api env (history w) apiKey model max_tokens system user, w').

Definition generatePatchWithClaude (apiKey model prompt context : string)
    : M string :=
  let system :=
    "Return ONLY a unified diff patch that can be applied with git apply. " +:+
    "Do not include explanations, markdown, or code fences. " +:+
    "If no changes are needed, return an empty response." in
  let user :=
    "Prompt:" +:+ nl +:+ prompt +:+ nl +:+ nl +:+
    "Context:" +:+ nl +:+ truncate context 12000 +:+ nl +:+ nl +:+
    "Output:" in
  text ← messages_create apiKey model 3000 system user;
  mret (extractUnifiedDiff text).

Definition parsePlanJson (raw : string) : list ClaudePlanStep :=
  let cleaned := stripCodeFences raw in
  match json_steps env (plan_candidate cleaned) with
  | None => []
  | Some data =>
      List.filter (fun item => negb (is_empty (title item))
                          && negb (is_empty (instruction item)))
             (map (fun item => mkStep (trim (fst item)) (trim (snd item))) data)
  end.

Definition generatePlanWithClaude (apiKey model prompt context : string)
    (maxSteps : nat) (targetCount : Count.jsnum) (existingFiles : list string)
    : M (list ClaudePlanStep) :=
  let system :=
    "Return ONLY valid JSON. " +:+
    "Output a JSON array of steps, each with {" +:+ String "034" "title" +:+
    String "034" ": string, " +:+ String "034" "instruction" +:+
    String "034" ": string}. " +:+
    "No markdown, no code fences, no extra text." in
  let countHint :=
    match targetCount with
    | Count.Num n =>
        if 0 <? n
        then "Target item count: " +:+ string_of_nat (Z.to_nat n) +:+ nl
        else EmptyString
    | Count.NaN => EmptyString
    end in
  let existingHint :=
    match existingFiles with
    | [] => EmptyString
    | _ => "Existing files (partial):" +:+ nl +:+
           truncate (join nl existingFiles) 2000 +:+ nl +:+ nl
    end in
  let user :=
    "Task:" +:+ nl +:+ prompt +:+ nl +:+ nl +:+
    "Context summary:" +:+ nl +:+ truncate context 6000 +:+ nl +:+ nl +:+
    existingHint +:+
    "Constraints:" +:+ nl +:+ "- Max steps: " +:+ string_of_nat maxSteps +:+ nl +:+
    countHint +:+
    "- Steps must be executable in order" +:+ nl +:+
    "- If multiple items are requested, ensure all items are covered" +:+ nl +:+
    "- Each step must target exactly one file and include the filename in the title" +:+ nl +:+
    "- Do not create files that already exist; plan edits instead" +:+ nl +:+
    "- Each instruction should be specific and scoped" +:+ nl +:+ nl +:+
    "Output:" in
  text ← messages_create apiKey model 800 system user;
  let parsed := parsePlanJson (trim text) in
  match parsed with
  | [] => throw "Failed to generate execution plan."
  | _ => mret parsed
  end.

Definition generateFileContentWithClaude
    (apiKey model prompt context filePath : string) : M string :=
  let system :=
    "Return ONLY the full file contents. " +:+
    "Do not include markdown, code fences, or explanations." in
  let user :=
    "File path: " +:+ filePath +:+ nl +:+ nl +:+
    "Task:" +:+ nl +:+ prompt +:+ nl +:+ nl +:+
    "Context:" +:+ nl +:+ truncate context 6000 +:+ nl +:+ nl +:+
    "Output:" in
  text ← messages_create apiKey model 3000 system user;
  mret (trim text).

End WithEnv.

End Claude.

(** ** [src/git.ts] and [src/context.ts] *)

Module Git.

Section WithEnv.

Variable env : Env.

Definition runGit (args : list string) (cwd : string) : M string := fun w =>
  let '(r, t) := git_exec env (fs w) cwd args in
  let w' := mkWorld t (history w ++ [EGit args]) in
  match r with
  | Ok stdout => (Ok (trim stdout), w')
  | Err message =>
      (Err ("Git command failed: git " +:+ join " " args +:+ nl +:+ message), w')
  end.

Definition validatePatch (repoRoot patchPath : string) : M unit :=
  _ ← runGit ["apply"; "--check"; patchPath]%string repoRoot; mret tt.

Definition applyPatch (repoRoot patchPath : string) : M unit :=
  _ ← runGit ["apply"; "--whitespace=fix"; patchPath]%string repoRoot; mret tt.

Definition applyPatchThreeWay (repoRoot patchPath : string) : M unit :=
  _ ← runGit ["apply"; "--3way"; "--whitespace=fix"; patchPath]%string repoRoot;
  mret tt.

Definition nonempty (xs : list string) : list string :=
  List.filter (fun x => negb (is_empty x)) xs.

Definition listRepoFiles (repoRoot : string) : M (list string) :=
  try_catch
    (out ← runGit ["ls-files"]%string repoRoot;
     mret (nonempty (split_char LF out)))
    (fun _ => mret []).

Definition getFileList (workspaceRoot : string) : M (list string) :=
  try_catch
    (out ← runGit ["ls-files"]%string workspaceRoot;
     mret (take 200 (nonempty (split_char LF out))))
    (fun _ => mret []).

Definition readTextFile (workspaceRoot relativePath : string)
    (maxLength : Z) : M (option string) :=
  content ← readFile (path_join env workspaceRoot relativePath);
  mret (match content with
        | Some c =>
            if Z.of_nat (String.length c) <=? maxLength then Some c
            else Some (slice0 maxLength c +:+ nl +:+
                       "...truncated...")
        | None => None
        end).

(** [x || fallback] and [if (x)] on a string or null. *)
Definition nonblank (o : option string) : option string :=
  match o with
  | Some s => if is_empty s then None else Some s
  | None => None
  end.

Definition buildContext (workspaceRoot : string) : M string :=
  fileList ← getFileList workspaceRoot;
  let sections :=
    ["Tracked files (first 200):"%string;
     match nonblank (Some (join nl fileList)) with
     | Some l => l
     | None => "(no files)"%string
     end] in
  readme ← readTextFile workspaceRoot "README.md" 4000;
  let sections :=
    match nonblank readme with
    | Some r => sections ++ [nl +:+ "README.md:"; r]
    | None => sections
    end in
  packageJson ← readTextFile workspaceRoot "package.json" 4000;
  let sections :=
    match nonblank packageJson with
    | Some r => sections ++ [nl +:+ "package.json:"; r]
    | None => sections
    end in
  mret (join nl sections).

End WithEnv.

End Git.

(** ** The application cascade, the plan runner and the selector
       ([src/extension.ts]) *)

Module Ext.

Import Patch Claude Git Count Sizing.

(** [if (x)] on a string or null: null and the empty string are falsy. *)
Definition truthy_string (o : option string) : option string := nonblank o.

Section WithEnv.

Variable env : Env.

Definition isMissingFile (repoRoot filePath : string) : M bool :=
  found ← stat_ok (path_join env repoRoot filePath);
  mret (negb found).

Definition writeFileFromNonPatchResponse (prompt repoRoot content0 : string)
    : M bool :=
  let content := trim (stripCodeFences content0) in
  if is_empty content then mret false
  else
    match extractFilePathFromPrompt prompt with
    | None => mret false
    | Some target =>
        let fullPath := path_join env repoRoot target in
        _ ← mkdir (path_dirname env fullPath);
        _ ← writeFile fullPath (content +:+ nl);
        mret true
    end.

Definition normalizePatchForNewFile (patch repoRoot : string) : M string :=
  match extractPrimaryFilePath patch with
  | None => mret patch
  | Some filePath =>
      found ← stat_ok (path_join env repoRoot filePath);
      if found : bool then mret patch
      else if includes "/dev/null" patch then mret patch
      else
        let lines := lines patch in
        let mapped :=
          map (fun line => if startsWith "--- a/" line
                           then "--- /dev/null"%string else line) lines in
        let rewritten :=
          match mapped with
          | line :: rest =>
              if startsWith "diff --git " line
              then line :: "new file mode 100644"%string :: rest
              else mapped
          | [] => mapped
          end in
        mret (ensureTrailingNewline (join nl rewritten))
  end.

Definition rewriteNewFilePatchForExistingFile (patch repoRoot : string)
    : M (option string) :=
  if negb (includes "new file mode" patch) then mret None
  else
    match match_plus_line patch with
    | None => mret None
    | Some g =>
        let filePath := trim g in
        if is_empty filePath then mret None
        else
          found ← stat_ok (path_join env repoRoot filePath);
          if negb found then mret None
          else
            let lines := lines patch in
            let kept :=
              List.filter (fun line =>
                        negb (String.eqb line "new file mode 100644")) lines in
            let mapped :=
              map (fun line => if startsWith "--- /dev/null" line
                               then "--- a/" +:+ filePath else line) kept in
            mret (Some (ensureTrailingNewline (join nl mapped)))
    end.

(** [extractPrimaryFilePath(originalPatch) ?? extractFilePathFromPrompt(prompt)]. *)
Definition targetFile (originalPatch prompt : string) : option string :=
  match extractPrimaryFilePath originalPatch with
  | Some f => Some f
  | None => extractFilePathFromPrompt prompt
  end.

Definition regeneratePatchWithFreshFileContext
    (apiKey model prompt repoRoot originalPatch : string) : M (option string) :=
  match targetFile originalPatch prompt with
  | None => mret None
  | Some filePath =>
      read ← readFile (path_join env repoRoot filePath);
      match read with
      | None => mret None
      | Some fileContent =>
          let focusedContext :=
            "File: " +:+ filePath +:+ nl +:+
            "Current contents:" +:+ nl +:+
            fileContent +:+
            nl +:+ nl +:+ "Only modify this file. Output a unified diff." in
          retryPatch ← generatePatchWithClaude env apiKey model prompt focusedContext;
          let normalized :=
            ensureTrailingNewline (ensureDiffGitHeader retryPatch) in
          mret (if is_empty (trim normalized) then None else Some normalized)
      end
  end.

Definition createFileFromClaudeIfMissing
    (apiKey model prompt contextText repoRoot originalPatch : string) : M bool :=
  match targetFile originalPatch prompt with
  | None => mret false
  | Some filePath =>
      let fullPath := path_join env repoRoot filePath in
      found ← stat_ok fullPath;
      if found : bool then mret false
      else
        content ← generateFileContentWithClaude env apiKey model
                    ("Create the full contents for " +:+ filePath +:+ ".")
                    contextText filePath;
        if is_empty (trim content) then mret false
        else
          _ ← mkdir (path_dirname env fullPath);
          _ ← writeFile fullPath (content +:+ nl);
          mret true
  end.

Definition replaceFileFromClaudeOnFailure
    (apiKey model prompt contextText repoRoot originalPatch : string) : M bool :=
  match targetFile originalPatch prompt with
  | None => mret false
  | Some filePath =>
      let fullPath := path_join env repoRoot filePath in
      read ← readFile fullPath;
      match read with
      | None => mret false
      | Some existing =>
          let focusedContext :=
            "File: " +:+ filePath +:+ nl +:+
            "Current contents:" +:+ nl +:+
            existing +:+
            nl +:+ nl +:+ "Return the full updated file contents." in
          content ← generateFileContentWithClaude env apiKey model prompt
                      focusedContext filePath;
          if is_empty (trim content) then mret false
          else
            _ ← writeFile fullPath (content +:+ nl);
            mret true
      end
  end.

Definition patchPathOf (repoRoot stepLabel : string) : string :=
  path_join env repoRoot (".llm-pr-assistant." +:+ stepLabel +:+ ".patch").

Definition invalidPatchMessage (patchPath details threeWayDetails : string)
    : string :=
  "The model returned an invalid patch. " +:+
  "We saved it to " +:+ patchPath +:+ "." +:+ nl +:+
  details +:+
  (if is_empty threeWayDetails then EmptyString else nl +:+ threeWayDetails).

(** The [catch (threeWayError)] block. *)
Definition afterThreeWayFailure
    (apiKey model prompt contextText repoRoot normalizedPatch patchPath
     details threeWayDetails : string) : M unit :=
  _ ← emit (ETry Regeneration);
  refreshed ← regeneratePatchWithFreshFileContext apiKey model prompt repoRoot
                normalizedPatch;
  applied ←
    match refreshed with
    | Some r =>
        try_catch
          (_ ← writeFile patchPath r;
           _ ← validatePatch env repoRoot patchPath;
           _ ← applyPatch env repoRoot patchPath;
           _ ← safeUnlink patchPath;
           mret true)
          (fun _ => mret false)
    | None => mret false
    end;
  if applied : bool then emit (EDone Regeneration)
  else
    _ ← emit (EFail Regeneration EmptyString);
    _ ← emit (ETry MissingFileCreation);
    created ← createFileFromClaudeIfMissing apiKey model prompt contextText
                repoRoot normalizedPatch;
    if created : bool then
      _ ← safeUnlink patchPath; emit (EDone MissingFileCreation)
    else
      _ ← emit (EFail MissingFileCreation EmptyString);
      _ ← emit (ETry WholeFileReplace);
      replaced ← replaceFileFromClaudeOnFailure apiKey model prompt contextText
                   repoRoot normalizedPatch;
      if replaced : bool then
        _ ← safeUnlink patchPath; emit (EDone WholeFileReplace)
      else
        _ ← emit (EFail WholeFileReplace EmptyString);
        throw (invalidPatchMessage patchPath details threeWayDetails).

(** The [catch (error)] block of the direct attempt. *)
Definition afterDirectFailure
    (apiKey model prompt contextText repoRoot normalizedPatch patchPath
     details : string) : M unit :=
  _ ← emit (ETry RewriteForExistingFile);
  rewritten ← rewriteNewFilePatchForExistingFile normalizedPatch repoRoot;
  match truthy_string rewritten with
  | Some r =>
      _ ← writeFile patchPath r;
      _ ← validatePatch env repoRoot patchPath;
      _ ← applyPatch env repoRoot patchPath;
      _ ← safeUnlink patchPath;
      emit (EDone RewriteForExistingFile)
  | None =>
      _ ← emit (EFail RewriteForExistingFile EmptyString);
      _ ← emit (ETry ThreeWayMerge);
      try_catch
        (_ ← applyPatchThreeWay env repoRoot patchPath;
         _ ← safeUnlink patchPath;
         emit (EDone ThreeWayMerge))
        (fun threeWayDetails =>
           _ ← emit (EFail ThreeWayMerge threeWayDetails);
           afterThreeWayFailure apiKey model prompt contextText repoRoot
             normalizedPatch patchPath details threeWayDetails)
  end.

(** The statements of [applyPatchFromClaude] from the artifact on: the
    response is a unified diff. The result of the first block says whether
    the function has already returned. *)
Definition applyDiff
    (apiKey model prompt contextText repoRoot stepLabel normalizedPatch : string)
    : M unit :=
  let patchPath := patchPathOf repoRoot stepLabel in
  _ ← writeFile patchPath normalizedPatch;
  let primaryFile := extractPrimaryFilePath normalizedPatch in
  returned ←
    match primaryFile with
    | None => mret false
    | Some primary =>
        missing ← isMissingFile repoRoot primary;
        if negb missing then mret false
        else
          _ ← emit (ETry NewFileShortCircuit);
          match truthy_string (extractNewFileContentFromPatch normalizedPatch) with
          | Some contentFromPatch =>
              _ ← mkdir (path_dirname env (path_join env repoRoot primary));
              _ ← writeFile (path_join env repoRoot primary)
                    (ensureTrailingNewline contentFromPatch);
              _ ← safeUnlink patchPath;
              _ ← emit (EDone NewFileShortCircuit);
              mret true
          | None =>
              _ ← emit (EFail NewFileShortCircuit EmptyString);
              _ ← emit (ETry MissingFileCreation);
              created ← createFileFromClaudeIfMissing apiKey model prompt
                          contextText repoRoot normalizedPatch;
              if created : bool then
                _ ← safeUnlink patchPath;
                _ ← emit (EDone MissingFileCreation);
                mret true
              else
                _ ← emit (EFail MissingFileCreation EmptyString);
                mret false
          end
    end;
  if returned : bool then mret tt
  else
    _ ← emit (ETry DirectApply);
    try_catch
      (_ ← validatePatch env repoRoot patchPath;
       _ ← applyPatch env repoRoot patchPath;
       _ ← safeUnlink patchPath;
       emit (EDone DirectApply))
      (fun details =>
         _ ← emit (EFail DirectApply details);
         afterDirectFailure apiKey model prompt contextText repoRoot
           normalizedPatch patchPath details).

Definition notAPatch : string := "Model response was not a patch.".

Definition applyPatchFromClaude
    (apiKey model prompt contextText repoRoot stepLabel : string)
    (allowEmpty : bool) : M unit :=
  patch ← generatePatchWithClaude env apiKey model prompt contextText;
  normalizedPatch ←
    normalizePatchForNewFile
      (ensureTrailingNewline (ensureDiffGitHeader patch)) repoRoot;
  if is_empty (trim normalizedPatch) then
    if allowEmpty then mret tt else throw notAPatch
  else if negb (isUnifiedDiff normalizedPatch) then
    wrote ← writeFileFromNonPatchResponse prompt repoRoot normalizedPatch;
    if wrote : bool then mret tt else throw notAPatch
  else
    applyDiff apiKey model prompt contextText repoRoot stepLabel normalizedPatch.

(** The [for] loop of [runPlanExecute]: [i] is the loop index, [steps] the
    steps from [plan[i]] on, [contextText] the variable the loop updates. *)
Fixpoint planLoop (apiKey model prompt repoRoot : string) (total : nat)
    (i : nat) (steps : list ClaudePlanStep) (contextText : string) : M unit :=
  match steps with
  | [] => mret tt
  | step :: rest =>
      let stepPrompt :=
        buildStepPrompt prompt (title step) (instruction step) (i + 1) total in
      _ ← logStep ("Calling Claude (" +:+ string_of_nat (i + 1) +:+ "/" +:+
                   string_of_nat total +:+ ")");
      _ ← applyPatchFromClaude apiKey model stepPrompt contextText repoRoot
            ("step-" +:+ string_of_nat (i + 1)) true;
      _ ← logStep "Refreshing context after step";
      contextText' ← buildContext env repoRoot;
      planLoop apiKey model prompt repoRoot total (S i) rest contextText'
  end.

Definition planListing (plan : list ClaudePlanStep) : string :=
  join nl (imap (fun index step =>
                   string_of_nat (index + 1) +:+ ". " +:+ title step) plan).

Definition runPlanExecute (apiKey model prompt contextText repoRoot : string)
    (targetCount : jsnum) (existingFiles : list string) (maxSteps : nat)
    : M unit :=
  _ ← logStep "Planning execution";
  plan ← generatePlanWithClaude env apiKey model prompt contextText maxSteps
           targetCount existingFiles;
  match plan with
  | [] => throw "Failed to generate execution plan."
  | _ =>
      _ ← logStep ("Plan steps:" +:+ nl +:+ planListing plan);
      planLoop apiKey model prompt repoRoot (List.length plan) O plan contextText
  end.

Definition tierName (t : TaskExecutionTier) : string :=
  match t with
  | TIER_1 => "TIER_1"
  | TIER_2 => "TIER_2"
  | TIER_3 => "TIER_3"
  end.

(** The [if (executionTier === "TIER_1") ... else ...] statement of
    [runGeneratePrompt]. *)
Definition executeTier (apiKey claudeModel repoRoot prompt contextText : string)
    (requestedCount : jsnum) (trackedFiles : list string)
    (executionTier : TaskExecutionTier) : M unit :=
  match executionTier with
  | TIER_1 =>
      _ ← logStep "Calling Claude";
      try_catch
        (applyPatchFromClaude apiKey claudeModel prompt contextText repoRoot
           "single-shot" false)
        (fun error =>
           if negb (shouldFallbackToPlan error) then throw error
           else
             _ ← logStep "Single-shot failed, switching to plan mode";
             runPlanExecute apiKey claudeModel prompt contextText repoRoot
               requestedCount trackedFiles 4)
  | _ =>
      runPlanExecute apiKey claudeModel prompt contextText repoRoot
        requestedCount trackedFiles
        (match executionTier with TIER_3 => 8%nat | _ => 4%nat end)
  end.

(** The change-generation part of [runGeneratePrompt], from "Collecting
    code context" to the end of the tier dispatch. *)
Definition generateChanges (apiKey claudeModel repoRoot prompt : string)
    : M unit :=
  _ ← logStep "Collecting code context";
  contextText ← buildContext env repoRoot;
  let requestedCount := extractRequestedCount (toLowerCase prompt) in
  let executionTier := classifyTaskSizing prompt contextText in
  trackedFiles ← listRepoFiles env repoRoot;
  _ ← logStep ("Execution tier: " +:+ tierName executionTier);
  executeTier apiKey claudeModel repoRoot prompt contextText requestedCount
    trackedFiles executionTier.

Definition outside {A} (f : FS -> Res A * FS) : M A := fun w =>
  let '(r, t) := f (fs w) in (r, mkWorld t (history w)).

Definition runGeneratePrompt (prompt : string) : M (string * string) :=
  '(apiKey, claudeModel, repoRoot) ← outside (prepare env);
  _ ← generateChanges apiKey claudeModel repoRoot prompt;
  outside (publish env repoRoot prompt).

End WithEnv.

End Ext.

(** ** Concrete collaborators, for evaluating the model *)

Module Scenario.

Import Patch Claude Git Count Sizing Ext.

Definition repo : string := "/repo".

(** [path.join] and [path.dirname] on the well-formed paths used here. *)
Definition join2 (a b : string) : string := a +:+ "/" +:+ b.

Definition dirname (path : string) : string :=
  match last_index_of "/" path with
  | Some O => "/"
  | Some i => slice_to i path
  | None => "."
  end.

(** A scripted service: the three request kinds are told apart by their
    system prompt, and each answer is a function of the user prompt. *)
Definition scripted
    (patches plans bodies : string -> Res string)
    (git : FS -> list string -> Res string * FS)
    (steps : string -> option (list (string * string))) : Env :=
  mkEnv
    (fun _ _ _ _ system user =>
       if startsWith "Return ONLY a unified diff" system then patches user
       else if startsWith "Return ONLY valid JSON" system then plans user
       else bodies user)
    (fun t _ args => git t args)
    steps
    join2
    dirname
    (fun t => (Ok ("key"%string, "claude"%string, repo), t))
    (fun _ _ t => (Ok ("https://example.test/pr/1"%string, EmptyString), t)).

Definition git_accepts (t : FS) (args : list string) : Res string * FS :=
  (Ok EmptyString, t).

Definition git_rejects (t : FS) (args : list string) : Res string * FS :=
  (Err "error: patch does not apply", t).

Definition no_steps (candidate : string) : option (list (string * string)) :=
  None.

Definition blank (user : string) : Res string := Ok EmptyString.

(** A working tree with one tracked file. *)
Definition tree : FS :=
  mkFS {[ "/repo/a.txt"%string := "old" +:+ nl ]} {[ repo ]}.

Definition start : World := mkWorld tree [].

(** A patch that creates [new.txt]. *)
Definition newFileDiff : string :=
  "diff --git a/new.txt b/new.txt" +:+ nl +:+
  "new file mode 100644" +:+ nl +:+
  "--- /dev/null" +:+ nl +:+
  "+++ b/new.txt" +:+ nl +:+
  "@@ -0,0 +1 @@" +:+ nl +:+
  "+hello".

(** A patch that deletes the only line of [x.txt], a file that is not in
    the tree. *)
Definition staleDiff : string :=
  "--- a/x.txt" +:+ nl +:+
  "+++ b/x.txt" +:+ nl +:+
  "@@ -1 +0,0 @@" +:+ nl +:+
  "-old".

(** A patch that edits the tracked file. *)
Definition editDiff : string :=
  "diff --git a/a.txt b/a.txt" +:+ nl +:+
  "--- a/a.txt" +:+ nl +:+
  "+++ b/a.txt" +:+ nl +:+
  "@@ -1 +1 @@" +:+ nl +:+
  "-old" +:+ nl +:+
  "+new".

(** The service returns the new-file patch, and git would accept it. *)
Definition envNewFile : Env :=
  scripted (fun _ => Ok newFileDiff) blank blank git_accepts no_steps.

(** The service returns the stale patch and no file body; git rejects
    everything. *)
Definition envStale : Env :=
  scripted (fun _ => Ok staleDiff) blank blank git_rejects no_steps.

(** Git rejects the plain application and merges with [--3way]. *)
Definition git_three_way (t : FS) (args : list string) : Res string * FS :=
  match args with
  | [ "apply"; "--3way"; _; _ ]%string =>
      (Ok EmptyString, mkFS (<["/repo/a.txt"%string := "new" +:+ nl]> (files t)) (dirs t))
  | _ => (Err "error: patch failed: a.txt:1", t)
  end.

Definition envThreeWay : Env :=
  scripted (fun _ => Ok editDiff) blank blank git_three_way no_steps.

(** The service answers a patch request with nothing. *)
Definition envEmpty : Env :=
  scripted blank blank blank git_accepts no_steps.

(** The service answers with a file body instead of a diff. *)
Definition envBody : Env :=
  scripted (fun _ => Ok "export default 1;") blank blank git_accepts no_steps.

(** The service is unreachable. *)
Definition envDown : Env :=
  scripted (fun _ => Err "529 overloaded_error") blank blank git_accepts no_steps.

(** A three-step plan: the first step creates [new.txt], the second gets
    the stale patch, the third would edit the tracked file. *)
Definition threeSteps : list (string * string) :=
  [ ("Create new.txt", "Add the file new.txt");
    ("Trim x.txt", "Remove the first line of x.txt");
    ("Edit a.txt", "Replace old by new in a.txt") ]%string.

Definition planPatches (user : string) : Res string :=
  if includes "Step 1 of 3" user then Ok newFileDiff
  else if includes "Step 2 of 3" user then Ok staleDiff
  else if includes "Step 3 of 3" user then Ok editDiff
  else Ok EmptyString.

Definition envPlan : Env :=
  scripted planPatches (fun _ => Ok "[...]") blank git_rejects
           (fun _ => Some threeSteps).

Definition run {A} (m : M A) : Res A * list Event :=
  let '(r, w) := m start in (r, history w).

End Scenario.

(** ** More of [src/extension.ts]: reports and repository names *)

Module Setup.

(** [truncate] of [extension.ts], used for the commit message and the
    title of the pull request. *)
Definition truncate (value : string) (maxLength : Z) : string :=
  if Z.of_nat (String.length value) <=? maxLength then value
  else slice0 (maxLength - 3) value +:+ "...".

(** The length of the longest run of [[^/]] at the head of [s]. *)
Fixpoint segment (s : string) : nat :=
  match s with
  | String c r => if Ascii.eqb c "/" then O else S (segment r)
  | EmptyString => O
  end.

(** [/^[^/]+\/[^/]+$/.test(value)]: the first class stops at the first
    slash, the second has to reach the end of the text. *)
Definition isRepoSlug (value : string) : bool :=
  let k := segment value in
  (0 <? k)%nat &&
  match slice_from k value with
  | String _ r => (0 <? String.length r)%nat && (segment r =? String.length r)%nat
  | EmptyString => false
  end.

(** [([^/]+?)(?:\.git)?$] after the first character of the group: the lazy
    group [taken] grows by one character at a time, and stops as soon as
    what is left is [.git] or nothing. *)
Fixpoint lazy_repo (taken s : string) : option string :=
  if String.eqb s ".git" || is_empty s then Some taken
  else match s with
       | String c r =>
           if Ascii.eqb c "/" then None
           else lazy_repo (taken +:+ String c EmptyString) r
       | EmptyString => None
       end.

(** [([^/]+)\/([^/]+?)(?:\.git)?$] at the head of [s]: the two groups,
    joined by a slash. *)
Definition slug_at (s : string) : option string :=
  let k := segment s in
  if (k =? 0)%nat then None
  else
    match slice_from k s with
    | String _ (String d r) =>
        if Ascii.eqb d "/" then None
        else match lazy_repo (String d EmptyString) r with
             | Some repo => Some (slice_to k s +:+ "/" +:+ repo)
             | None => None
             end
    | _ => None
    end.

Definition parseGithubSlug (remoteUrl : string) : option string :=
  let httpsMatch :=
    if startsWith "https://github.com/" remoteUrl
    then slug_at (slice_from 19 remoteUrl)
    else if startsWith "http://github.com/" remoteUrl
         then slug_at (slice_from 18 remoteUrl)
         else None in
  match httpsMatch with
  | Some slug => Some slug
  | None =>
      if startsWith "git@github.com:" remoteUrl
      then slug_at (slice_from 15 remoteUrl)
      else None
  end.

Definition isHttpsGithubOrigin (originUrl : string) : bool :=
  startsWith "https://github.com/" originUrl.

(** [toUserErrorMessage], on the message of the error. *)
Definition toUserErrorMessage (raw : string) : string :=
  if includes "model:" raw || includes "not_found_error" raw then
    "Claude model not available. Set a valid model in settings " +:+
    "(llmPrAssistant.claudeModel) or use 'claude-3-5-sonnet-latest'."
  else if includes "Working tree is not clean" raw then
    "Your repo has uncommitted changes. Commit, stash, or clean changes " +:+
    "before running the assistant."
  else if includes "Missing Anthropic API key" raw then
    "Anthropic API key is missing. Add it in the setup step."
  else if includes "Missing GitHub token" raw then
    "GitHub login is required. Click 'Sign In to GitHub' to continue."
  else if includes "Qdrant binary not found" raw then
    "Qdrant is not configured. Set llmPrAssistant.qdrantPath to a local " +:+
    "qdrant binary, then try again."
  else if includes "Missing repository" raw then
    "Repository is missing. Enter it as owner/repo."
  else if includes "Failed to generate execution plan" raw then
    "Could not plan the task. Try a smaller scope or run again."
  else if includes "Model response was not a patch" raw then
    "The model response wasn't a patch. Try rephrasing the request or " +:+
    "narrowing the scope."
  else if includes "GitHub device code expired" raw then
    "GitHub login expired. Please sign in again."
  else if includes "GitHub access denied" raw then
    "GitHub access was denied. Please approve the login to continue."
  else if includes "GitHub login timed out" raw then
    "GitHub login timed out. Please try again."
  else if includes "Permission to" raw && includes "denied" raw then
    "Git push failed due to permission issues. Make sure the GitHub " +:+
    "account you signed in with has access to the repo, then try again."
  else if is_empty raw then "Something went wrong. Please try again."
  else raw.

End Setup.

(** ** More of [src/git.ts], and the git helpers of [src/extension.ts] *)

Module Publish.

Import Git Setup.

(** [try { m } finally { cleanup }]: the outcome of [m], unless the
    cleanup throws. *)
Definition finally {A} (m : M A) (cleanup : M unit) : M A := fun w =>
  let '(r, w1) := m w in
  match cleanup w1 with
  | (Ok _, w2) => (r, w2)
  | (Err e, w2) => (Err e, w2)
  end.

Definition isIgnoredDirtyPath (statusLine : string) : bool :=
  if (String.length statusLine <? 4)%nat then false
  else
    let filePath := trim (slice_from 3 statusLine) in
    String.eqb filePath ".vscode/settings.json"
    || String.eqb filePath ".vscode/"
    || startsWith ".vscode/" filePath.

Definition notClean : string :=
  "Working tree is not clean. Commit or stash changes first.".

(** The double quote, and the script that answers git's credential
    prompts with the token. *)
Definition dq : string := String "034" EmptyString.

Definition askPassScript (token : string) : string :=
  "#!/bin/sh" +:+ nl +:+
  "case " +:+ dq +:+ "$1" +:+ dq +:+ " in" +:+ nl +:+
  "  *Username*) echo " +:+ dq +:+ "x-access-token" +:+ dq +:+ " ;;" +:+ nl +:+
  "  *Password*) echo " +:+ dq +:+ token +:+ dq +:+ " ;;" +:+ nl +:+
  "  *) echo " +:+ dq +:+ dq +:+ " ;;" +:+ nl +:+
  "esac" +:+ nl.

Section WithEnv.

Variable env : Env.

Definition ensureGitRepo (workspaceRoot : string) : M string :=
  runGit env ["rev-parse"; "--show-toplevel"]%string workspaceRoot.

Definition ensureClean (repoRoot : string) : M unit :=
  status ← runGit env ["status"; "--porcelain"]%string repoRoot;
  let dirty :=
    List.filter (fun line => negb (isIgnoredDirtyPath line))
      (nonempty (split_char LF status)) in
  match dirty with
  | [] => mret tt
  | _ => throw notClean
  end.

Definition createBranch (repoRoot branchName : string) : M unit :=
  _ ← runGit env ["checkout"; "-b"; branchName]%string repoRoot; mret tt.

Definition commitAll (repoRoot message : string) : M unit :=
  _ ← runGit env ["add"; "-A"]%string repoRoot;
  _ ← runGit env ["commit"; "-m"; message]%string repoRoot;
  mret tt.

Definition pushBranch (repoRoot branchName : string) : M unit :=
  _ ← runGit env ["push"; "-u"; "origin"; branchName]%string repoRoot; mret tt.

(** The environment handed to git here names the script, whose path is a
    function of [repoRoot]; the oracle sees the repository root and the
    arguments. *)
Definition pushBranchWithToken (repoRoot branchName token : string) : M unit :=
  let askPassPath := path_join env repoRoot ".llm-pr-assistant-askpass.sh" in
  _ ← writeFile askPassPath (askPassScript token);
  finally
    (_ ← runGit env
           ["-c"; "credential.helper="; "-c"; "credential.useHttpPath=true";
            "push"; "-u"; "origin"; branchName]%string repoRoot;
     mret tt)
    (safeUnlink askPassPath).

Definition getCurrentBranch (repoRoot : string) : M string :=
  runGit env ["rev-parse"; "--abbrev-ref"; "HEAD"]%string repoRoot.

(** The helpers of [extension.ts] that ask git about the remote. *)
Definition detectRepoSlug (repoRoot : string) : M (option string) :=
  try_catch
    (origin ← runGit env ["remote"; "get-url"; "origin"]%string repoRoot;
     mret (parseGithubSlug origin))
    (fun _ => mret None).

Definition detectBaseBranch (repoRoot : string) : M (option string) :=
  try_catch
    (head ← runGit env ["symbolic-ref"; "refs/remotes/origin/HEAD"]%string
              repoRoot;
     let parts := split_char "/" head in
     mret (nonblank (last parts)))
    (fun _ => mret None).

Definition getOriginUrl (repoRoot : string) : M (option string) :=
  try_catch
    (origin ← runGit env ["remote"; "get-url"; "origin"]%string repoRoot;
     mret (Some origin))
    (fun _ => mret None).

Definition buildChangeSummary (repoRoot : string) : M string :=
  try_catch
    (files ← runGit env ["diff"; "--name-only"]%string repoRoot;
     stats ← runGit env ["diff"; "--stat"]%string repoRoot;
     let fileList :=
       join nl (map (fun file => "- " +:+ file)
                    (nonempty (split_char LF files))) in
     let statLines := if is_empty stats then EmptyString else stats +:+ nl in
     mret (trim (fileList +:+ nl +:+ statLines)))
    (fun _ => mret EmptyString).

End WithEnv.

End Publish.

(** * Definitions used to state the properties *)

(** ** Patch normalisation as the pipeline applies it *)

Module NormalizeSpec.

Import Patch.

(** Header synthesis followed by trailing-newline normalisation, as in
    [applyPatchFromClaude] and [regeneratePatchWithFreshFileContext]. *)
Definition normalize (patch : string) : string :=
  ensureTrailingNewline (ensureDiffGitHeader patch).

Definition gitHeader : string := "diff --git ".

(** A pattern without CR and LF. *)
Fixpoint clean (pre : string) : bool :=
  match pre with
  | EmptyString => true
  | String a p => negb (Ascii.eqb a LF) && negb (Ascii.eqb a CR) && clean p
  end.

(** [pre] occurs in [s] right after a LF. *)
Fixpoint tail_starts (pre s : string) : bool :=
  match s with
  | EmptyString => false
  | String c r => (Ascii.eqb c LF && startsWith pre r) || tail_starts pre r
  end.

(** The first line of [patch] that starts with [marker]. *)
Definition first_line (marker patch : string) : option string :=
  find (startsWith marker) (lines patch).

End NormalizeSpec.

(** ** The scoring table of the sizing classifier, after the specification *)

Module SizingSpec.

Import Count Sizing.

Definition length_points (promptLength : Z) : Z :=
  if 600 <? promptLength then 2 else if 300 <? promptLength then 1 else 0.

Definition context_points (contextSize : Z) : Z :=
  if 200000 <? contextSize then 2 else if 100000 <? contextSize then 1 else 0.

(** A count that is not a number is in no band. *)
Definition count_points (count : jsnum) : Z :=
  match count with
  | Num n => if 20 <=? n then 3 else if 8 <=? n then 2
             else if 4 <=? n then 2 else 0
  | NaN => 0
  end.

Definition scope_points (prompt : string) : Z :=
  if existsb (fun keyword => includes keyword (toLowerCase prompt))
             scope_signals
  then 1 else 0.

Definition score (prompt contextText : string) : Z :=
  length_points (Z.of_nat (String.length prompt))
  + context_points (Z.of_nat (String.length contextText))
  + count_points (extractRequestedCount (toLowerCase prompt))
  + scope_points prompt.

Definition tier_of (score : Z) : TaskExecutionTier :=
  if 5 <=? score then TIER_3 else if 3 <=? score then TIER_2 else TIER_1.

End SizingSpec.

(** ** The values the count extractor finds *)

Module CountSpec.

Import Count.

(** Strategy 1: the numbers written with one to three digits. *)
Definition literal_values (text : string) : list Z :=
  map number_of_digits (digit_matches None text).

(** Strategy 3: a hyphenated compound, a number word joined to a unit. *)
Definition compound_value (token : string) : option jsnum :=
  if includes "-" token then
    match split_char "-" token with
    | first :: second :: _ =>
        let base := map_get first in
        let next := map_get second in
        if truthy base && truthy next && val_lt next 10
        then Some (val_add base next) else None
    | _ => None
    end
  else None.

(** Strategies 2 and 5: the token as a number word, or the closest number
    word within edit distance 2. *)
Definition word_value (token : string) : jsval :=
  match map_get token with
  | VUndef => map_get (findClosestNumberWord token 2)
  | v => v
  end.

(** Strategy 4: a multiple of ten from twenty on, followed by a unit. *)
Definition with_unit (words : list string) (i : nat) (value : jsval) : jsnum :=
  match value with
  | VNum v =>
      if (20 <=? v) && (v mod 10 =? 0) && (i + 1 <? List.length words)%nat then
        let next := map_get (nth (i + 1) words EmptyString) in
        if truthy next && val_lt next 10 then val_add value next else Num v
      else Num v
  | _ => to_number value
  end.

(** What the token of index [i] contributes, if anything. *)
Definition token_value (words : list string) (i : nat) : option jsnum :=
  let token := nth i words EmptyString in
  match compound_value token with
  | Some sum => Some sum
  | None =>
      let value := word_value token in
      if truthy value then Some (with_unit words i value) else None
  end.

Definition token_values (words : list string) : list jsnum :=
  omap (token_value words) (seq 0 (List.length words)).

Definition values_found (text : string) : list jsnum :=
  map Num (literal_values text) ++ token_values (words_of text).

(** [n] is the maximum of 0 and the values found. *)
Definition is_max_of (n : Z) (values : list jsnum) : Prop :=
  Forall (fun v => exists k, v = Num k /\ k <= n) values
  /\ (n = 0 \/ In (Num n) values).

(** The value is the inherited [Object.prototype] member. *)
Definition is_obj (v : jsval) : bool :=
  match v with VObj => true | _ => false end.

End CountSpec.

(** ** Substrings and character classes *)

Module Substring.

(** [p] occurs in [s]. *)
Definition sub (p s : string) : Prop :=
  exists before after, s = before +:+ p +:+ after.

Fixpoint all_chars (f : ascii -> bool) (s : string) : bool :=
  match s with
  | EmptyString => true
  | String c r => f c && all_chars f r
  end.

(** The characters a token of the count extractor is made of. *)
Definition token_char (c : ascii) : bool := is_lower c || Ascii.eqb c "-".

End Substring.

(** ** The cascade, read off the history *)

Module CascadeSpec.

Definition is_ghost (e : Event) : bool :=
  match e with
  | ETry _ | EDone _ | EFail _ _ => true
  | _ => false
  end.

(** The strategy markers of a history. *)
Definition ghost (l : list Event) : list Event := List.filter is_ghost l.

(** The strategies entered, in the order they were entered. *)
Definition tries (l : list Event) : list Strategy :=
  flat_map (fun e => match e with ETry s => [s] | _ => [] end) l.

Definition strategy_eqb (a b : Strategy) : bool :=
  match a, b with
  | DirectApply, DirectApply
  | NewFileShortCircuit, NewFileShortCircuit
  | RewriteForExistingFile, RewriteForExistingFile
  | ThreeWayMerge, ThreeWayMerge
  | Regeneration, Regeneration
  | MissingFileCreation, MissingFileCreation
  | WholeFileReplace, WholeFileReplace => true
  | _, _ => false
  end.

(** [xs] is [ys] with some elements left out. *)
Fixpoint subseq (xs ys : list Strategy) : bool :=
  match xs, ys with
  | [], _ => true
  | _ :: _, [] => false
  | x :: xs', y :: ys' =>
      if strategy_eqb x y then subseq xs' ys' else subseq xs ys'
  end.

(** The order of the specification, strategies 1 to 6. *)
Definition spec_order : list Strategy :=
  [ DirectApply; NewFileShortCircuit; ThreeWayMerge; Regeneration;
    MissingFileCreation; WholeFileReplace ].

(** The order of the code. *)
Definition code_order : list Strategy :=
  [ NewFileShortCircuit; MissingFileCreation; DirectApply;
    RewriteForExistingFile; ThreeWayMerge; Regeneration;
    MissingFileCreation; WholeFileReplace ].

(** A strategy is entered only after the one before it failed, and nothing
    follows a success: the markers are pairs [ETry s; EFail s _] followed
    by nothing, by [ETry s] alone (an error escaped the strategy) or by
    [ETry s; EDone s]. *)
Fixpoint stops_at_first_success (g : list Event) : bool :=
  match g with
  | [] => true
  | [ETry _] => true
  | ETry s :: EDone s' :: rest =>
      strategy_eqb s s' && match rest with [] => true | _ => false end
  | ETry s :: EFail s' _ :: rest =>
      strategy_eqb s s' && stops_at_first_success rest
  | _ => false
  end.

Definition succeeded (g : list Event) : bool :=
  match last g with
  | Some (EDone _) => true
  | _ => false
  end.

(** Every strategy failed: the last marker is the failure of the last
    strategy. *)
Definition exhausted (g : list Event) : bool :=
  match last g with
  | Some (EFail WholeFileReplace _) => true
  | _ => false
  end.

(** The claim as the specification words it: the strategies are entered
    in the order 1 to 6, the direct application first. *)
Definition follows_spec_order (l : list Event) : bool :=
  subseq (tries l) spec_order
  && match tries l with
     | [] => true
     | first :: _ => strategy_eqb first DirectApply
     end.

End CascadeSpec.

(** ** What a computation adds to the history *)

Module Effects.

(** Every event that [m] adds to the history satisfies [P]. *)
Definition emits (P : Event -> bool) {A} (m : M A) : Prop :=
  forall w, exists l,
    history (snd (m w)) = history w ++ l /\ forallb P l = true.

Definition is_log (e : Event) : bool :=
  match e with ELog _ => true | _ => false end.

Definition is_unlink (e : Event) : bool :=
  match e with EUnlink _ => true | _ => false end.

(** Git leaves the file at [path] as it is. *)
Definition git_keeps (env : Env) (path : string) : Prop :=
  forall t cwd args,
    files (snd (git_exec env t cwd args)) !! path = files t !! path.

End Effects.

(** ** Reasoning about the cascade block by block *)

Module Blocks.

Import Ext CascadeSpec Effects.

(** What the helpers of the cascade add to the history: neither markers
    nor deletions. *)
Definition helper_event (e : Event) : bool :=
  negb (is_ghost e) && negb (is_unlink e).

Definition no_unlink (l : list Event) : bool :=
  forallb (fun e => negb (is_unlink e)) l.

(** Markers of strategies that all failed. *)
Fixpoint failures (g : list Event) : bool :=
  match g with
  | [] => true
  | ETry s :: EFail s' _ :: rest => strategy_eqb s s' && failures rest
  | _ => false
  end.

(** [message] is what [runGit] throws when [git args] fails. *)
Definition git_failure (args : list string) (message : string) : Prop :=
  exists stderr,
    message = "Git command failed: git " +:+ join " " args +:+ nl +:+ stderr.

(** What a block of the cascade guarantees about the run [rw] it makes
    from [w]. [order] is the part of the code order the block covers,
    [final] what is known of the error of an exhausted cascade, [pp] the
    path of the patch artifact. *)
Definition block_post (env : Env) (pp : string) (order : list Strategy)
    (final : list Event -> string -> Prop) (w : World)
    (rw : Res unit * World) : Prop :=
  exists l,
    history (snd rw) = history w ++ l /\
    ghost l <> [] /\
    stops_at_first_success (ghost l) = true /\
    subseq (tries l) order = true /\
    ((fst rw = Ok tt) <-> (succeeded (ghost l) = true)) /\
    (fst rw = Ok tt -> (files (fs (snd rw)) !! pp) = None) /\
    (fst rw <> Ok tt -> no_unlink l = true) /\
    (fst rw <> Ok tt -> git_keeps env pp -> is_Some (files (fs w) !! pp) ->
     is_Some (files (fs (snd rw)) !! pp)) /\
    (exhausted (ghost l) = true ->
     exists message, fst rw = Err message /\ final l message).

(** A postcondition read through what follows a result: [kOk] after a
    value, [kErr] after an error. *)
Definition on_result {A B} (kOk : A -> World -> Res B * World)
    (kErr : string -> World -> Res B * World)
    (Post : Res B * World -> Prop) (rw : Res A * World) : Prop :=
  Post (match rw with
        | (Ok a, w1) => kOk a w1
        | (Err e, w1) => kErr e w1
        end).

(** The arguments of the three git commands of the cascade. *)
Definition checkArgs (pp : string) : list string := ["apply"; "--check"; pp]%string.

Definition applyArgs (pp : string) : list string :=
  ["apply"; "--whitespace=fix"; pp]%string.

Definition threeWayArgs (pp : string) : list string :=
  ["apply"; "--3way"; "--whitespace=fix"; pp]%string.

(** The error of an exhausted cascade: [message] names the artifact and
    carries the error of the direct application and the error of the
    three-way merge, both found in the history [l]. *)
Definition terminal (pp : string) (l : list Event) (message : string) : Prop :=
  exists details twd,
    message = invalidPatchMessage pp details twd /\
    In (EFail DirectApply details) l /\
    In (EFail ThreeWayMerge twd) l /\
    (git_failure (checkArgs pp) details \/ git_failure (applyArgs pp) details) /\
    git_failure (threeWayArgs pp) twd.

(** The code order from the direct application on. *)
Definition direct_order : list Strategy :=
  [DirectApply; RewriteForExistingFile; ThreeWayMerge; Regeneration;
   MissingFileCreation; WholeFileReplace].

(** What a whole run [rw] of [applyPatchFromClaude] from [w] guarantees.
    Either no strategy was entered, or the artifact at [pp] was written
    before the first one and the cascade ran as [block_post] says. *)
Definition cascade_post (env : Env) (pp : string) (w : World)
    (rw : Res unit * World) : Prop :=
  exists l,
    history (snd rw) = history w ++ l /\
    stops_at_first_success (ghost l) = true /\
    subseq (tries l) code_order = true /\
    (succeeded (ghost l) = true -> fst rw = Ok tt) /\
    (ghost l <> [] -> fst rw = Ok tt -> succeeded (ghost l) = true) /\
    (ghost l <> [] ->
     exists l1 np l2, l = l1 ++ EWriteFile pp np :: l2 /\ ghost l1 = []) /\
    (succeeded (ghost l) = true -> files (fs (snd rw)) !! pp = None) /\
    (exhausted (ghost l) = true ->
     exists message,
       fst rw = Err message /\ terminal pp l message /\
       no_unlink l = true /\
       (git_keeps env pp -> is_Some (files (fs (snd rw)) !! pp))).

End Blocks.

(** ** Runs of the application step inside the pipeline *)

Module RunSpec.

Import Patch Claude Ext.

(** The world after [logStep message]. *)
Definition logged (message : string) (w : World) : World :=
  mkWorld (fs w) (history w ++ [ELog message]).

(** The line that announces step [i] of [total]. *)
Definition announcement (i total : nat) : string :=
  "Calling Claude (" +:+ string_of_nat i +:+ "/" +:+ string_of_nat total +:+ ")".

(** From [w] the service answers the patch request, and what is left of
    the answer after normalisation is blank; [w2] is the world then. *)
Definition empty_response (env : Env)
    (apiKey model prompt contextText repoRoot : string) (w w2 : World) : Prop :=
  exists patch w1 normalizedPatch,
    generatePatchWithClaude env apiKey model prompt contextText w = (Ok patch, w1) /\
    normalizePatchForNewFile env
      (ensureTrailingNewline (ensureDiffGitHeader patch)) repoRoot w1
    = (Ok normalizedPatch, w2) /\
    is_empty (trim normalizedPatch) = true.

End RunSpec.

(** ** Plan execution *)

Module PlanSpec.

Import Patch Claude Git Ext Effects RunSpec.

Section Run.

Variable env : Env.
Variables apiKey model prompt repoRoot : string.
Variable total : nat.

(** Step [i + 1] of the plan, announced and applied with the context
    [contextText]. *)
Definition run_step (i : nat) (step : ClaudePlanStep) (contextText : string)
    : M unit := fun w =>
  applyPatchFromClaude env apiKey model
    (buildStepPrompt prompt (title step) (instruction step) (i + 1) total)
    contextText repoRoot ("step-" +:+ string_of_nat (i + 1)) true
    (logged (announcement (i + 1) total) w).

(** The context for the next step, as the loop asks for it once the step
    has returned. *)
Definition refresh : M string := fun w1 =>
  buildContext env repoRoot (logged "Refreshing context after step" w1).

(** What git answers when it is asked for the tracked files of the tree
    [t], and the tree it leaves. *)
Definition ls_files (t : FS) : Res string * FS :=
  git_exec env t repoRoot ["ls-files"]%string.

(** The names git lists for the tree [t], the first 200 of them; none when
    git fails. *)
Definition tracked (t : FS) : list string :=
  match fst (ls_files t) with
  | Ok out =>
      take 200 (List.filter (fun name => negb (is_empty name))
                  (split_char LF (trim out)))
  | Err _ => []
  end.

(** What [readTextFile] gives [buildContext] for the file [name] of the
    tree [t], [None] when the file is missing or empty. *)
Definition read_section (t : FS) (name : string) : option string :=
  nonblank (match files t !! path_join env repoRoot name with
            | Some c =>
                if Z.of_nat (String.length c) <=? 4000 then Some c
                else Some (slice0 4000 c +:+ nl +:+
                           "...truncated...")
            | None => None
            end).

(** What a context says of the file [name] of the tree [t]: nothing when
    the file is missing or empty, else a heading and the first 4000
    characters of the file. *)
Definition key_file (t : FS) (name : string) : string :=
  match files t !! path_join env repoRoot name with
  | Some content =>
      if is_empty content then EmptyString
      else nl +:+ nl +:+ name +:+ ":" +:+ nl +:+
           (if (String.length content <=? 4000)%nat then content
            else slice_to 4000 content +:+ nl +:+ "...truncated...")
  | None => EmptyString
  end.

(** The repository context rebuilt from the tree [t]: the tracked files of
    [t], then [README.md] and [package.json] as they are in the tree. *)
Definition rebuilt_context (t : FS) : string :=
  "Tracked files (first 200):" +:+ nl +:+
  match tracked t with
  | [] => "(no files)"
  | names => join nl names
  end +:+
  key_file (snd (ls_files t)) "README.md" +:+
  key_file (snd (ls_files t)) "package.json".

(** The world in which the next step starts: the refresh is logged and git
    has been asked once. *)
Definition refreshed (w1 : World) : World :=
  mkWorld (snd (ls_files (fs w1)))
          (history w1 ++ [ELog "Refreshing context after step";
                          EGit ["ls-files"]%string]).

(** The steps from number [i + 1] on are run one after the other; the
    first step gets the context [contextText], every later one the context
    rebuilt from the tree that the step before it left; the first error
    ends the run in the world in which it was raised. *)
Inductive plan_run :
    nat -> list ClaudePlanStep -> string -> World -> Res unit * World -> Prop :=
| plan_done i contextText w :
    plan_run i [] contextText w (Ok tt, w)
| plan_step_fails i step rest contextText w error w1 :
    run_step i step contextText w = (Err error, w1) ->
    plan_run i (step :: rest) contextText w (Err error, w1)
| plan_step_passes i step rest contextText w w1 rw :
    run_step i step contextText w = (Ok tt, w1) ->
    plan_run (S i) rest (rebuilt_context (fs w1)) (refreshed w1) rw ->
    plan_run i (step :: rest) contextText w rw.

End Run.

(** The step announcements of a history, in order. *)
Definition announcements (l : list Event) : list string :=
  flat_map (fun e =>
              match e with
              | ELog message =>
                  if startsWith "Calling Claude (" message then [message] else []
              | _ => []
              end) l.

(** The announcements of the [j] steps that follow step [i]. *)
Definition expected_announcements (total i j : nat) : list string :=
  map (fun k => announcement (i + k + 1) total) (seq 0 j).

Definition not_log (e : Event) : bool := negb (is_log e).

(** The request for a patch, as [generatePatchWithClaude] sends it for a
    prompt and a context. *)
Definition patch_request (model prompt context : string) : Event :=
  EApi model
    ("Return ONLY a unified diff patch that can be applied with git apply. " +:+
     "Do not include explanations, markdown, or code fences. " +:+
     "If no changes are needed, return an empty response.")
    ("Prompt:" +:+ nl +:+ prompt +:+ nl +:+ nl +:+
     "Context:" +:+ nl +:+ truncate context 12000 +:+ nl +:+ nl +:+
     "Output:").

(** The requests for a patch of a history, in order. *)
Definition patch_requests (l : list Event) : list Event :=
  List.filter (fun e =>
                 match e with
                 | EApi _ system _ =>
                     startsWith "Return ONLY a unified diff" system
                 | _ => false
                 end) l.

(** The history [l] is made of one part for each of [steps], in their
    order: the announcement of the step, the request for a patch made with
    the prompt of that step, and events that announce nothing. *)
Fixpoint steps_trace (model prompt : string) (total i : nat)
    (steps : list ClaudePlanStep) (l : list Event) : Prop :=
  match steps with
  | [] => l = []
  | step :: rest =>
      exists contextText events later,
        l = ELog (announcement (i + 1) total)
            :: patch_request model
                 (buildStepPrompt prompt (title step) (instruction step)
                    (i + 1) total) contextText
            :: events ++ later /\
        announcements events = [] /\
        steps_trace model prompt total (S i) rest later
  end.

End PlanSpec.

(** ** Repository names *)

Module SlugSpec.

Import Setup.

(** A name without a slash. *)
Definition slash_free (s : string) : Prop := segment s = String.length s.

(** A non-empty name without a slash: an owner or a repository. *)
Definition name_part (s : string) : Prop := s <> EmptyString /\ slash_free s.

End SlugSpec.

(** ** Collaborators for the git helpers *)

Module GitScenario.

Import Scenario.

(** Git prints [out] whatever it is asked, and leaves the tree alone. *)
Definition git_prints (out : string) (t : FS) (args : list string)
    : Res string * FS :=
  (Ok out, t).

Definition envPrints (out : string) : Env :=
  scripted blank blank blank (git_prints out) no_steps.

(** Git fails whatever it is asked. *)
Definition envNoGit : Env :=
  scripted blank blank blank git_rejects no_steps.

Definition not_LF (c : ascii) : bool := negb (Ascii.eqb c LF).

End GitScenario.

(** ** A plan that goes through *)

Module PlanScenario.

Import Scenario.

(** Git as it is in a repository whose only tracked file is [a.txt]: it
    lists that file, and rejects every patch. *)
Definition git_lists (t : FS) (args : list string) : Res string * FS :=
  match args with
  | ["ls-files"]%string => (Ok ("a.txt" +:+ nl), t)
  | _ => (Err "error: patch does not apply", t)
  end.

(** A patch that creates [README.md]. *)
Definition readmeDiff : string :=
  "diff --git a/README.md b/README.md" +:+ nl +:+
  "new file mode 100644" +:+ nl +:+
  "--- /dev/null" +:+ nl +:+
  "+++ b/README.md" +:+ nl +:+
  "@@ -0,0 +1 @@" +:+ nl +:+
  "+# Demo".

(** A three-step plan: the first step creates [README.md], the second gets
    the stale patch, the third would edit the tracked file. *)
Definition readmeSteps : list (string * string) :=
  [ ("Create README.md", "Add the file README.md");
    ("Trim x.txt", "Remove the first line of x.txt");
    ("Edit a.txt", "Replace old by new in a.txt") ]%string.

Definition readmePatches (user : string) : Res string :=
  if includes "Step 1 of 3" user then Ok readmeDiff
  else if includes "Step 2 of 3" user then Ok staleDiff
  else if includes "Step 3 of 3" user then Ok editDiff
  else Ok EmptyString.

Definition envReadme : Env :=
  scripted readmePatches (fun _ => Ok "[...]") blank git_lists
           (fun _ => Some readmeSteps).

(** The context of the tree at the start. *)
Definition startContext : string :=
  "Tracked files (first 200):" +:+ nl +:+ "a.txt".

(** Git lists [a.txt], accepts every patch, and applies one by writing the
    new line to [a.txt]. *)
Definition git_applies (t : FS) (args : list string) : Res string * FS :=
  match args with
  | ["ls-files"]%string => (Ok ("a.txt" +:+ nl), t)
  | ["apply"; "--check"; _]%string => (Ok EmptyString, t)
  | ["apply"; "--whitespace=fix"; _]%string =>
      (Ok EmptyString,
       mkFS (<["/repo/a.txt"%string := "new" +:+ nl]> (files t)) (dirs t))
  | _ => (Err "error: patch does not apply", t)
  end.

(** A three-step plan that goes through: two files are created and the
    tracked file is edited. *)
Definition passingSteps : list (string * string) :=
  [ ("Create new.txt", "Add the file new.txt");
    ("Create README.md", "Add the file README.md");
    ("Edit a.txt", "Replace old by new in a.txt") ]%string.

Definition passingPatches (user : string) : Res string :=
  if includes "Step 1 of 3" user then Ok newFileDiff
  else if includes "Step 2 of 3" user then Ok readmeDiff
  else if includes "Step 3 of 3" user then Ok editDiff
  else Ok EmptyString.

Definition envPassing : Env :=
  scripted passingPatches (fun _ => Ok "[...]") blank git_applies
           (fun _ => Some passingSteps).

End PlanScenario.

(** ** New-file patches *)

Module NewFileSpec.

Import NormalizeSpec.

(** The patch that creates [path] with the lines [content]; [hunk] is its
    hunk header. *)
Definition newFilePatch (path hunk : string) (content : list string) : string :=
  join nl
    ([ "diff --git a/" +:+ path +:+ " b/" +:+ path;
       "new file mode 100644"%string;
       "--- /dev/null"%string;
       "+++ b/" +:+ path;
       hunk ]
     ++ map (fun line => "+" +:+ line) content).

(** A line of content that the extraction gives back: one line, which does
    not start with two plus signs. *)
Definition plain_line (line : string) : Prop :=
  clean line = true /\ startsWith "++" line = false.

End NewFileSpec.

(** ** What a step that fails leaves behind *)

Module FailureSpec.

Import Effects Blocks.

(** The run [rw] from [w] has deleted nothing, unless it returned
    normally. *)
Definition deletes_only_on_success (w : World) (rw : Res unit * World) : Prop :=
  forall l, history (snd rw) = history w ++ l ->
            fst rw <> Ok tt -> no_unlink l = true.

End FailureSpec.

(** ** Edit distance *)

Module EditSpec.

(** What it costs to put [y] where [x] is. *)
Definition subst_cost (x y : ascii) : nat := if Ascii.eqb x y then O else 1%nat.

(** The edit distance of two texts, by recursion on their last
    characters: both texts are given last character first. A text is
    turned into the empty text by deleting its characters; otherwise the
    last character of the first text is deleted, or the last character of
    the second is inserted, or one is put in place of the other. *)
Fixpoint edit (x y : list ascii) {struct x} : nat :=
  match x with
  | [] => List.length y
  | a :: x' =>
      (fix go (y : list ascii) : nat :=
         match y with
         | [] => S (List.length x')
         | b :: y' =>
             Nat.min (Nat.min (edit x' (b :: y') + 1) (go y' + 1))
                     (edit x' y' + subst_cost a b)
         end) y
  end.

Definition distance (a b : string) : nat :=
  edit (rev (list_ascii_of_string a)) (rev (list_ascii_of_string b)).

(** The row of the table for the part [x] of the first text: the distance
    of [x] to every prefix of [b]. *)
Definition row (b : list ascii) (x : list ascii) : list nat :=
  map (fun j => edit x (rev (take j b))) (seq 0 (S (List.length b))).

End EditSpec.

(** ** The git commands of a step *)

Module GitCallSpec.

Import Blocks.

(** [e] is not a call of git, or it is one of the three [git apply]
    commands on the artifact [pp]. *)
Definition apply_call (pp : string) (e : Event) : bool :=
  match e with
  | EGit args =>
      bool_decide (args = checkArgs pp)
      || bool_decide (args = applyArgs pp)
      || bool_decide (args = threeWayArgs pp)
  | _ => true
  end.

End GitCallSpec.

(** * Properties *)

(** ** Facts about the string primitives *)

Module StringFacts.

Import NormalizeSpec.

Lemma is_empty_true s : is_empty s = true -> s = EmptyString.
Proof. destruct s; [reflexivity | discriminate]. Qed.

Lemma startsWith_app pre s t :
  startsWith pre s = true -> startsWith pre (s +:+ t) = true.
Proof.
  revert s; induction pre as [|a p IH]; intros s H; [reflexivity|].
  destruct s as [|b r]; [discriminate|]. simpl in *.
  apply andb_true_iff in H as [Hab Hp]. rewrite Hab. now apply IH.
Qed.

Lemma includes_of_startsWith needle s :
  startsWith needle s = true -> includes needle s = true.
Proof. intros H. destruct s; cbn [includes]; rewrite H; reflexivity. Qed.

Lemma includes_app needle s t :
  includes needle s = true -> includes needle (s +:+ t) = true.
Proof.
  induction s as [|c r IH]; simpl; intros H.
  - rewrite orb_false_r in H. destruct needle; [|discriminate].
    destruct t; reflexivity.
  - apply orb_true_iff in H as [H|H].
    + change (String c (r +:+ t)) with (String c r +:+ t).
      rewrite (startsWith_app _ _ _ H). reflexivity.
    + rewrite (IH H). apply orb_true_r.
Qed.

Lemma includes_cons needle c s :
  includes needle s = true -> includes needle (String c s) = true.
Proof. intros H. cbn [includes]. rewrite H. apply orb_true_r. Qed.

Lemma includes_prepend needle t s :
  includes needle s = true -> includes needle (t +:+ s) = true.
Proof.
  intros H. induction t as [|c r IH]; [assumption|].
  change (String c r +:+ s) with (String c (r +:+ s)). now apply includes_cons.
Qed.

Lemma startsWith_app_nl pre s :
  clean pre = true -> startsWith pre (s +:+ nl) = startsWith pre s.
Proof.
  revert s; induction pre as [|a p IH]; intros s Hc; [reflexivity|].
  cbn [clean] in Hc. apply andb_true_iff in Hc as [Ha Hp].
  apply andb_true_iff in Ha as [Hlf _].
  destruct s as [|b r]; simpl.
  - apply negb_true_iff in Hlf. now rewrite Hlf.
  - now rewrite IH.
Qed.

Lemma includes_app_nl needle s :
  clean needle = true -> is_empty needle = false ->
  includes needle (s +:+ nl) = includes needle s.
Proof.
  intros Hc Hne. induction s as [|c r IH].
  - destruct needle as [|a p]; [discriminate|].
    pose proof (startsWith_app_nl (String a p) EmptyString Hc) as H.
    simpl in *. rewrite H. reflexivity.
  - pose proof (startsWith_app_nl needle (String c r) Hc) as H.
    change (String c r +:+ nl) with (String c (r +:+ nl)) in *.
    cbn [includes]. now rewrite IH, H.
Qed.

(** A clean pattern cannot start at a line terminator. *)
Lemma startsWith_clean_head a p c r :
  clean (String a p) = true -> is_lt c = true ->
  startsWith (String a p) (String c r) = false.
Proof.
  cbn [clean startsWith]. intros Hc Hlt.
  apply andb_true_iff in Hc as [Ha _]. apply andb_true_iff in Ha as [H1 H2].
  apply negb_true_iff in H1, H2.
  destruct (Ascii.eqb_spec a c) as [->|]; [|reflexivity].
  unfold is_lt in Hlt. apply orb_true_iff in Hlt as [H|H];
    apply N.eqb_eq in H; unfold code in H.
  - assert (c = LF) as -> by (rewrite <- (ascii_N_embedding c), H; reflexivity).
    rewrite Ascii.eqb_refl in H1. discriminate.
  - assert (c = CR) as -> by (rewrite <- (ascii_N_embedding c), H; reflexivity).
    rewrite Ascii.eqb_refl in H2. discriminate.
Qed.

(** The lines of a text: the first one starts as the text does, and the
    others start where the text has a LF. *)
Lemma lines_shape s :
  exists l ls, lines s = l :: ls /\
    (forall pre, clean pre = true -> startsWith pre l = startsWith pre s) /\
    (forall pre, clean pre = true -> is_empty pre = false ->
       existsb (startsWith pre) ls = tail_starts pre s).
Proof.
  induction s as [|c r (l & ls & Hl & Hhead & Htail)].
  - exists EmptyString, []. cbn. auto.
  - cbn [lines]. destruct (Ascii.eqb_spec c LF) as [->|Hlf].
    + exists EmptyString, (l :: ls). rewrite Hl. split; [reflexivity|]. split.
      * intros [|a p] Hc; [reflexivity|].
        rewrite startsWith_clean_head; auto.
      * intros pre Hc Hne. cbn [existsb tail_starts].
        rewrite Hhead, Htail by assumption. reflexivity.
    + destruct (Ascii.eqb c CR && startsWith nl r) eqn:Hcr.
      * apply andb_true_iff in Hcr as [Hc1 Hc2].
        apply Ascii.eqb_eq in Hc1 as ->.
        exists l, ls. split; [assumption|]. split.
        -- intros [|a p] Hc; [reflexivity|].
           rewrite Hhead by assumption.
           destruct r as [|d r']; [discriminate|].
           unfold nl in Hc2. cbn [startsWith] in Hc2.
           rewrite andb_true_r in Hc2. apply Ascii.eqb_eq in Hc2 as <-.
           rewrite !startsWith_clean_head; auto.
        -- intros pre Hc Hne. cbn [tail_starts].
           rewrite Htail by assumption. reflexivity.
      * rewrite Hl. exists (String c l), ls. split; [reflexivity|]. split.
        -- intros [|a p] Hc; [reflexivity|]. cbn [startsWith].
           cbn [clean] in Hc. apply andb_true_iff in Hc as [_ Hp].
           now rewrite Hhead.
        -- intros pre Hc Hne. cbn [tail_starts].
           rewrite Htail by assumption.
           destruct (Ascii.eqb_spec c LF); [contradiction|]. reflexivity.
Qed.

Lemma lines_not_nil s : lines s <> [].
Proof. destruct (lines_shape s) as (l & ls & -> & _). discriminate. Qed.

Lemma existsb_lines pre s :
  clean pre = true -> is_empty pre = false ->
  existsb (startsWith pre) (lines s) = startsWith pre s || tail_starts pre s.
Proof.
  intros Hc Hne. destruct (lines_shape s) as (l & ls & -> & Hh & Ht).
  cbn [existsb]. now rewrite Hh, Ht.
Qed.

Lemma tail_starts_app_nl pre s :
  clean pre = true -> is_empty pre = false ->
  tail_starts pre (s +:+ nl) = tail_starts pre s.
Proof.
  intros Hc Hne. induction s as [|c r IH].
  - cbn. destruct pre; [discriminate|]. reflexivity.
  - change (String c r +:+ nl) with (String c (r +:+ nl)).
    cbn [tail_starts]. now rewrite IH, startsWith_app_nl.
Qed.

Lemma findIndex_neg {A} (p : A -> bool) xs :
  (findIndex p xs <? 0) = negb (existsb p xs).
Proof.
  induction xs as [|x rest IH]; cbn; [reflexivity|].
  destruct (p x); [reflexivity|]. cbn.
  destruct (findIndex p rest <? 0) eqn:E.
  - rewrite <- IH. reflexivity.
  - rewrite <- IH. apply Z.ltb_ge in E. apply Z.ltb_ge. lia.
Qed.

(** [findIndex] and [find] agree on the first element that qualifies. *)
Lemma findIndex_find (p : string -> bool) xs x :
  find p xs = Some x ->
  (findIndex p xs <? 0) = false /\ at_index xs (findIndex p xs) = x.
Proof.
  unfold at_index. induction xs as [|y rest IH]; cbn [find findIndex]; [discriminate|].
  destruct (p y) eqn:E.
  - intros [= ->]. split; reflexivity.
  - intros H. destruct (IH H) as [Hneg Hat]. rewrite Hneg.
    apply Z.ltb_ge in Hneg. split; [apply Z.ltb_ge; lia|].
    rewrite Z2Nat.inj_add by lia. rewrite Nat.add_comm. exact Hat.
Qed.

Lemma missing_marker_app_nl pre s :
  clean pre = true -> is_empty pre = false ->
  (findIndex (startsWith pre) (lines (s +:+ nl)) <? 0)
  = (findIndex (startsWith pre) (lines s) <? 0).
Proof.
  intros Hc Hne. rewrite !findIndex_neg, !existsb_lines by assumption.
  now rewrite startsWith_app_nl, tail_starts_app_nl.
Qed.

Lemma endsWithChar_app_nl s : endsWithChar LF (s +:+ nl) = true.
Proof.
  induction s as [|c r IH]; [reflexivity|].
  change (String c r +:+ nl) with (String c (r +:+ nl)).
  cbn [endsWithChar]. destruct (r +:+ nl) eqn:E; [|assumption].
  destruct r; discriminate.
Qed.

Lemma startsWith_join_head pre h rest :
  startsWith pre h = true -> startsWith pre (join nl (h :: rest)) = true.
Proof.
  intros H. destruct rest; cbn [join]; [assumption|].
  now apply startsWith_app.
Qed.

End StringFacts.

(** ** Patch normaliser *)

Module NormalizeProofs.

Import Patch NormalizeSpec StringFacts.

Lemma ensureTrailingNewline_cases p :
  ensureTrailingNewline p = p \/
  (ensureTrailingNewline p = p +:+ nl /\ is_empty p = false).
Proof.
  unfold ensureTrailingNewline. destruct (is_empty p) eqn:E; [now left|].
  destruct (endsWithChar LF p); [now left | now right].
Qed.

Lemma ensureTrailingNewline_idem p :
  ensureTrailingNewline (ensureTrailingNewline p) = ensureTrailingNewline p.
Proof.
  destruct (ensureTrailingNewline_cases p) as [H|[H Hne]];
    rewrite H; [exact H|].
  unfold ensureTrailingNewline. rewrite endsWithChar_app_nl.
  destruct (is_empty (p +:+ nl)); reflexivity.
Qed.

(** Either the result has a header line (its own or a synthesised one), or
    the patch is returned as it is for want of a marker line. *)
Lemma ensureDiffGitHeader_cases p :
  includes gitHeader (ensureDiffGitHeader p) = true \/
  (ensureDiffGitHeader p = p /\ includes gitHeader p = false /\
   (findIndex (startsWith "--- ") (lines p) <? 0)
   || (findIndex (startsWith "+++ ") (lines p) <? 0) = true).
Proof.
  unfold ensureDiffGitHeader. fold gitHeader.
  destruct (includes gitHeader p) eqn:Hin; [now left|].
  destruct ((findIndex (startsWith "--- ") (lines p) <? 0)
            || (findIndex (startsWith "+++ ") (lines p) <? 0)) eqn:Hidx.
  - right. auto.
  - left. apply includes_of_startsWith.
    cbn [app]. apply startsWith_join_head. reflexivity.
Qed.

Lemma ensureDiffGitHeader_fix p :
  ensureDiffGitHeader (normalize p) = normalize p.
Proof.
  unfold normalize.
  destruct (ensureDiffGitHeader_cases p) as [Hin|(Heq & Hin & Hidx)].
  - unfold ensureDiffGitHeader at 1. fold gitHeader.
    replace (includes gitHeader (ensureTrailingNewline (ensureDiffGitHeader p)))
      with true; [reflexivity|].
    symmetry.
    destruct (ensureTrailingNewline_cases (ensureDiffGitHeader p)) as [H|[H _]];
      rewrite H; [assumption | now apply includes_app].
  - rewrite Heq.
    destruct (ensureTrailingNewline_cases p) as [H|[H Hne]];
      rewrite H; [assumption|].
    unfold ensureDiffGitHeader. fold gitHeader.
    rewrite includes_app_nl, Hin by reflexivity.
    rewrite !missing_marker_app_nl, Hidx by reflexivity. reflexivity.
Qed.

Lemma normalize_idem p : normalize (normalize p) = normalize p.
Proof.
  unfold normalize at 1. rewrite ensureDiffGitHeader_fix.
  apply ensureTrailingNewline_idem.
Qed.

(** The header synthesised for a patch on [x.txt]. *)
Lemma synthesized_header p :
  includes gitHeader p = false ->
  first_line "--- " p = Some "--- a/x.txt"%string ->
  first_line "+++ " p = Some "+++ b/x.txt"%string ->
  ensureDiffGitHeader p
  = "diff --git a/x.txt b/x.txt" +:+ nl +:+ join nl (lines p).
Proof.
  unfold first_line. intros Hin Hold Hnew.
  destruct (findIndex_find _ _ _ Hold) as [Ho1 Ho2].
  destruct (findIndex_find _ _ _ Hnew) as [Hn1 Hn2].
  unfold ensureDiffGitHeader. fold gitHeader.
  rewrite Hin, Ho1, Hn1, Ho2, Hn2. cbn [orb].
  destruct (lines p) as [|l ls] eqn:E; [now apply lines_not_nil in E|].
  reflexivity.
Qed.

(** C9. Patch normalisation, header synthesis followed by trailing-newline
    normalisation, is idempotent on every patch string; and a patch without
    a [diff --git] line whose first [--- ] and [+++ ] lines are
    [--- a/x.txt] and [+++ b/x.txt] comes out as the line
    [diff --git a/x.txt b/x.txt] followed by its own lines. *)
Theorem normalization_idempotent_and_header :
  (forall p, normalize (normalize p) = normalize p) /\
  (forall p,
     includes "diff --git " p = false ->
     first_line "--- " p = Some "--- a/x.txt"%string ->
     first_line "+++ " p = Some "+++ b/x.txt"%string ->
     normalize p
     = ensureTrailingNewline
         ("diff --git a/x.txt b/x.txt" +:+ nl +:+ join nl (lines p))).
Proof.
  split; [exact normalize_idem|].
  intros p Hin Hold Hnew. unfold normalize.
  now rewrite synthesized_header.
Qed.

(** The theorem at the patch of the specification's example. *)
Lemma normalization_witness :
  let p := "--- a/x.txt" +:+ nl +:+ "+++ b/x.txt" +:+ nl +:+
           "@@ -1 +1 @@" +:+ nl +:+ "-a" +:+ nl +:+ "+b" in
  normalize (normalize p) = normalize p /\
  normalize p
  = "diff --git a/x.txt b/x.txt" +:+ nl +:+ "--- a/x.txt" +:+ nl +:+
    "+++ b/x.txt" +:+ nl +:+ "@@ -1 +1 @@" +:+ nl +:+ "-a" +:+ nl +:+
    "+b" +:+ nl.
Proof.
  intros p. split.
  - apply (proj1 normalization_idempotent_and_header).
  - rewrite (proj2 normalization_idempotent_and_header p);
      [reflexivity | reflexivity | reflexivity | reflexivity].
Defined.

End NormalizeProofs.

(** ** Task sizing classifier *)

Module SizingProofs.

Import Count Sizing SizingSpec.

(** C3. For every prompt and context, [classifyTaskSizing] returns the tier
    of the additive score of the specification's table: TIER_3 from 5 on,
    TIER_2 from 3 on, TIER_1 otherwise. *)
Theorem classify_is_score_table prompt contextText :
  classifyTaskSizing prompt contextText = tier_of (score prompt contextText).
Proof.
  unfold classifyTaskSizing, tier_of, score, length_points, context_points,
    count_points, scope_points, hasScopeSignals, num_ge.
  set (promptLength := Z.of_nat (String.length prompt)).
  set (contextSize := Z.of_nat (String.length contextText)).
  destruct (existsb _ scope_signals);
    destruct (600 <? promptLength); destruct (300 <? promptLength);
    destruct (200000 <? contextSize); destruct (100000 <? contextSize);
    (destruct (extractRequestedCount (toLowerCase prompt)) as [n|];
     [destruct (20 <=? n); destruct (8 <=? n); destruct (4 <=? n) |]);
    reflexivity.
Qed.

(** The classifier examples of the specification. *)
Example small_prompt_is_tier_1 :
  classifyTaskSizing "fix a typo in README" "Tracked files (first 200):" = TIER_1.
Proof. reflexivity. Qed.

End SizingProofs.

(** ** Substrings *)

Module SubstringFacts.

Import Substring StringFacts.

Lemma append_cons x (a b : string) : String x a +:+ b = String x (a +:+ b).
Proof. reflexivity. Qed.

Lemma append_assoc (a b c : string) : (a +:+ b) +:+ c = a +:+ (b +:+ c).
Proof.
  induction a as [|x a IH]; [reflexivity|].
  rewrite !append_cons. f_equal. exact IH.
Qed.

Lemma append_nil_r (a : string) : a +:+ EmptyString = a.
Proof.
  induction a as [|x a IH]; [reflexivity|].
  rewrite append_cons. f_equal. exact IH.
Qed.

Lemma sub_refl s : sub s s.
Proof.
  exists EmptyString, EmptyString.
  change (EmptyString +:+ s +:+ EmptyString) with (s +:+ EmptyString).
  now rewrite append_nil_r.
Qed.

Lemma sub_cons c p s : sub p s -> sub p (String c s).
Proof. intros (a & b & ->). now exists (String c a), b. Qed.

Lemma sub_trans p q s : sub p q -> sub q s -> sub p s.
Proof.
  intros (a & b & ->) (a' & b' & ->).
  exists (a' +:+ a), (b +:+ b'). now rewrite !append_assoc.
Qed.

Lemma sub_prefix p rest : sub p (p +:+ rest).
Proof. now exists EmptyString, rest. Qed.

Lemma includes_refl s : includes s s = true.
Proof.
  apply includes_of_startsWith. induction s as [|c r IH]; simpl; [reflexivity|].
  now rewrite Ascii.eqb_refl.
Qed.

Lemma includes_sub needle p s :
  includes needle p = true -> sub p s -> includes needle s = true.
Proof.
  intros H (a & b & ->). apply includes_prepend. now apply includes_app.
Qed.

Lemma all_chars_app f a b :
  all_chars f (a +:+ b) = all_chars f a && all_chars f b.
Proof.
  induction a as [|x a IH]; [reflexivity|].
  rewrite append_cons. cbn [all_chars]. now rewrite IH, andb_assoc.
Qed.

Lemma all_chars_sub f p s : sub p s -> all_chars f s = true -> all_chars f p = true.
Proof.
  intros (a & b & ->). rewrite !all_chars_app.
  intros H. apply andb_true_iff in H as [_ H].
  now apply andb_true_iff in H as [H _].
Qed.

Lemma all_chars_weaken (f g : ascii -> bool) s :
  (forall c, f c = true -> g c = true) ->
  all_chars f s = true -> all_chars g s = true.
Proof.
  intros Hfg. induction s as [|c r IH]; simpl; [reflexivity|].
  intros H. apply andb_true_iff in H as [H1 H2].
  now rewrite (Hfg _ H1), IH.
Qed.

(** The parts of [split_spaces]: each occurs in the text and has no white
    space; the first one is a prefix when the text starts with none. *)
Lemma split_spaces_shape s :
  exists l ls, split_spaces s = l :: ls /\
    (exists rest, s = l +:+ rest) /\
    all_chars (fun c => negb (is_space c)) l = true /\
    Forall (fun p => sub p s /\ all_chars (fun c => negb (is_space c)) p = true) ls.
Proof.
  induction s as [|c r (l & ls & Hl & (rest & Hrest) & Hcl & Hls)].
  - exists EmptyString, []. repeat split; [now exists EmptyString | constructor].
  - cbn [split_spaces]. destruct (is_space c) eqn:Hc.
    + assert (Hall : Forall (fun p => sub p (String c r) /\
                 all_chars (fun c => negb (is_space c)) p = true) (l :: ls)).
      { constructor.
        - split; [|assumption]. apply sub_cons. rewrite Hrest. apply sub_prefix.
        - eapply Forall_impl; [exact Hls|]. intros p [Hp Hq]. split; [|assumption].
          now apply sub_cons. }
      destruct r as [|d r'].
      * exists EmptyString, (split_spaces EmptyString). rewrite Hl in *.
        repeat split; [now exists (String c EmptyString) | assumption].
      * destruct (is_space d) eqn:Hd.
        -- (* the head of the rest is empty: the run of spaces continues *)
           assert (l = EmptyString) as ->.
           { destruct l as [|x l']; [reflexivity|]. exfalso.
             rewrite append_cons in Hrest. injection Hrest as -> _.
             cbn [all_chars] in Hcl. rewrite Hd in Hcl. discriminate. }
           exists EmptyString, ls. rewrite Hl.
           repeat split; [now exists (String c (String d r')) |].
           now inversion Hall.
        -- exists EmptyString, (split_spaces (String d r')). rewrite Hl in *.
           repeat split; [now exists (String c (String d r')) | assumption].
    + rewrite Hl. exists (String c l), ls. repeat split.
      * exists rest. rewrite append_cons. now rewrite <- Hrest.
      * cbn [all_chars]. now rewrite Hc, Hcl.
      * eapply Forall_impl; [exact Hls|]. intros p [Hp Hq]. split; [|assumption].
        now apply sub_cons.
Qed.

Lemma split_spaces_parts s p :
  In p (split_spaces s) ->
  sub p s /\ all_chars (fun c => negb (is_space c)) p = true.
Proof.
  destruct (split_spaces_shape s) as (l & ls & -> & (rest & Hrest) & Hcl & Hls).
  intros [<-|Hin].
  - split; [|assumption]. rewrite Hrest. apply sub_prefix.
  - rewrite List.Forall_forall in Hls. now apply Hls.
Qed.

(** The first part of [split_char] is a prefix of the text. *)
Lemma split_char_head sep s :
  exists l ls rest, split_char sep s = l :: ls /\ s = l +:+ rest.
Proof.
  induction s as [|c r (l & ls & rest & Hl & Hrest)].
  - now exists EmptyString, [], EmptyString.
  - cbn [split_char]. destruct (Ascii.eqb c sep).
    + now exists EmptyString, (split_char sep r), (String c r).
    + rewrite Hl. exists (String c l), ls, rest. split; [reflexivity|].
      rewrite append_cons. now rewrite <- Hrest.
Qed.

(** A text read through a character map that is the identity on the
    characters of [p]. *)
Lemma map_chars_split f s a b :
  map_chars f s = a +:+ b ->
  exists a' b', s = a' +:+ b' /\ map_chars f a' = a /\ map_chars f b' = b.
Proof.
  revert s. induction a as [|x a IH]; intros s H.
  - now exists EmptyString, s.
  - destruct s as [|c r]; [discriminate|].
    rewrite append_cons in H. cbn [map_chars] in H. injection H as Hx Hr.
    destruct (IH _ Hr) as (a' & b' & -> & Ha & Hb).
    exists (String c a'), b'. cbn [map_chars]. now rewrite Hx, Ha.
Qed.

Lemma map_chars_fixed f g p' p :
  (forall c, g (f c) = true -> f c = c) ->
  map_chars f p' = p -> all_chars g p = true -> p' = p.
Proof.
  intros Hfix. revert p. induction p' as [|c r IH]; intros p H Hg.
  - now subst.
  - cbn [map_chars] in H. subst p. cbn [all_chars] in Hg.
    apply andb_true_iff in Hg as [H1 H2].
    rewrite (Hfix _ H1). f_equal. now apply IH.
Qed.

Lemma sub_map_chars f g p s :
  (forall c, g (f c) = true -> f c = c) ->
  sub p (map_chars f s) -> all_chars g p = true -> sub p s.
Proof.
  intros Hfix (a & b & H) Hg.
  destruct (map_chars_split _ _ _ _ H) as (a' & pb & -> & Ha & Hpb).
  destruct (map_chars_split _ _ _ _ Hpb) as (p' & b' & -> & Hp & Hb).
  rewrite (map_chars_fixed f g p' p Hfix Hp Hg). now exists a', b'.
Qed.

Lemma all_chars_map_chars f g s :
  (forall c, g (f c) = true) -> all_chars g (map_chars f s) = true.
Proof.
  intros H. induction s as [|c r IH]; simpl; [reflexivity|]. now rewrite H, IH.
Qed.

End SubstringFacts.

(** ** Count extractor *)

Module CountProofs.

Import Count CountSpec Substring SubstringFacts StringFacts.

(** The loop body folds the value of the token into the running maximum. *)
Lemma count_step_spec words m i :
  count_step words m i
  = match token_value words i with
    | Some v => Math_max m v
    | None => m
    end.
Proof.
  unfold count_step, token_value, compound_value.
  fold (word_value (nth i words EmptyString)).
  set (value := word_value (nth i words EmptyString)).
  assert (Hword :
    (if truthy value
     then Math_max m
            match value with
            | VNum v =>
                if (20 <=? v) && (v mod 10 =? 0)
                   && (i + 1 <? List.length words)%nat
                then
                  if truthy (map_get (nth (i + 1) words EmptyString))
                     && val_lt (map_get (nth (i + 1) words EmptyString)) 10
                  then val_add value (map_get (nth (i + 1) words EmptyString))
                  else Num v
                else Num v
            | _ => to_number value
            end
     else m)
    = match (if truthy value then Some (with_unit words i value) else None) with
      | Some v => Math_max m v
      | None => m
      end).
  { unfold with_unit. destruct (truthy value); reflexivity. }
  destruct (includes "-" (nth i words EmptyString)); [|exact Hword].
  destruct (split_char "-" (nth i words EmptyString)) as [|first [|second rest]];
    cbn [nth]; rewrite ?andb_false_r; cbn [andb]; try exact Hword.
  destruct (truthy (map_get first) && truthy (map_get second)
            && val_lt (map_get second) 10); [reflexivity | exact Hword].
Qed.

(** Only [constructor] is both inherited and made of token characters. *)
Lemma map_get_obj key :
  map_get key = VObj -> all_chars token_char key = true ->
  key = "constructor"%string.
Proof.
  unfold map_get. destruct (assoc key number_words); [discriminate|].
  destruct (existsb (String.eqb key) object_prototype_keys) eqn:E; [|discriminate].
  intros _ Hc. apply existsb_exists in E as (k & Hin & Hk).
  apply String.eqb_eq in Hk. subst k.
  cbn [object_prototype_keys In] in Hin.
  repeat (destruct Hin as [<-|Hin]; [first [reflexivity | discriminate Hc]|]).
  contradiction.
Qed.

(** The closest number word is a key of the table or the empty string. *)
Lemma closest_fold token keys st :
  In (fst (fold_left (closest_step token) keys st)) (fst st :: keys).
Proof.
  revert st. induction keys as [|k keys IH]; intros st; [now left|].
  cbn [fold_left]. specialize (IH (closest_step token st k)).
  destruct IH as [H|H]; [|right; now right].
  rewrite <- H. unfold closest_step. destruct st as [best d].
  destruct (levenshteinDistance token k <? d)%nat; cbn [fst]; [right|]; now left.
Qed.

Lemma closest_safe token : map_get (findClosestNumberWord token 2) <> VObj.
Proof.
  assert (Hall : forallb (fun k => negb (is_obj (map_get k)))
                   (EmptyString :: map fst number_words) = true) by reflexivity.
  rewrite forallb_forall in Hall.
  assert (Hin : In (findClosestNumberWord token 2)
                   (EmptyString :: map fst number_words)).
  { unfold findClosestNumberWord.
    pose proof (closest_fold token (map fst number_words) (EmptyString, 3%nat)) as H.
    destruct (fold_left _ _ _) as [best d]. cbn [fst] in H.
    destruct (d <=? 2)%nat; [exact H | now left]. }
  specialize (Hall _ Hin). intros E. rewrite E in Hall. discriminate.
Qed.

Lemma word_value_safe token :
  map_get token <> VObj -> word_value token <> VObj.
Proof.
  unfold word_value. intros H.
  destruct (map_get token); [apply closest_safe | discriminate | contradiction].
Qed.

Lemma with_unit_num words i value :
  value <> VObj -> truthy value = true ->
  exists k, with_unit words i value = Num k.
Proof.
  unfold with_unit. destruct value as [|v|]; [discriminate| |contradiction].
  intros _ _.
  destruct ((20 <=? v) && (v mod 10 =? 0) && (i + 1 <? List.length words)%nat);
    [|eauto].
  destruct (map_get (nth (i + 1) words EmptyString)) as [|u|];
    cbn [truthy val_lt andb]; rewrite ?andb_false_r; eauto.
  destruct (negb (u =? 0) && (u <? 10)); cbn [val_add]; eauto.
Qed.

Lemma compound_num token v :
  (forall first rest, split_char "-" token = first :: rest ->
                      map_get first <> VObj) ->
  compound_value token = Some v -> exists k, v = Num k.
Proof.
  unfold compound_value. intros Hfirst.
  destruct (includes "-" token); [|discriminate].
  destruct (split_char "-" token) as [|first [|second rest]]; try discriminate.
  specialize (Hfirst first (second :: rest) eq_refl).
  destruct (map_get first) as [|b|]; [discriminate| |contradiction].
  destruct (map_get second) as [|u|]; cbn [truthy val_lt andb];
    rewrite ?andb_false_r; try discriminate.
  destruct (negb (b =? 0) && negb (u =? 0) && (u <? 10)); [|discriminate].
  intros [= <-]. cbn [val_add]. eauto.
Qed.

(** A token that is not an inherited name contributes a number. *)
Lemma token_value_num words i v :
  map_get (nth i words EmptyString) <> VObj ->
  (forall first rest, split_char "-" (nth i words EmptyString) = first :: rest ->
                      map_get first <> VObj) ->
  token_value words i = Some v -> exists k, v = Num k.
Proof.
  intros Htok Hfirst. unfold token_value.
  destruct (compound_value (nth i words EmptyString)) as [sum|] eqn:Ec.
  - intros [= <-]. eapply compound_num; eauto.
  - destruct (truthy (word_value (nth i words EmptyString))) eqn:Et; [|discriminate].
    intros [= <-]. apply with_unit_num; [now apply word_value_safe | assumption].
Qed.

(** The tokens are made of token characters and occur in the text. *)
Lemma blank_other_class c :
  (fun d => token_char d || is_space d) (blank_other c) = true.
Proof.
  unfold blank_other, token_char.
  destruct (is_lower c) eqn:E1; cbn [orb]; [now rewrite E1|].
  destruct (is_space c) eqn:E2; cbn [orb]; [now rewrite E2, !orb_true_r|].
  destruct (Ascii.eqb c "-") eqn:E3; [now rewrite E1, E3|reflexivity].
Qed.

Lemma blank_other_fixed c : token_char (blank_other c) = true -> blank_other c = c.
Proof.
  unfold blank_other.
  destruct (is_lower c || is_space c || Ascii.eqb c "-"); [reflexivity|].
  discriminate.
Qed.

Lemma token_chars_of p :
  all_chars (fun d => token_char d || is_space d) p = true ->
  all_chars (fun c => negb (is_space c)) p = true ->
  all_chars token_char p = true.
Proof.
  induction p as [|c r IH]; cbn [all_chars]; [reflexivity|].
  intros H1 H2. apply andb_true_iff in H1 as [Ha Hb].
  apply andb_true_iff in H2 as [Hc Hd]. rewrite IH by assumption.
  destruct (is_space c); [discriminate|]. now rewrite orb_false_r in Ha; rewrite Ha.
Qed.

Lemma words_of_token text t :
  In t (words_of text) -> sub t text /\ all_chars token_char t = true.
Proof.
  unfold words_of. intros H. apply filter_In in H as [H _].
  apply split_spaces_parts in H as [Hsub Hns].
  assert (Hc : all_chars token_char t = true).
  { apply token_chars_of; [|assumption].
    eapply all_chars_sub; [exact Hsub|].
    apply all_chars_map_chars. exact blank_other_class. }
  split; [|assumption].
  eapply sub_map_chars; [|exact Hsub|exact Hc]. exact blank_other_fixed.
Qed.

Lemma token_safe text t :
  includes "constructor" text = false -> In t (words_of text) ->
  map_get t <> VObj /\
  (forall first rest, split_char "-" t = first :: rest -> map_get first <> VObj).
Proof.
  intros Hno Hin. destruct (words_of_token _ _ Hin) as [Hsub Hc]. split.
  - intros E. apply map_get_obj in E; [|assumption]. subst t.
    rewrite (includes_sub _ _ _ (includes_refl _) Hsub) in Hno. discriminate.
  - intros first rest Hsplit E.
    destruct (split_char_head "-" t) as (l & ls & tail & Hl & Ht).
    rewrite Hsplit in Hl. injection Hl as <- <-.
    assert (Hpre : sub first t) by (rewrite Ht; apply sub_prefix).
    apply map_get_obj in E; [|eapply all_chars_sub; eassumption]. subst first.
    rewrite (includes_sub _ _ _ (includes_refl _) (sub_trans _ _ _ Hpre Hsub)) in Hno.
    discriminate.
Qed.

(** The loop computes the maximum of its start value and the values of the
    tokens it visits. *)
Lemma fold_count words idxs :
  (forall i v, In i idxs -> token_value words i = Some v -> exists k, v = Num k) ->
  forall m, exists n,
    fold_left (count_step words) idxs (Num m) = Num n /\ m <= n /\
    Forall (fun v => exists k, v = Num k /\ k <= n)
           (omap (token_value words) idxs) /\
    (n = m \/ In (Num n) (omap (token_value words) idxs)).
Proof.
  induction idxs as [|i idxs IH]; intros Hnum m.
  - exists m. cbn. repeat split; [lia | constructor | now left].
  - cbn [fold_left omap]. rewrite count_step_spec.
    assert (Hrest : forall j v, In j idxs -> token_value words j = Some v ->
                                exists k, v = Num k)
      by (intros j v Hj; apply Hnum; now right).
    unfold omap, list_omap. fold (omap (token_value words) idxs).
    destruct (token_value words i) as [v|] eqn:Ev.
    + destruct (Hnum i v (or_introl eq_refl) Ev) as [k ->].
      cbn [Math_max].
      destruct (IH Hrest (Z.max m k)) as (n & Hn & Hle & Hall & Hin).
      exists n. rewrite Hn. repeat split; [lia| |].
      * constructor; [exists k; split; [reflexivity | lia] | exact Hall].
      * destruct Hin as [->|Hin]; [|right; now right].
        destruct (Z.max_spec m k) as [[_ ->]|[_ ->]]; [right; now left | now left].
    + destruct (IH Hrest m) as (n & Hn & Hle & Hall & Hin).
      exists n. rewrite Hn. repeat split; assumption.
Qed.

Lemma fold_max_list l a :
  let n := fold_left Z.max l a in
  a <= n /\ Forall (fun k => k <= n) l /\ (n = a \/ In n l).
Proof.
  revert a. induction l as [|x l IH]; intros a; cbn [fold_left].
  - repeat split; [lia | constructor | now left].
  - destruct (IH (Z.max a x)) as (Hle & Hall & Hin).
    repeat split; [lia| |].
    + constructor; [lia | exact Hall].
    + destruct Hin as [Hin|Hin]; [|right; now right].
      destruct (Z.max_spec a x) as [[_ E]|[_ E]]; rewrite E in *;
        [right; left; now symmetry | now left].
Qed.

(** The general part of the amended claim: where no inherited property
    name is met, the result is the maximum of 0 and the values found. *)
Lemma extract_is_maximum text :
  includes "constructor" text = false ->
  exists n, extractRequestedCount text = Num n /\ is_max_of n (values_found text).
Proof.
  intros Hno. unfold extractRequestedCount, values_found, token_values, literal_values.
  set (words := words_of text).
  assert (Hnum : forall i v, In i (seq 0 (List.length words)) ->
                   token_value words i = Some v -> exists k, v = Num k).
  { intros i v Hi Hv. apply in_seq in Hi.
    assert (Hin : In (nth i words EmptyString) words) by (apply nth_In; lia).
    destruct (token_safe text _ Hno Hin) as [H1 H2].
    eapply token_value_num; eauto. }
  destruct (digit_matches None text) as [|d ds].
  - destruct (fold_count words _ Hnum 0) as (n & Hn & Hle & Hall & Hin).
    exists n. split; [exact Hn|]. split; [exact Hall|].
    destruct Hin as [->|Hin]; [now left | now right].
  - pose proof (fold_max_list (map number_of_digits ds) (number_of_digits d))
      as (Hle0 & Hall0 & Hin0). cbn zeta in *.
    set (m0 := fold_left Z.max (map number_of_digits ds) (number_of_digits d)) in *.
    destruct (fold_count words _ Hnum m0) as (n & Hn & Hle & Hall & Hin).
    exists n. split; [exact Hn|]. split.
    + apply Forall_app. split; [|exact Hall].
      apply List.Forall_forall. intros v Hv.
      apply in_map_iff in Hv as (z & <- & Hz). exists z. split; [reflexivity|].
      cbn [map] in Hz. destruct Hz as [<-|Hz]; [lia|].
      rewrite List.Forall_forall in Hall0. specialize (Hall0 _ Hz). lia.
    + right. apply in_or_app. destruct Hin as [->|Hin]; [left | now right].
      apply in_map. cbn [map]. destruct Hin0 as [->|Hin0]; [now left | now right].
Qed.

(** C2, as the code has it. For a text that does not contain
    [constructor], [extractRequestedCount] returns the maximum of 0 and the
    values its strategies find (digits, number words, compounds of a number
    word and a unit, closest number word within edit distance 2); it
    returns 6 for "fix the three files", where "fix" is at distance 1 of
    "six", and 12, 25, 0 and 14 for the other examples. *)
Theorem extract_maximum_and_examples :
  (forall text,
     includes "constructor" text = false ->
     exists n, extractRequestedCount text = Num n
               /\ is_max_of n (values_found text)) /\
  extractRequestedCount "fix the three files" = Num 6 /\
  extractRequestedCount "update 12 endpoints" = Num 12 /\
  extractRequestedCount "twenty-five items" = Num 25 /\
  extractRequestedCount "nothing here" = Num 0 /\
  extractRequestedCount "rename fourten things" = Num 14.
Proof.
  split; [exact extract_is_maximum|].
  split; [vm_compute; reflexivity|].
  split; [vm_compute; reflexivity|].
  split; [vm_compute; reflexivity|].
  split; vm_compute; reflexivity.
Qed.

(** The theorem on a text with a literal and a compound. *)
Lemma extract_maximum_witness :
  exists n, extractRequestedCount "add 12 tests to twenty-five files" = Num n
            /\ is_max_of n (values_found "add 12 tests to twenty-five files").
Proof.
  apply (proj1 extract_maximum_and_examples). vm_compute. reflexivity.
Defined.

(** C2 as stated fails: the count of "fix the three files" is not 3. *)
Lemma extract_three_files_is_not_3 :
  extractRequestedCount "fix the three files" <> Num 3.
Proof. vm_compute. discriminate. Qed.

End CountProofs.

(** ** The events of each helper *)

Module EffectFacts.

Import Patch Claude Git Ext CascadeSpec Effects.

Lemma emits_run P {A} (m : M A) w r w' :
  emits P m -> m w = (r, w') ->
  exists l, history w' = history w ++ l /\ forallb P l = true.
Proof. intros H E. specialize (H w). now rewrite E in H. Qed.

Lemma emits_ret P {A} (a : A) : emits P (mret a).
Proof. intros w. exists []. cbn. now rewrite app_nil_r. Qed.

Lemma emits_throw P {A} e : emits P (@throw A e).
Proof. intros w. exists []. cbn. now rewrite app_nil_r. Qed.

Lemma emits_bind P {A B} (m : M A) (k : A -> M B) :
  emits P m -> (forall a, emits P (k a)) -> emits P (m ≫= k).
Proof.
  intros Hm Hk w. unfold mbind, M_bind.
  destruct (Hm w) as (l1 & H1 & P1). destruct (m w) as [[a|e] w1]; cbn [snd] in *.
  - destruct (Hk a w1) as (l2 & H2 & P2). exists (l1 ++ l2).
    rewrite H2, H1, app_assoc, forallb_app, P1, P2. now split.
  - now exists l1.
Qed.

Lemma emits_try P {A} (m : M A) (h : string -> M A) :
  emits P m -> (forall e, emits P (h e)) -> emits P (try_catch m h).
Proof.
  intros Hm Hh w. unfold try_catch.
  destruct (Hm w) as (l1 & H1 & P1). destruct (m w) as [[a|e] w1]; cbn [snd] in *.
  - now exists l1.
  - destruct (Hh e w1) as (l2 & H2 & P2). exists (l1 ++ l2).
    rewrite H2, H1, app_assoc, forallb_app, P1, P2. now split.
Qed.

Lemma emits_one P {A} (m : M A) e :
  (forall w, history (snd (m w)) = history w ++ [e]) -> P e = true -> emits P m.
Proof. intros H He w. exists [e]. cbn. now rewrite H, He. Qed.

Lemma emits_none P {A} (m : M A) :
  (forall w, history (snd (m w)) = history w) -> emits P m.
Proof. intros H w. exists []. cbn. now rewrite H, app_nil_r. Qed.

Section Helpers.

Variable env : Env.
Variable P : Event -> bool.
Hypothesis P_api : forall m s u, P (EApi m s u) = true.
Hypothesis P_git : forall args, P (EGit args) = true.
Hypothesis P_write : forall p c, P (EWriteFile p c) = true.
Hypothesis P_mkdir : forall p, P (EMkdir p) = true.

Lemma emits_stat path : emits P (stat_ok path).
Proof. now apply emits_none. Qed.

Lemma emits_readFile path : emits P (readFile path).
Proof. now apply emits_none. Qed.

Lemma emits_writeFile path content : emits P (writeFile path content).
Proof. now apply emits_one with (e := EWriteFile path content). Qed.

Lemma emits_mkdir path : emits P (mkdir path).
Proof. now apply emits_one with (e := EMkdir path). Qed.

Lemma emits_messages apiKey model max_tokens system user :
  emits P (messages_create env apiKey model max_tokens system user).
Proof. now apply emits_one with (e := EApi model system user). Qed.

Lemma emits_runGit args cwd : emits P (runGit env args cwd).
Proof.
  apply emits_one with (e := EGit args); [|apply P_git].
  intros w. unfold runGit. destruct (git_exec env (fs w) cwd args) as [[s|e] t];
    reflexivity.
Qed.

Create HintDb emits.

Hint Resolve emits_ret emits_throw emits_stat emits_readFile emits_writeFile
  emits_mkdir emits_messages emits_runGit : emits.

Ltac emits_tac :=
  repeat first
    [ progress eauto with emits
    | apply emits_bind; [|intros]
    | apply emits_try; [|intros]
    | match goal with
      | |- emits _ (match ?x with _ => _ end) => destruct x
      | |- emits _ (if ?b then _ else _) => destruct b
      end ].

Lemma emits_generatePatch apiKey model prompt context :
  emits P (generatePatchWithClaude env apiKey model prompt context).
Proof. unfold generatePatchWithClaude. emits_tac. Qed.

Lemma emits_generateFile apiKey model prompt context filePath :
  emits P (generateFileContentWithClaude env apiKey model prompt context filePath).
Proof. unfold generateFileContentWithClaude. emits_tac. Qed.

Lemma emits_generatePlan apiKey model prompt context maxSteps count existing :
  emits P (generatePlanWithClaude env apiKey model prompt context maxSteps
             count existing).
Proof. unfold generatePlanWithClaude. emits_tac. Qed.

Lemma emits_validate repoRoot patchPath : emits P (validatePatch env repoRoot patchPath).
Proof. unfold validatePatch. emits_tac. Qed.

Lemma emits_apply repoRoot patchPath : emits P (applyPatch env repoRoot patchPath).
Proof. unfold applyPatch. emits_tac. Qed.

Lemma emits_threeWay repoRoot patchPath :
  emits P (applyPatchThreeWay env repoRoot patchPath).
Proof. unfold applyPatchThreeWay. emits_tac. Qed.

Lemma emits_listRepoFiles repoRoot : emits P (listRepoFiles env repoRoot).
Proof. unfold listRepoFiles. emits_tac. Qed.

Lemma emits_buildContext root : emits P (buildContext env root).
Proof. unfold buildContext, getFileList, readTextFile. emits_tac. Qed.

Lemma emits_isMissing repoRoot filePath : emits P (isMissingFile env repoRoot filePath).
Proof. unfold isMissingFile. emits_tac. Qed.

Lemma emits_normalize patch repoRoot :
  emits P (normalizePatchForNewFile env patch repoRoot).
Proof. unfold normalizePatchForNewFile. emits_tac. Qed.

Lemma emits_rewrite patch repoRoot :
  emits P (rewriteNewFilePatchForExistingFile env patch repoRoot).
Proof. unfold rewriteNewFilePatchForExistingFile. emits_tac. Qed.

Lemma emits_nonPatch prompt repoRoot content :
  emits P (writeFileFromNonPatchResponse env prompt repoRoot content).
Proof. unfold writeFileFromNonPatchResponse. emits_tac. Qed.

Hint Resolve emits_generatePatch emits_generateFile emits_generatePlan
  emits_validate emits_apply emits_threeWay emits_listRepoFiles
  emits_buildContext emits_isMissing emits_normalize emits_rewrite
  emits_nonPatch : emits.

Lemma emits_regenerate apiKey model prompt repoRoot originalPatch :
  emits P (regeneratePatchWithFreshFileContext env apiKey model prompt repoRoot
             originalPatch).
Proof. unfold regeneratePatchWithFreshFileContext. emits_tac. Qed.

Lemma emits_createFile apiKey model prompt contextText repoRoot originalPatch :
  emits P (createFileFromClaudeIfMissing env apiKey model prompt contextText
             repoRoot originalPatch).
Proof. unfold createFileFromClaudeIfMissing. emits_tac. Qed.

Lemma emits_replaceFile apiKey model prompt contextText repoRoot originalPatch :
  emits P (replaceFileFromClaudeOnFailure env apiKey model prompt contextText
             repoRoot originalPatch).
Proof. unfold replaceFileFromClaudeOnFailure. emits_tac. Qed.

(** The cascade itself also deletes the artifact and leaves markers. *)
Hypothesis P_unlink : forall p, P (EUnlink p) = true.
Hypothesis P_try : forall s, P (ETry s) = true.
Hypothesis P_done : forall s, P (EDone s) = true.
Hypothesis P_fail : forall s m, P (EFail s m) = true.

Lemma emits_unlink path : emits P (safeUnlink path).
Proof. now apply emits_one with (e := EUnlink path). Qed.

Lemma emits_marker e : is_ghost e = true -> emits P (emit e).
Proof.
  intros H. apply emits_one with (e := e); [reflexivity|].
  destruct e; try discriminate; auto.
Qed.

Hint Resolve emits_regenerate emits_createFile emits_replaceFile emits_unlink
  : emits.

Hint Extern 1 (emits _ (emit _)) => apply emits_marker; reflexivity : emits.

Lemma emits_afterThreeWay apiKey model prompt ctx root np pp details twd :
  emits P (afterThreeWayFailure env apiKey model prompt ctx root np pp details twd).
Proof. unfold afterThreeWayFailure. emits_tac. Qed.

Hint Resolve emits_afterThreeWay : emits.

Lemma emits_afterDirect apiKey model prompt ctx root np pp details :
  emits P (afterDirectFailure env apiKey model prompt ctx root np pp details).
Proof. unfold afterDirectFailure. emits_tac. Qed.

Hint Resolve emits_afterDirect : emits.

Lemma emits_applyDiff apiKey model prompt ctx root label np :
  emits P (applyDiff env apiKey model prompt ctx root label np).
Proof. unfold applyDiff. emits_tac. Qed.

Hint Resolve emits_applyDiff : emits.

Lemma emits_applyPatchFromClaude apiKey model prompt ctx root label allowEmpty :
  emits P (applyPatchFromClaude env apiKey model prompt ctx root label allowEmpty).
Proof. unfold applyPatchFromClaude. emits_tac. Qed.

End Helpers.

End EffectFacts.

(** ** Stepping through the cascade *)

Module BlockFacts.

Import Patch Claude Git Ext CascadeSpec Effects EffectFacts Blocks.

Lemma helper_events l :
  forallb helper_event l = true ->
  ghost l = [] /\ tries l = [] /\ no_unlink l = true.
Proof.
  unfold no_unlink.
  induction l as [|e l IH]; cbn [forallb]; [auto|].
  intros H. apply andb_true_iff in H as [He Hl]. destruct (IH Hl) as (H1 & H2 & H3).
  unfold helper_event in He. apply andb_true_iff in He as [Hg Hu].
  cbn [ghost List.filter tries flat_map forallb]. fold (ghost l). fold (tries l).
  rewrite H1, H2, H3, Hu. destruct e; try discriminate; auto.
Qed.

Lemma ghost_app a b : ghost (a ++ b) = ghost a ++ ghost b.
Proof. apply List.filter_app. Qed.

Lemma tries_app a b : tries (a ++ b) = tries a ++ tries b.
Proof. apply flat_map_app. Qed.

Lemma no_unlink_app a b : no_unlink (a ++ b) = no_unlink a && no_unlink b.
Proof. apply forallb_app. Qed.

Lemma failures_stops g0 g :
  failures g0 = true -> g <> [] ->
  stops_at_first_success (g0 ++ g) = stops_at_first_success g /\
  last (g0 ++ g) = last g.
Proof.
  intros Hf Hg. remember (List.length g0) as n eqn:Hn.
  assert (Hle : (List.length g0 <= n)%nat) by lia. clear Hn.
  revert g0 Hf Hle. induction n as [|n IH]; intros g0 Hf Hle.
  - destruct g0; [now split | cbn in Hle; lia].
  - destruct g0 as [|e1 [|e2 rest]]; cbn [failures] in Hf.
    + now split.
    + destruct e1; discriminate.
    + destruct e1; try discriminate. destruct e2; try discriminate.
      apply andb_true_iff in Hf as [Hs Hrest].
      destruct (IH rest Hrest ltac:(cbn in Hle; lia)) as [H1 H2].
      cbn [app stops_at_first_success]. rewrite Hs, H1. split; [reflexivity|].
      rewrite <- H2. cbn [app].
      destruct (rest ++ g) eqn:E; [|reflexivity].
      apply app_eq_nil in E as [_ ->]. contradiction.
Qed.

Lemma bind_case {A B} (m : M A) (k : A -> M B) w (Post : Res B * World -> Prop) :
  (forall a w1, m w = (Ok a, w1) -> Post (k a w1)) ->
  (forall e w1, m w = (Err e, w1) -> Post (Err e, w1)) ->
  Post ((m ≫= k) w).
Proof.
  intros H1 H2. unfold mbind, M_bind. destruct (m w) as [[a|e] w1]; auto.
Qed.

Lemma bind_ok {A B} (m : M A) (k : A -> M B) w a w1 :
  m w = (Ok a, w1) -> (m ≫= k) w = k a w1.
Proof. intros H. unfold mbind, M_bind. now rewrite H. Qed.

Lemma bind_err {A B} (m : M A) (k : A -> M B) w e w1 :
  m w = (Err e, w1) -> (m ≫= k) w = (Err e, w1).
Proof. intros H. unfold mbind, M_bind. now rewrite H. Qed.

Lemma try_ok {A} (m : M A) (h : string -> M A) w a w1 :
  m w = (Ok a, w1) -> try_catch m h w = (Ok a, w1).
Proof. intros H. unfold try_catch. now rewrite H. Qed.

Lemma try_err {A} (m : M A) (h : string -> M A) w e w1 :
  m w = (Err e, w1) -> try_catch m h w = h e w1.
Proof. intros H. unfold try_catch. now rewrite H. Qed.

Lemma try_bind_on {A B} (m : M A) (h : string -> M A) (k : A -> M B) w
    (Post : Res B * World -> Prop) :
  on_result (fun a w1 => k a w1) (fun e w1 => (h e ≫= k) w1) Post (m w) ->
  Post ((try_catch m h ≫= k) w).
Proof.
  unfold on_result, try_catch, mbind, M_bind.
  destruct (m w) as [[a|e] w1]; auto.
Qed.

Lemma try_on {A} (m : M A) (h : string -> M A) w (Post : Res A * World -> Prop) :
  on_result (fun a w1 => (Ok a, w1)) (fun e w1 => h e w1) Post (m w) ->
  Post (try_catch m h w).
Proof. unfold on_result, try_catch. destruct (m w) as [[a|e] w1]; auto. Qed.

Lemma bind_emit {B} e (k : unit -> M B) w :
  (emit e ≫= k) w = k tt (mkWorld (fs w) (history w ++ [e])).
Proof. reflexivity. Qed.

Lemma bind_writeFile {B} path content (k : unit -> M B) w :
  (writeFile path content ≫= k) w
  = k tt (mkWorld (mkFS (<[path := content]> (files (fs w))) (dirs (fs w)))
                  (history w ++ [EWriteFile path content])).
Proof. reflexivity. Qed.

Lemma bind_mkdir {B} path (k : unit -> M B) w :
  (mkdir path ≫= k) w
  = k tt (mkWorld (mkFS (files (fs w)) ({[ path ]} ∪ dirs (fs w)))
                  (history w ++ [EMkdir path])).
Proof. reflexivity. Qed.

Lemma bind_unlink {B} path (k : unit -> M B) w :
  (safeUnlink path ≫= k) w
  = k tt (mkWorld (mkFS (delete path (files (fs w))) (dirs (fs w)))
                  (history w ++ [EUnlink path])).
Proof. reflexivity. Qed.

Lemma bind_ret {A B} (a : A) (k : A -> M B) w : (mret a ≫= k) w = k a w.
Proof. reflexivity. Qed.

Lemma bind_stat {B} path (k : bool -> M B) w :
  (stat_ok path ≫= k) w = k (fs_exists (fs w) path) w.
Proof. reflexivity. Qed.

Ltac break_all :=
  repeat match goal with
         | |- context [match ?x with _ => _ end] =>
             lazymatch x with
             | context [match _ with _ => _ end] => fail
             | _ => destruct x eqn:?
             end
         end.

Section Frames.

Variable env : Env.

Lemma runGit_error args cwd w e w' :
  runGit env args cwd w = (Err e, w') -> git_failure args e.
Proof.
  unfold runGit. destruct (git_exec env (fs w) cwd args) as [[s|m] t];
    intros [= <- <-]. now exists m.
Qed.

Lemma frame_runGit path args cwd w r w' :
  git_keeps env path -> runGit env args cwd w = (r, w') ->
  files (fs w') !! path = files (fs w) !! path.
Proof.
  intros Hk. unfold runGit. specialize (Hk (fs w) cwd args).
  destruct (git_exec env (fs w) cwd args) as [[s|e] t]; intros [= <- <-]; exact Hk.
Qed.

Ltac git_frame :=
  intros Hk; unfold validatePatch, applyPatch, applyPatchThreeWay, mbind, M_bind;
  match goal with
  | |- context [runGit env ?args ?root ?w] =>
      destruct (runGit env args root w) as [[s|e] w1] eqn:E
  end; intros [= <- <-]; eapply frame_runGit; eauto.

Lemma frame_validate path root pp w r w' :
  git_keeps env path -> validatePatch env root pp w = (r, w') ->
  files (fs w') !! path = files (fs w) !! path.
Proof. git_frame. Qed.

Lemma frame_apply path root pp w r w' :
  git_keeps env path -> applyPatch env root pp w = (r, w') ->
  files (fs w') !! path = files (fs w) !! path.
Proof. git_frame. Qed.

Lemma frame_threeWay path root pp w r w' :
  git_keeps env path -> applyPatchThreeWay env root pp w = (r, w') ->
  files (fs w') !! path = files (fs w) !! path.
Proof. git_frame. Qed.

Ltac git_error :=
  unfold validatePatch, applyPatch, applyPatchThreeWay, mbind, M_bind;
  match goal with
  | |- context [runGit env ?args ?root ?w] =>
      destruct (runGit env args root w) as [[s|m] w1] eqn:E
  end; intros [= <- <-]; eapply runGit_error; eauto.

Lemma validate_error root pp w e w' :
  validatePatch env root pp w = (Err e, w') ->
  git_failure ["apply"; "--check"; pp]%string e.
Proof. git_error. Qed.

Lemma apply_error root pp w e w' :
  applyPatch env root pp w = (Err e, w') ->
  git_failure ["apply"; "--whitespace=fix"; pp]%string e.
Proof. git_error. Qed.

Lemma threeWay_error root pp w e w' :
  applyPatchThreeWay env root pp w = (Err e, w') ->
  git_failure ["apply"; "--3way"; "--whitespace=fix"; pp]%string e.
Proof. git_error. Qed.

Ltac frame_exec :=
  cbv beta iota zeta delta
    [createFileFromClaudeIfMissing replaceFileFromClaudeOnFailure
     regeneratePatchWithFreshFileContext rewriteNewFilePatchForExistingFile
     normalizePatchForNewFile isMissingFile generatePatchWithClaude
     generateFileContentWithClaude targetFile messages_create
     mbind M_bind mret M_ret throw stat_ok readFile mkdir writeFile];
  break_all.

Lemma frame_regenerate apiKey model prompt root patch w r w' :
  regeneratePatchWithFreshFileContext env apiKey model prompt root patch w = (r, w') ->
  fs w' = fs w.
Proof. frame_exec; intros [= <- <-]; reflexivity. Qed.

Lemma frame_rewrite patch root w r w' :
  rewriteNewFilePatchForExistingFile env patch root w = (r, w') -> fs w' = fs w.
Proof. frame_exec; intros [= <- <-]; reflexivity. Qed.

Lemma frame_isMissing root filePath w r w' :
  isMissingFile env root filePath w = (r, w') -> fs w' = fs w.
Proof. frame_exec; intros [= <- <-]; reflexivity. Qed.

(** Normalisation only reads the tree, and does not fail. *)
Lemma frame_normalize patch root w r w' :
  normalizePatchForNewFile env patch root w = (r, w') ->
  w' = w /\ exists np, r = Ok np.
Proof. frame_exec; intros [= <- <-]; eauto. Qed.

Lemma frame_create apiKey model prompt ctx root patch w r w' :
  createFileFromClaudeIfMissing env apiKey model prompt ctx root patch w = (r, w') ->
  r <> Ok true -> fs w' = fs w.
Proof. frame_exec; intros [= <- <-] Hr; try reflexivity; now contradiction Hr. Qed.

Lemma frame_replace apiKey model prompt ctx root patch w r w' :
  replaceFileFromClaudeOnFailure env apiKey model prompt ctx root patch w = (r, w') ->
  r <> Ok true -> fs w' = fs w.
Proof. frame_exec; intros [= <- <-] Hr; try reflexivity; now contradiction Hr. Qed.

End Frames.

Ltac known_emits :=
  first [ apply emits_createFile | apply emits_replaceFile | apply emits_regenerate
        | apply emits_rewrite | apply emits_validate | apply emits_apply
        | apply emits_threeWay | apply emits_isMissing | apply emits_generatePatch
        | apply emits_normalize | apply emits_nonPatch ];
  intros; reflexivity.

(** Record what a helper run added to the history, and make the world
    it returned explicit. *)
Ltac facts :=
  repeat match goal with
  | H : ?m ?w = (?r, ?w1) |- _ =>
      is_var w1;
      let l := fresh "l" in let Hh := fresh "Hh" in let Hl := fresh "Hl" in
      destruct (emits_run helper_event m w r w1 ltac:(known_emits) H)
        as (l & Hh & Hl);
      apply helper_events in Hl as (? & ? & ?);
      let t := fresh "t" in let h := fresh "h" in
      destruct w1 as [t h]; cbn [history fs] in Hh; subst h
  end.

(** One step of a computation: a primitive is executed, a helper is
    replaced by its result, a result is passed on. *)
Ltac step :=
  cbv beta iota;
  first
    [ rewrite bind_emit | rewrite bind_writeFile | rewrite bind_mkdir
    | rewrite bind_unlink | rewrite bind_ret | rewrite bind_stat
    | apply try_bind_on
    | apply try_on
    | match goal with
      | |- on_result _ _ _ (_, _) => unfold on_result at 1
      | |- on_result _ _ _ (mret _ _) => unfold mret, M_ret
      | |- on_result _ _ _ (emit _ _) => unfold emit at 1
      end
    | apply bind_case;
      [ let a := fresh "a" in let w1 := fresh "w" in let H := fresh "Hrun" in
        intros a w1 H; facts
      | let e := fresh "e" in let w1 := fresh "w" in let H := fresh "Hrun" in
        intros e w1 H; facts ] ];
  cbn [fs history files dirs].

Ltac branch :=
  cbv beta iota;
  match goal with
  | |- _ ((if ?b then _ else _) _) => destruct b eqn:?
  | |- _ ((match ?x with _ => _ end) _) => destruct x eqn:?
  | |- _ ((if ?b then _ else _ ≫= _) _) => destruct b eqn:?
  | |- _ ((match ?x with _ => _ end ≫= _) _) => destruct x eqn:?
  end.

Ltac use_facts :=
  rewrite ?ghost_app, ?tries_app, ?no_unlink_app;
  repeat match goal with
         | H : ghost ?l = [] |- context [ghost ?l] => rewrite H
         | H : tries ?l = [] |- context [tries ?l] => rewrite H
         | H : no_unlink ?l = true |- context [no_unlink ?l] => rewrite H
         end;
  cbn [app ghost tries flat_map List.filter is_ghost is_unlink no_unlink
       forallb negb andb].

(** The artifact is still there: follow it back through the runs. *)
Ltac keep_step Hk :=
  match goal with
  | H : validatePatch _ _ _ ?w = (_, mkWorld ?t _) |- context [files ?t !! ?p] =>
      let F := fresh "F" in
      pose proof (frame_validate _ p _ _ _ _ _ Hk H) as F;
      cbn [fs files] in F; rewrite F; clear F
  | H : applyPatch _ _ _ ?w = (_, mkWorld ?t _) |- context [files ?t !! ?p] =>
      let F := fresh "F" in
      pose proof (frame_apply _ p _ _ _ _ _ Hk H) as F;
      cbn [fs files] in F; rewrite F; clear F
  | H : applyPatchThreeWay _ _ _ ?w = (_, mkWorld ?t _) |- context [files ?t !! ?p] =>
      let F := fresh "F" in
      pose proof (frame_threeWay _ p _ _ _ _ _ Hk H) as F;
      cbn [fs files] in F; rewrite F; clear F
  | H : regeneratePatchWithFreshFileContext _ _ _ _ _ _ ?w = (_, mkWorld ?t _)
    |- context [files ?t] =>
      let F := fresh "F" in
      pose proof (frame_regenerate _ _ _ _ _ _ _ _ _ H) as F;
      cbn [fs files] in F; rewrite F; clear F
  | H : rewriteNewFilePatchForExistingFile _ _ _ ?w = (_, mkWorld ?t _)
    |- context [files ?t] =>
      let F := fresh "F" in
      pose proof (frame_rewrite _ _ _ _ _ _ H) as F;
      cbn [fs files] in F; rewrite F; clear F
  | H : isMissingFile _ _ _ ?w = (_, mkWorld ?t _) |- context [files ?t] =>
      let F := fresh "F" in
      pose proof (frame_isMissing _ _ _ _ _ _ H) as F;
      cbn [fs files] in F; rewrite F; clear F
  | H : createFileFromClaudeIfMissing _ _ _ _ _ _ _ ?w = (_, mkWorld ?t _)
    |- context [files ?t] =>
      let F := fresh "F" in
      pose proof (frame_create _ _ _ _ _ _ _ _ _ _ H ltac:(discriminate)) as F;
      cbn [fs files] in F; rewrite F; clear F
  | H : replaceFileFromClaudeOnFailure _ _ _ _ _ _ _ ?w = (_, mkWorld ?t _)
    |- context [files ?t] =>
      let F := fresh "F" in
      pose proof (frame_replace _ _ _ _ _ _ _ _ _ _ H ltac:(discriminate)) as F;
      cbn [fs files] in F; rewrite F; clear F
  end.

Ltac keep_tac Hk :=
  cbn [fs files dirs fst snd];
  repeat first [ rewrite lookup_insert_eq | keep_step Hk
               | progress cbn [fs files dirs fst snd] ];
  eauto.

(** The end of a path: the run is known, its facts are checked. [fin]
    settles what is claimed of the final error. *)
Ltac leaf_with fin :=
  cbv beta iota delta [emit throw mret M_ret on_result];
  cbn [fs history files dirs]; rewrite <- ?app_assoc;
  unfold block_post; cbn [fst snd fs history];
  eexists; split; [reflexivity|];
  use_facts;
  split; [discriminate|];
  split; [reflexivity|];
  split; [reflexivity|];
  split; [split; intros Hx; first [reflexivity | discriminate Hx]|];
  split; [intros Hx; first [discriminate Hx | cbn [fs files]; apply lookup_delete_eq]|];
  split; [intros Hx; first [reflexivity | now contradiction Hx]|];
  split; [intros Hx Hk Hs; first [now contradiction Hx | keep_tac Hk]|];
  intros Hx; first [discriminate Hx | eexists; split; [reflexivity|fin]].

Ltac leaf := leaf_with ltac:(reflexivity).

(** Hand over to a block that is already settled. *)
Ltac normalize_world := cbn [fs history files dirs]; rewrite <- ?app_assoc.

Section Cascade.

Variable env : Env.

(** Going on from [wx], reached from [w] through failed strategies only. *)
Lemma block_post_prefix pp order order' final final' w wx l0 rw :
  block_post env pp order' final' wx rw ->
  history wx = history w ++ l0 ->
  failures (ghost l0) = true ->
  (forall t, subseq t order' = true -> subseq (tries l0 ++ t) order = true) ->
  no_unlink l0 = true ->
  (git_keeps env pp -> is_Some (files (fs w) !! pp) ->
   is_Some (files (fs wx) !! pp)) ->
  (forall l m, final' l m -> final (l0 ++ l) m) ->
  block_post env pp order final w rw.
Proof.
  intros (l & H1 & H2 & H3 & H4 & H5 & H6 & H7 & H8 & H9) Hh Hf Ho Hu Hk Hfin.
  exists (l0 ++ l). rewrite ghost_app, tries_app, no_unlink_app.
  destruct (failures_stops _ _ Hf H2) as [Hs Hlast].
  split; [now rewrite H1, Hh, app_assoc|].
  split; [intros E; apply app_eq_nil in E as [_ E]; contradiction|].
  split; [now rewrite Hs|].
  split; [now apply Ho|].
  split; [unfold succeeded in *; now rewrite Hlast|].
  split; [assumption|].
  split; [intros Hx; now rewrite Hu, H7|].
  split; [intros Hx Hkeep Hsome; apply H8; auto|].
  unfold exhausted in *. rewrite Hlast. intros Hx.
  destruct (H9 Hx) as (m & Hm & Hfm). exists m. split; [assumption|]. now apply Hfin.
Qed.

Lemma afterThreeWayFailure_facts apiKey model prompt ctx root np pp details twd w :
  block_post env pp [Regeneration; MissingFileCreation; WholeFileReplace]
    (fun _ message => message = invalidPatchMessage pp details twd) w
    (afterThreeWayFailure env apiKey model prompt ctx root np pp details twd w).
Proof.
  unfold afterThreeWayFailure.
  step. step; [|leaf].
  assert (Htail : forall t l0,
    ghost l0 = [] -> tries l0 = [] -> no_unlink l0 = true ->
    (git_keeps env pp -> is_Some (files (fs w) !! pp) -> is_Some (files t !! pp)) ->
    block_post env pp [Regeneration; MissingFileCreation; WholeFileReplace]
      (fun _ message => message = invalidPatchMessage pp details twd) w
      ((emit (EFail Regeneration "")
        ≫= λ _ : (),
          emit (ETry MissingFileCreation)
          ≫= λ _ : (),
            createFileFromClaudeIfMissing env apiKey model prompt ctx root np
            ≫= λ created : bool,
              if created
              then safeUnlink pp ≫= λ _ : (), emit (EDone MissingFileCreation)
              else
                emit (EFail MissingFileCreation "")
                ≫= λ _ : (),
                  emit (ETry WholeFileReplace)
                  ≫= λ _ : (),
                    replaceFileFromClaudeOnFailure env apiKey model prompt ctx root np
                    ≫= λ replaced : bool,
                      if replaced
                      then safeUnlink pp ≫= λ _ : (), emit (EDone WholeFileReplace)
                      else
                        emit (EFail WholeFileReplace "")
                        ≫= λ _ : (), throw (invalidPatchMessage pp details twd))
         (mkWorld t (history w ++ [ETry Regeneration] ++ l0)))).
  { intros tx l0 Hg0 Ht0 Hu0 Hkeep.
    step. step. step; [|leaf; apply Hkeep; assumption].
    branch.
    - step. leaf.
    - step. step. step; [|leaf; apply Hkeep; assumption].
      branch.
      + step. leaf.
      + step. leaf; apply Hkeep; assumption. }
  branch.
  - (* a regenerated patch *)
    step. step. step.
    + step.
      * step. step. step. leaf.
      * step. step. normalize_world.
        apply Htail; [use_facts; reflexivity .. | intros Hk Hs; keep_tac Hk].
    + step. step. normalize_world.
      apply Htail; [use_facts; reflexivity .. | intros Hk Hs; keep_tac Hk].
  - step. normalize_world.
    apply Htail; [assumption .. | intros Hk Hs; keep_tac Hk].
Qed.

Lemma afterDirectFailure_facts apiKey model prompt ctx root np pp details w :
  block_post env pp
    [RewriteForExistingFile; ThreeWayMerge; Regeneration; MissingFileCreation;
     WholeFileReplace]
    (fun l message => exists twd,
       message = invalidPatchMessage pp details twd /\
       In (EFail ThreeWayMerge twd) l /\ git_failure (threeWayArgs pp) twd) w
    (afterDirectFailure env apiKey model prompt ctx root np pp details w).
Proof.
  unfold afterDirectFailure.
  step. step; [|leaf].
  branch.
  - (* the patch rewritten for the existing file *)
    step. step; [|leaf].
    step; [|leaf].
    step. leaf.
  - step. step. step. step.
    + step. step. leaf.
    + step. step. normalize_world.
      eapply block_post_prefix; [apply afterThreeWayFailure_facts | ..].
      * cbn [history]. reflexivity.
      * use_facts. reflexivity.
      * use_facts. intros tr Ht. exact Ht.
      * use_facts. reflexivity.
      * intros Hk Hs; keep_tac Hk.
      * intros l2 m ->. exists e. split; [reflexivity|]. split.
        -- rewrite !in_app_iff. cbn [In]. tauto.
        -- eapply threeWay_error. eassumption.
Qed.


(** What is known of the error of an exhausted cascade. *)

Lemma bind_assoc {A B C} (m : M A) (f : A -> M B) (g : B -> M C) w :
  ((m ≫= f) ≫= g) w = (m ≫= (fun a => f a ≫= g)) w.
Proof.
  unfold mbind, M_bind. destruct (m w) as [[a|e] w1]; reflexivity.
Qed.

Lemma subseq_weaken ys :
  forall xs,
    (forall y, subseq xs ys = true -> subseq xs (y :: ys) = true) /\
    (forall x, subseq (x :: xs) ys = true -> subseq xs ys = true).
Proof.
  induction ys as [|y0 ys IH]; intros xs.
  - split; [intros y|intros x]; destruct xs; cbn; congruence.
  - assert (Htail : forall x zs, subseq (x :: zs) (y0 :: ys) = true ->
                                 subseq zs (y0 :: ys) = true).
    { intros x zs H. cbn [subseq] in H. apply (IH zs).
      destruct (strategy_eqb x y0); [exact H | apply (IH zs) in H; exact H]. }
    split; [intros y H|intros x; apply Htail].
    destruct xs as [|x xs]; [reflexivity|].
    change (subseq (x :: xs) (y :: y0 :: ys))
      with (if strategy_eqb x y then subseq xs (y0 :: ys)
            else subseq (x :: xs) (y0 :: ys)).
    destruct (strategy_eqb x y); [eapply Htail; exact H | exact H].
Qed.

Lemma subseq_skip xs ys y : subseq xs ys = true -> subseq xs (y :: ys) = true.
Proof. apply subseq_weaken. Qed.


(** The direct attempt and what follows it. *)
Lemma directAttempt_facts apiKey model prompt ctx root np pp w :
  block_post env pp direct_order (terminal pp) w
    ((emit (ETry DirectApply)
      ≫= λ _ : (),
        try_catch
          (validatePatch env root pp
           ≫= λ _ : (),
             applyPatch env root pp
             ≫= λ _ : (), safeUnlink pp ≫= λ _ : (), emit (EDone DirectApply))
          (λ details : string,
             emit (EFail DirectApply details)
             ≫= λ _ : (),
               afterDirectFailure env apiKey model prompt ctx root np pp details))
       w).
Proof.
  assert (Hfail : forall t l0 details,
    ghost l0 = [] -> tries l0 = [] -> no_unlink l0 = true ->
    (git_keeps env pp -> is_Some (files (fs w) !! pp) -> is_Some (files t !! pp)) ->
    (git_failure (checkArgs pp) details \/ git_failure (applyArgs pp) details) ->
    block_post env pp direct_order (terminal pp) w
      ((emit (EFail DirectApply details)
        ≫= λ _ : (),
          afterDirectFailure env apiKey model prompt ctx root np pp details)
         (mkWorld t (history w ++ [ETry DirectApply] ++ l0)))).
  { intros t l0 details Hg Ht Hu Hkeep Hgit. step. normalize_world.
    eapply block_post_prefix; [apply afterDirectFailure_facts | ..].
    - cbn [history]. reflexivity.
    - use_facts. reflexivity.
    - use_facts. intros tr Htr. exact Htr.
    - use_facts. reflexivity.
    - intros Hk Hs. cbn [fs files]. auto.
    - intros l2 m (twd & -> & Hin & Hf). exists details, twd.
      split; [reflexivity|]. split; [|split; [|split; assumption]].
      + rewrite !in_app_iff. cbn [In]. tauto.
      + rewrite !in_app_iff. tauto. }
  step. step. step.
  - step.
    + step. leaf.
    + step. normalize_world.
      apply Hfail; [use_facts; reflexivity .. | intros Hk Hs; keep_tac Hk |].
      right. eapply apply_error. eassumption.
  - step. normalize_world.
    apply Hfail; [assumption .. | intros Hk Hs; keep_tac Hk |].
    left. eapply validate_error. eassumption.
Qed.

Lemma applyDiff_facts apiKey model prompt ctx root label np w :
  let pp := patchPathOf env root label in
  block_post env pp code_order (terminal pp)
    (mkWorld (mkFS (<[pp := np]> (files (fs w))) (dirs (fs w)))
             (history w ++ [EWriteFile pp np]))
    (applyDiff env apiKey model prompt ctx root label np w).
Proof.
  intros pp. unfold applyDiff. fold pp. step.
  set (w0 := mkWorld _ _).
  assert (Hmain : forall t l0,
    failures (ghost l0) = true ->
    (forall tr, subseq tr direct_order = true ->
                subseq (tries l0 ++ tr) code_order = true) ->
    no_unlink l0 = true ->
    (git_keeps env pp -> is_Some (files (fs w0) !! pp) -> is_Some (files t !! pp)) ->
    block_post env pp code_order (terminal pp) w0
      ((emit (ETry DirectApply)
        ≫= λ _ : (),
          try_catch
            (validatePatch env root pp
             ≫= λ _ : (),
               applyPatch env root pp
               ≫= λ _ : (), safeUnlink pp ≫= λ _ : (), emit (EDone DirectApply))
            (λ details : string,
               emit (EFail DirectApply details)
               ≫= λ _ : (),
                 afterDirectFailure env apiKey model prompt ctx root np pp details))
         (mkWorld t (history w0 ++ l0)))).
  { intros t l0 Hf Ho Hu Hkeep.
    eapply block_post_prefix; [apply directAttempt_facts | ..];
      try eassumption; [reflexivity|].
    unfold terminal. intros l2 m (d & twd & -> & H1 & H2 & H3 & H4).
    exists d, twd. rewrite !in_app_iff. tauto. }
  branch.
  - (* a primary file *)
    unfold isMissingFile. rewrite !bind_assoc. step. step.
    branch.
    + step. cbv beta iota.
      replace w0 with (mkWorld (fs w0) (history w0 ++ [])) at 2
        by (unfold w0; cbn [fs history]; rewrite app_nil_r; reflexivity).
      apply Hmain; [reflexivity | intros tr Htr | reflexivity | auto].
      cbn [tries flat_map app]. do 2 apply subseq_skip. exact Htr.
    + rewrite !bind_assoc. step. branch.
      * rewrite !bind_assoc. step. rewrite !bind_assoc. step.
        rewrite !bind_assoc. step. rewrite !bind_assoc. step. step.
        leaf.
      * rewrite !bind_assoc. step. rewrite !bind_assoc. step.
        rewrite !bind_assoc. step; [|leaf].
        branch.
        -- rewrite !bind_assoc. step. rewrite !bind_assoc. step. step. leaf.
        -- rewrite !bind_assoc. step. step. cbv beta iota. normalize_world.
           apply Hmain.
           ++ use_facts. reflexivity.
           ++ intros tr Htr. use_facts. exact Htr.
           ++ use_facts. reflexivity.
           ++ intros Hk Hs. keep_tac Hk.
  - step. cbv beta iota.
    replace w0 with (mkWorld (fs w0) (history w0 ++ [])) at 2
      by (unfold w0; cbn [fs history]; rewrite app_nil_r; reflexivity).
    apply Hmain; [reflexivity | intros tr Htr | reflexivity | auto].
    cbn [tries flat_map app]. do 2 apply subseq_skip. exact Htr.
Qed.

End Cascade.

(** ** The whole of [applyPatchFromClaude] *)

Section Top.

Variable env : Env.

(** A path on which no strategy was entered. *)
Ltac early :=
  cbv beta iota delta [emit throw mret M_ret on_result];
  cbn [fs history files dirs]; rewrite <- ?app_assoc;
  unfold cascade_post; cbn [fst snd fs history];
  eexists; split; [reflexivity|];
  use_facts;
  repeat split; intros; try reflexivity; try discriminate; try congruence.

Lemma applyPatchFromClaude_facts apiKey model prompt ctx root label allowEmpty w :
  cascade_post env (patchPathOf env root label) w
    (applyPatchFromClaude env apiKey model prompt ctx root label allowEmpty w).
Proof.
  unfold applyPatchFromClaude.
  step; [|early].
  step; [|early].
  branch.
  - branch; early.
  - branch.
    + step; [|early]. branch; early.
    + normalize_world.
      match goal with |- cascade_post _ ?pp _ (applyDiff _ _ _ _ _ _ _ ?np ?wx) =>
        pose proof (applyDiff_facts env apiKey model prompt ctx root label np wx) as HB;
        destruct (applyDiff env apiKey model prompt ctx root label np wx) as [r w'] end.
      cbv zeta in HB. unfold block_post in HB. cbn [fst snd fs history files] in HB.
      destruct HB as (l' & Hh & Hne & Hstop & Hsub & Hok & Hgone & Hnu & Hkeep & Hex).
      set (pp := patchPathOf env root label) in *.
      assert (Hg : ghost (l ++ l0 ++ [EWriteFile pp a0] ++ l') = ghost l')
        by (use_facts; reflexivity).
      assert (Ht : tries (l ++ l0 ++ [EWriteFile pp a0] ++ l') = tries l')
        by (use_facts; reflexivity).
      exists (l ++ l0 ++ [EWriteFile pp a0] ++ l').
      cbn [fst snd]. rewrite Hg, Ht.
      split; [rewrite Hh, <- !app_assoc; reflexivity|].
      split; [exact Hstop|]. split; [exact Hsub|].
      split; [apply Hok|]. split; [intros _; apply Hok|].
      split.
      { intros _. exists (l ++ l0), a0, l'. split.
        - rewrite <- app_assoc. reflexivity.
        - use_facts. reflexivity. }
      split; [intros Hs; apply Hgone, Hok, Hs|].
      intros Hx. destruct (Hex Hx) as (message & -> & Hterm).
      exists message. split; [reflexivity|]. split.
      { destruct Hterm as (d & twd & Hm & Hd1 & Hd2 & Hd3).
        exists d, twd. rewrite !in_app_iff. tauto. }
      split.
      { use_facts. apply Hnu. discriminate. }
      intros Hk. apply Hkeep; [discriminate | exact Hk |].
      rewrite lookup_insert_eq. eauto.
Qed.

End Top.

End BlockFacts.

(** * The cascade: order, terminal failure and the artifact *)

Module CascadeProofs.

Import JS Sys Patch Claude Git Ext CascadeSpec Effects Blocks BlockFacts Scenario.

(** C1. The strategies are entered in the order of the code: the new-file
    short-circuit and the creation of the missing file come first, then the
    direct application, the rewrite for an existing file, the three-way
    merge, the regeneration, the creation of the missing file and the
    whole-file replacement. A strategy is entered only after the one before
    it failed, nothing follows a success, and a success makes the step
    return normally. *)
Theorem cascade_code_order_first_success
    env apiKey model prompt contextText repoRoot stepLabel allowEmpty w :
  let rw := applyPatchFromClaude env apiKey model prompt contextText repoRoot
              stepLabel allowEmpty w in
  exists l,
    history (snd rw) = history w ++ l /\
    subseq (tries l) code_order = true /\
    stops_at_first_success (ghost l) = true /\
    (succeeded (ghost l) = true -> fst rw = Ok tt).
Proof.
  intros rw.
  destruct (applyPatchFromClaude_facts env apiKey model prompt contextText
              repoRoot stepLabel allowEmpty w)
    as (l & Hh & Hstop & Hsub & Hok & _).
  exists l. auto.
Qed.

(** The patch for a file that is not in the tree: every strategy is entered,
    the direct application third. The new-file patch: git would accept it,
    and the direct application is not entered at all. *)
Lemma cascade_not_in_spec_order :
  let stale := snd (run (applyPatchFromClaude envStale "key" "claude"
                           "Trim x.txt" "" repo "single-shot" false)) in
  let fresh := snd (run (applyPatchFromClaude envNewFile "key" "claude"
                           "Create new.txt" "" repo "single-shot" false)) in
  tries stale =
    [ NewFileShortCircuit; MissingFileCreation; DirectApply;
      RewriteForExistingFile; ThreeWayMerge; Regeneration;
      MissingFileCreation; WholeFileReplace ] /\
  follows_spec_order stale = false /\
  tries fresh = [ NewFileShortCircuit ] /\
  follows_spec_order fresh = false.
Proof. vm_compute. repeat split; reflexivity. Qed.

(** A git failure is never the empty string. *)
Lemma git_failure_nonempty args message :
  git_failure args message -> is_empty message = false.
Proof. intros (stderr & ->). reflexivity. Qed.

(** C6. When every strategy has failed, the step ends with one error. Its
    message names the path of the patch artifact and carries the error
    caught from the direct application and the error caught from the
    three-way merge; the run has deleted nothing, and the artifact is
    still in the tree (git itself leaving it alone). *)
Theorem exhausted_cascade_error
    env apiKey model prompt contextText repoRoot stepLabel allowEmpty w l :
  let rw := applyPatchFromClaude env apiKey model prompt contextText repoRoot
              stepLabel allowEmpty w in
  let patchPath := patchPathOf env repoRoot stepLabel in
  history (snd rw) = history w ++ l ->
  exhausted (ghost l) = true ->
  exists details threeWayDetails,
    fst rw =
      Err ("The model returned an invalid patch. We saved it to " +:+
           patchPath +:+ "." +:+ nl +:+ details +:+ nl +:+ threeWayDetails) /\
    In (EFail DirectApply details) l /\
    In (EFail ThreeWayMerge threeWayDetails) l /\
    (git_failure (checkArgs patchPath) details \/
     git_failure (applyArgs patchPath) details) /\
    git_failure (threeWayArgs patchPath) threeWayDetails /\
    no_unlink l = true /\
    (git_keeps env patchPath -> is_Some (files (fs (snd rw)) !! patchPath)).
Proof.
  intros rw patchPath Hl Hx.
  destruct (applyPatchFromClaude_facts env apiKey model prompt contextText
              repoRoot stepLabel allowEmpty w)
    as (l0 & Hh & _ & _ & _ & _ & _ & _ & Hex).
  fold rw in Hh, Hex. rewrite Hl in Hh. apply app_inv_head in Hh. subst l0.
  destruct (Hex Hx) as (message & Hr & (d & t & -> & Hd & Ht & Hgd & Hgt) & Hnu & Hk).
  exists d, t. repeat split; try assumption.
  rewrite Hr. unfold invalidPatchMessage.
  rewrite (git_failure_nonempty _ _ Hgt). reflexivity.
Qed.

Lemma exhausted_cascade_witness :
  let rw := applyPatchFromClaude envStale "key" "claude" "Trim x.txt" "" repo
              "single-shot" false start in
  let patchPath := patchPathOf envStale repo "single-shot" in
  exists details threeWayDetails,
    fst rw =
      Err ("The model returned an invalid patch. We saved it to " +:+
           patchPath +:+ "." +:+ nl +:+ details +:+ nl +:+ threeWayDetails) /\
    In (EFail DirectApply details) (history (snd rw)) /\
    In (EFail ThreeWayMerge threeWayDetails) (history (snd rw)) /\
    (git_failure (checkArgs patchPath) details \/
     git_failure (applyArgs patchPath) details) /\
    git_failure (threeWayArgs patchPath) threeWayDetails /\
    no_unlink (history (snd rw)) = true /\
    (git_keeps envStale patchPath ->
     is_Some (files (fs (snd rw)) !! patchPath)).
Proof.
  apply (exhausted_cascade_error envStale "key" "claude" "Trim x.txt" "" repo
           "single-shot" false start).
  - vm_compute. reflexivity.
  - vm_compute. reflexivity.
Defined.

(** C7. After a run in which a strategy succeeded the patch artifact is not
    in the tree. The artifact was written before the first strategy was
    entered, whichever strategy it is that succeeds. *)
Theorem success_leaves_no_artifact
    env apiKey model prompt contextText repoRoot stepLabel allowEmpty w l :
  let rw := applyPatchFromClaude env apiKey model prompt contextText repoRoot
              stepLabel allowEmpty w in
  let patchPath := patchPathOf env repoRoot stepLabel in
  history (snd rw) = history w ++ l ->
  succeeded (ghost l) = true ->
  fst rw = Ok tt /\
  files (fs (snd rw)) !! patchPath = None /\
  exists before normalizedPatch after,
    l = before ++ EWriteFile patchPath normalizedPatch :: after /\
    ghost before = [].
Proof.
  intros rw patchPath Hl Hs.
  destruct (applyPatchFromClaude_facts env apiKey model prompt contextText
              repoRoot stepLabel allowEmpty w)
    as (l0 & Hh & _ & _ & Hok & _ & Hwritten & Hgone & _).
  fold rw in Hh, Hok, Hgone. rewrite Hl in Hh. apply app_inv_head in Hh. subst l0.
  split; [auto|]. split; [auto|].
  apply Hwritten. intros Hg. rewrite Hg in Hs. discriminate.
Qed.

(** Git rejects the patch and merges it with [--3way]: the three-way merge
    succeeds and no artifact is left. *)
Lemma three_way_leaves_no_artifact :
  let rw := applyPatchFromClaude envThreeWay "key" "claude" "Edit a.txt" ""
              repo "single-shot" false start in
  let patchPath := patchPathOf envThreeWay repo "single-shot" in
  last (ghost (history (snd rw))) = Some (EDone ThreeWayMerge) /\
  fst rw = Ok tt /\
  files (fs (snd rw)) !! patchPath = None /\
  exists before normalizedPatch after,
    history (snd rw) = before ++ EWriteFile patchPath normalizedPatch :: after /\
    ghost before = [].
Proof.
  split; [vm_compute; reflexivity|].
  apply (success_leaves_no_artifact envThreeWay "key" "claude" "Edit a.txt" ""
           repo "single-shot" false start).
  - vm_compute. reflexivity.
  - vm_compute. reflexivity.
Defined.

(** The new-file short-circuit succeeds, and the artifact was created: it is
    the second event of the run. *)
Lemma short_circuit_run_creates_artifact :
  let h := snd (run (applyPatchFromClaude envNewFile "key" "claude"
                       "Create new.txt" "" repo "single-shot" false)) in
  ghost h = [ETry NewFileShortCircuit; EDone NewFileShortCircuit] /\
  h !! 1%nat =
    Some (EWriteFile "/repo/.llm-pr-assistant.single-shot.patch"
            (newFileDiff +:+ nl)).
Proof. vm_compute. split; reflexivity. Qed.

End CascadeProofs.

(** * Blank answers *)

Module EmptyProofs.

Import JS Sys Patch Claude Git Ext Count Sizing RunSpec BlockFacts StringFacts Scenario.

(** A blank answer: the step does nothing more. *)
Lemma blank_step env apiKey model prompt ctx root label allowEmpty w w2 :
  empty_response env apiKey model prompt ctx root w w2 ->
  applyPatchFromClaude env apiKey model prompt ctx root label allowEmpty w
  = (if allowEmpty then Ok tt else Err notAPatch, w2).
Proof.
  intros (patch & w1 & np & Hgen & Hnorm & Hblank).
  unfold applyPatchFromClaude.
  rewrite (bind_ok _ _ _ _ _ Hgen), (bind_ok _ _ _ _ _ Hnorm), Hblank.
  destruct allowEmpty; reflexivity.
Qed.

Lemma fallback_on_notAPatch : shouldFallbackToPlan notAPatch = true.
Proof. vm_compute. reflexivity. Qed.

(** C8. When what is left of the model's answer after normalisation is
    blank, the application step returns normally if [allowEmpty] is true
    and fails with "Model response was not a patch." if it is false, and
    does nothing else. A plan step passes [allowEmpty = true]: the loop
    goes on to refresh the context and to the next step. The single-shot
    attempt passes [allowEmpty = false]: the blank answer is an error there
    (one that starts planning). *)
Theorem empty_response_allowEmpty env apiKey model prompt contextText repoRoot w w2 :
  empty_response env apiKey model prompt contextText repoRoot w w2 ->
  (forall stepLabel allowEmpty,
     applyPatchFromClaude env apiKey model prompt contextText repoRoot
       stepLabel allowEmpty w
     = (if allowEmpty then Ok tt else Err notAPatch, w2)) /\
  (forall original total i step rest w0,
     prompt = buildStepPrompt original (title step) (instruction step)
                (i + 1) total ->
     w = logged (announcement (i + 1) total) w0 ->
     planLoop env apiKey model original repoRoot total i (step :: rest)
       contextText w0
     = (buildContext env repoRoot ≫= fun contextText' =>
        planLoop env apiKey model original repoRoot total (S i) rest
          contextText')
         (logged "Refreshing context after step" w2)) /\
  (forall requestedCount trackedFiles w0,
     w = logged "Calling Claude" w0 ->
     executeTier env apiKey model repoRoot prompt contextText requestedCount
       trackedFiles TIER_1 w0
     = runPlanExecute env apiKey model prompt contextText repoRoot
         requestedCount trackedFiles 4
         (logged "Single-shot failed, switching to plan mode" w2)).
Proof.
  intros Hempty. split; [|split].
  - intros. now apply blank_step.
  - intros original total i step rest w0 -> ->.
    cbn [planLoop]. unfold logStep. rewrite bind_emit.
    rewrite (bind_ok _ _ _ _ _ (blank_step _ _ _ _ _ _ _ true _ _ Hempty)).
    rewrite bind_emit. reflexivity.
  - intros requestedCount trackedFiles w0 ->.
    unfold executeTier, logStep. rewrite bind_emit.
    rewrite (try_err _ _ _ _ _ (blank_step _ _ _ _ _ _ _ false _ _ Hempty)).
    rewrite fallback_on_notAPatch. cbn [negb]. rewrite bind_emit. reflexivity.
Qed.

(** The service answers with nothing: a plan step passes, the single-shot
    attempt fails and planning starts. *)
Lemma empty_response_witness :
  let w := logged "Calling Claude" start in
  let w2 := snd (generatePatchWithClaude envEmpty "key" "claude" "Tidy up" "" w) in
  applyPatchFromClaude envEmpty "key" "claude" "Tidy up" "" repo "step-1" true w
  = (Ok tt, w2) /\
  applyPatchFromClaude envEmpty "key" "claude" "Tidy up" "" repo "single-shot" false w
  = (Err "Model response was not a patch.", w2) /\
  executeTier envEmpty "key" "claude" repo "Tidy up" "" (Num 0) [] TIER_1 start
  = runPlanExecute envEmpty "key" "claude" "Tidy up" "" repo (Num 0) [] 4
      (logged "Single-shot failed, switching to plan mode" w2).
Proof.
  intros w w2.
  destruct (empty_response_allowEmpty envEmpty "key" "claude" "Tidy up" "" repo w w2)
    as (Hstep & _ & Htier).
  - exists EmptyString, w2, EmptyString. vm_compute. repeat split; reflexivity.
  - split; [apply (Hstep "step-1"%string true)|].
    split; [apply (Hstep "single-shot"%string false)|].
    apply Htier. reflexivity.
Defined.

End EmptyProofs.

(** * Falling back to planning *)

Module FallbackProofs.

Import JS Sys Patch Claude Git Ext Count Sizing CascadeSpec Effects Blocks RunSpec
  BlockFacts StringFacts Scenario.

Lemma fallback_on_invalidPatch patchPath details threeWayDetails :
  shouldFallbackToPlan (invalidPatchMessage patchPath details threeWayDetails) = true.
Proof.
  unfold shouldFallbackToPlan, invalidPatchMessage.
  rewrite (includes_app "The model returned an invalid patch"
             "The model returned an invalid patch. ");
    [apply orb_true_r | vm_compute; reflexivity].
Qed.

(** C4. When the single-shot attempt of TIER_1 fails, planning starts
    exactly when the message of the failure contains "Model response was
    not a patch" or "The model returned an invalid patch": then the run
    continues as [runPlanExecute] with four steps at most. With any other
    message the failure is the result of the run, in the world in which it
    was raised: nothing is planned. The failure of a non-diff answer and
    the failure of an exhausted cascade both start planning. *)
Theorem fallback_iff_recognised_failure
    env apiKey model repoRoot prompt contextText requestedCount trackedFiles
    w error w1 :
  applyPatchFromClaude env apiKey model prompt contextText repoRoot
    "single-shot" false (logged "Calling Claude" w) = (Err error, w1) ->
  let rw := executeTier env apiKey model repoRoot prompt contextText
              requestedCount trackedFiles TIER_1 w in
  (shouldFallbackToPlan error = true <->
   includes "Model response was not a patch" error = true \/
   includes "The model returned an invalid patch" error = true) /\
  (shouldFallbackToPlan error = true ->
   rw = runPlanExecute env apiKey model prompt contextText repoRoot
          requestedCount trackedFiles 4
          (logged "Single-shot failed, switching to plan mode" w1)) /\
  (shouldFallbackToPlan error = false -> rw = (Err error, w1)) /\
  (error = notAPatch -> shouldFallbackToPlan error = true) /\
  (forall l,
     history w1 = history (logged "Calling Claude" w) ++ l ->
     exhausted (ghost l) = true -> shouldFallbackToPlan error = true).
Proof.
  intros Hrun rw.
  assert (Hrw : rw = if shouldFallbackToPlan error
                     then runPlanExecute env apiKey model prompt contextText
                            repoRoot requestedCount trackedFiles 4
                            (logged "Single-shot failed, switching to plan mode" w1)
                     else (Err error, w1)).
  { unfold rw, executeTier, logStep. rewrite bind_emit.
    fold (logged "Calling Claude" w). rewrite (try_err _ _ _ _ _ Hrun).
    destruct (shouldFallbackToPlan error); reflexivity. }
  split; [unfold shouldFallbackToPlan; apply orb_true_iff|].
  split; [intros H; rewrite Hrw, H; reflexivity|].
  split; [intros H; rewrite Hrw, H; reflexivity|].
  split; [intros ->; vm_compute; reflexivity|].
  intros l Hl Hx.
  destruct (applyPatchFromClaude_facts env apiKey model prompt contextText
              repoRoot "single-shot" false (logged "Calling Claude" w))
    as (l0 & Hh & _ & _ & _ & _ & _ & _ & Hex).
  rewrite Hrun in Hh, Hex. cbn [fst snd] in Hh, Hex.
  rewrite Hl in Hh. apply app_inv_head in Hh. subst l0.
  destruct (Hex Hx) as (message & [= ->] & (d & t & -> & _) & _).
  apply fallback_on_invalidPatch.
Qed.

(** The cascade is exhausted: planning starts. *)
Lemma fallback_witness :
  let w1 := snd (applyPatchFromClaude envStale "key" "claude" "Trim x.txt" ""
                   repo "single-shot" false (logged "Calling Claude" start)) in
  executeTier envStale "key" "claude" repo "Trim x.txt" "" (Num 0) [] TIER_1 start
  = runPlanExecute envStale "key" "claude" "Trim x.txt" "" repo (Num 0) [] 4
      (logged "Single-shot failed, switching to plan mode" w1).
Proof.
  intros w1.
  eapply (fallback_iff_recognised_failure envStale "key" "claude" repo
            "Trim x.txt" "" (Num 0) [] start _ w1).
  - vm_compute. reflexivity.
  - vm_compute. reflexivity.
Defined.

(** The service is unreachable: the failure is fatal, nothing is planned. *)
Example unreachable_service_is_fatal :
  let rw := run (executeTier envDown "key" "claude" repo "Trim x.txt" ""
                   (Num 0) [] TIER_1) in
  fst rw = Err "529 overloaded_error" /\
  List.filter is_log (snd rw) = [ELog "Calling Claude"].
Proof. vm_compute. split; reflexivity. Qed.

End FallbackProofs.

(** * Plan execution *)

Module PlanProofs.

Import JS Sys Patch Claude Git Ext Count Sizing CascadeSpec Effects Blocks RunSpec
  PlanSpec EffectFacts BlockFacts StringFacts Substring SubstringFacts Scenario
  PlanScenario.

Section Plan.

Variable env : Env.
Variables apiKey model prompt repoRoot : string.
Variable total : nat.

Lemma planLoop_cons i step rest contextText w :
  planLoop env apiKey model prompt repoRoot total i (step :: rest) contextText w
  = match run_step env apiKey model prompt repoRoot total i step contextText w with
    | (Ok _, w1) =>
        match refresh env repoRoot w1 with
        | (Ok contextText', w2) =>
            planLoop env apiKey model prompt repoRoot total (S i) rest
              contextText' w2
        | (Err error, w2) => (Err error, w2)
        end
    | (Err error, w1) => (Err error, w1)
    end.
Proof.
  cbn [planLoop]. unfold logStep. rewrite bind_emit.
  unfold run_step, refresh, logged, announcement.
  unfold mbind at 1, M_bind at 1.
  destruct (applyPatchFromClaude _ _ _ _ _ _ _ _ _) as [[[]|e] w1]; [|reflexivity].
  rewrite bind_emit. reflexivity.
Qed.

Lemma join_cons_nonempty f r :
  is_empty f = false -> is_empty (join nl (f :: r)) = false.
Proof.
  intros Hf. destruct f as [|c f]; [discriminate|].
  destruct r; reflexivity.
Qed.

Lemma take_filter_head {A} (p : A -> bool) n xs x r :
  take n (List.filter p xs) = x :: r -> p x = true.
Proof.
  intros H.
  assert (Hin : In x (List.filter p xs)).
  { destruct n; [discriminate|].
    destruct (List.filter p xs) as [|y ys]; [discriminate|].
    cbn in H. injection H as -> _. now left. }
  now apply filter_In in Hin as [_ ?].
Qed.

Lemma key_file_read t name :
  key_file env repoRoot t name
  = match read_section env repoRoot t name with
    | Some r => nl +:+ nl +:+ name +:+ ":" +:+ nl +:+ r
    | None => EmptyString
    end.
Proof.
  unfold key_file, read_section.
  destruct (files t !! path_join env repoRoot name) as [c|]; [|reflexivity].
  destruct (Z.leb_spec (Z.of_nat (String.length c)) 4000);
    destruct (Nat.leb_spec (String.length c) 4000); try lia.
  - cbn [nonblank]. destruct (is_empty c); reflexivity.
  - destruct c as [|a c]; [cbn in *; lia|].
    unfold slice0. change (4000 <? 0) with false. cbv iota.
    rewrite Z.min_l by lia. change (Z.to_nat 4000) with 4000%nat.
    destruct (slice_to 4000 (String a c)); reflexivity.
Qed.

Lemma tracked_text t :
  match nonblank (Some (join nl (tracked env repoRoot t))) with
  | Some l => l
  | None => "(no files)"%string
  end
  = match tracked env repoRoot t with
    | [] => "(no files)"%string
    | names => join nl names
    end.
Proof.
  destruct (tracked env repoRoot t) as [|f r] eqn:E; [reflexivity|].
  cbn [nonblank]. rewrite join_cons_nonempty; [reflexivity|].
  unfold tracked in E. destruct (fst (ls_files env repoRoot t)); [|discriminate].
  apply take_filter_head in E. now apply negb_true_iff in E.
Qed.

(** [buildContext] never throws: it returns the context rebuilt from the
    tree it is run in. *)
Lemma buildContext_rebuilt w :
  buildContext env repoRoot w
  = (Ok (rebuilt_context env repoRoot (fs w)),
     mkWorld (snd (ls_files env repoRoot (fs w)))
             (history w ++ [EGit ["ls-files"]%string])).
Proof.
  unfold rebuilt_context. rewrite <- tracked_text, !key_file_read.
  unfold buildContext, getFileList, readTextFile, readFile, try_catch, mbind,
    M_bind, runGit, tracked, ls_files.
  destruct (git_exec env (fs w) repoRoot _) as [[out|e] t];
    cbn [fst snd mret M_ret fs files history]; unfold nonempty;
    fold (read_section env repoRoot t "README.md")
         (read_section env repoRoot t "package.json");
    set (listing := match nonblank (Some _) with Some l => l | None => _ end);
    destruct (read_section env repoRoot t "README.md") as [r1|];
    destruct (read_section env repoRoot t "package.json") as [r2|];
    cbn [app join]; rewrite ?append_assoc, ?append_nil_r; reflexivity.
Qed.

Lemma refresh_rebuilt w1 :
  refresh env repoRoot w1
  = (Ok (rebuilt_context env repoRoot (fs w1)), refreshed env repoRoot w1).
Proof.
  unfold refresh. rewrite buildContext_rebuilt. unfold refreshed, logged.
  cbn [fs history]. rewrite <- app_assoc. reflexivity.
Qed.

Lemma planLoop_in_order steps : forall i contextText w,
  plan_run env apiKey model prompt repoRoot total i steps contextText w
    (planLoop env apiKey model prompt repoRoot total i steps contextText w).
Proof.
  induction steps as [|step rest IH]; intros i contextText w.
  - apply plan_done.
  - rewrite planLoop_cons.
    destruct (run_step _ _ _ _ _ _ _ _ _ w) as [[[]|e] w1] eqn:Hstep.
    + rewrite refresh_rebuilt. eapply plan_step_passes; eauto.
    + now apply plan_step_fails.
Qed.

Lemma announcements_app a b :
  announcements (a ++ b) = announcements a ++ announcements b.
Proof. apply flat_map_app. Qed.

Lemma announcements_quiet l :
  forallb not_log l = true -> announcements l = [].
Proof.
  induction l as [|e l IH]; [reflexivity|]. cbn [forallb].
  intros H. apply andb_true_iff in H as [He Hl].
  change (e :: l) with ([e] ++ l). rewrite announcements_app, (IH Hl).
  destruct e; try discriminate He; reflexivity.
Qed.

Lemma announcement_found i :
  announcements [ELog (announcement i total)] = [announcement i total].
Proof.
  unfold announcements, announcement. cbn [flat_map].
  rewrite (startsWith_app "Calling Claude (" "Calling Claude (");
    [reflexivity | vm_compute; reflexivity].
Qed.

Lemma quiet_step i step contextText w r w1 :
  run_step env apiKey model prompt repoRoot total i step contextText w = (r, w1) ->
  exists l, history w1 = history w ++ [ELog (announcement (i + 1) total)] ++ l /\
            announcements l = [].
Proof.
  unfold run_step. intros H.
  match type of H with ?m _ = _ =>
    assert (E : emits not_log m)
      by (apply emits_applyPatchFromClaude; intros; reflexivity)
  end.
  destruct (emits_run not_log _ _ _ _ E H) as (l & Hl & Hq).
  exists l. cbn [logged history] in Hl. rewrite Hl, <- app_assoc.
  split; [reflexivity | now apply announcements_quiet].
Qed.

Lemma quiet_refresh w1 r w2 :
  refresh env repoRoot w1 = (r, w2) ->
  exists l, history w2 = history w1 ++ l /\ announcements l = [].
Proof.
  unfold refresh. intros H.
  assert (E : emits not_log (buildContext env repoRoot))
    by (apply emits_buildContext; intros; reflexivity).
  destruct (emits_run not_log _ _ _ _ E H) as (l & Hl & Hq).
  exists (ELog "Refreshing context after step" :: l).
  cbn [logged history] in Hl. rewrite Hl, <- app_assoc.
  split; [reflexivity|].
  change (announcements (ELog "Refreshing context after step" :: l))
    with (announcements l).
  now apply announcements_quiet.
Qed.

Lemma expected_next i j :
  announcement (i + 1) total :: expected_announcements total (S i) j
  = expected_announcements total i (S j).
Proof.
  unfold expected_announcements. cbn [seq map].
  rewrite Nat.add_0_r. f_equal.
  rewrite <- seq_shift, map_map. apply map_ext. intros k.
  f_equal. lia.
Qed.

Lemma planLoop_announcements steps : forall i contextText w,
  let rw := planLoop env apiKey model prompt repoRoot total i steps contextText w in
  exists l j,
    history (snd rw) = history w ++ l /\
    (j <= List.length steps)%nat /\
    announcements l = expected_announcements total i j /\
    (fst rw = Ok tt -> j = List.length steps).
Proof.
  induction steps as [|step rest IH]; intros i contextText w rw.
  - exists [], O. cbn. rewrite app_nil_r. auto.
  - unfold rw. rewrite planLoop_cons.
    destruct (run_step _ _ _ _ _ _ _ _ _ w) as [[[]|e] w1] eqn:Hstep;
      destruct (quiet_step _ _ _ _ _ _ Hstep) as (l1 & H1 & Q1).
    + destruct (refresh env repoRoot w1) as [[c|e] w2] eqn:Href;
        destruct (quiet_refresh _ _ _ Href) as (l2 & H2 & Q2).
      * destruct (IH (S i) c w2) as (l3 & j & H3 & Hj & Q3 & Hall).
        exists ([ELog (announcement (i + 1) total)] ++ l1 ++ l2 ++ l3), (S j).
        split; [rewrite H3, H2, H1, <- !app_assoc; reflexivity|].
        split; [cbn [List.length]; lia|].
        split; [|intros Hok; cbn [List.length]; f_equal; auto].
        rewrite !announcements_app, announcement_found, Q1, Q2, Q3.
        apply expected_next.
      * exists ([ELog (announcement (i + 1) total)] ++ l1 ++ l2), 1%nat.
        cbn [fst snd]. split; [rewrite H2, H1, <- !app_assoc; reflexivity|].
        split; [cbn [List.length]; lia|]. split; [|discriminate].
        rewrite !announcements_app, announcement_found, Q1, Q2.
        unfold expected_announcements. cbn. rewrite Nat.add_0_r. reflexivity.
    + exists ([ELog (announcement (i + 1) total)] ++ l1), 1%nat.
      cbn [fst snd]. split; [exact H1|].
      split; [cbn [List.length]; lia|]. split; [|discriminate].
      rewrite !announcements_app, announcement_found, Q1.
      unfold expected_announcements. cbn. rewrite Nat.add_0_r. reflexivity.
Qed.

(** A step opens with its announcement and with the request for a patch,
    which carries the context the step was given. *)
Lemma step_opening i step contextText w :
  let rw := run_step env apiKey model prompt repoRoot total i step contextText w in
  exists l,
    history (snd rw)
    = history w ++
      [ELog (announcement (i + 1) total);
       patch_request model
         (buildStepPrompt prompt (title step) (instruction step) (i + 1) total)
         contextText] ++ l /\
    announcements l = [].
Proof.
  intros rw. unfold rw, run_step, applyPatchFromClaude.
  set (w0 := logged _ w). set (p := buildStepPrompt _ _ _ _ _).
  destruct (generatePatchWithClaude env apiKey model p contextText w0)
    as [[patch|e] w1] eqn:G.
  - rewrite (bind_ok _ _ _ _ _ G).
    match goal with |- context [(?m ≫= ?k) w1] =>
      assert (E : emits not_log (m ≫= k))
    end.
    { apply emits_bind; [apply emits_normalize; intros; reflexivity|].
      intros np. destruct (is_empty (trim np)).
      - apply (emits_ret not_log tt).
      - destruct (negb (isUnifiedDiff np)).
        + apply emits_bind; [apply emits_nonPatch; intros; reflexivity|].
          intros []; [apply emits_ret | apply emits_throw].
        + apply emits_applyDiff; intros; reflexivity. }
    destruct (E w1) as (l & Hl & Hq). exists l. split.
    + rewrite Hl.
      unfold generatePatchWithClaude, messages_create, mbind, M_bind in G.
      destruct (api env _ _ _ _ _ _) in G; cbn in G; injection G as _ <-;
        unfold w0, logged; cbn [history]; rewrite <- !app_assoc; reflexivity.
    + now apply announcements_quiet.
  - rewrite (bind_err _ _ _ _ _ G). exists []. split; [|reflexivity].
    unfold generatePatchWithClaude, messages_create, mbind, M_bind in G.
    destruct (api env _ _ _ _ _ _) in G; cbn in G; [discriminate|].
    injection G as _ <-. unfold w0, logged. cbn [snd history].
    rewrite <- !app_assoc. reflexivity.
Qed.

Lemma planLoop_trace steps : forall i contextText w,
  let rw := planLoop env apiKey model prompt repoRoot total i steps contextText w in
  fst rw = Ok tt ->
  exists l, history (snd rw) = history w ++ l /\
            steps_trace model prompt total i steps l.
Proof.
  induction steps as [|step rest IH]; intros i contextText w rw.
  - intros _. exists []. cbn. now rewrite app_nil_r.
  - unfold rw. rewrite planLoop_cons.
    pose proof (step_opening i step contextText w) as Hop. cbn zeta in Hop.
    destruct (run_step _ _ _ _ _ _ _ _ _ w) as [[[]|e] w1] eqn:Hstep;
      [|discriminate].
    destruct Hop as (l1 & H1 & Q1). cbn [snd] in H1.
    rewrite refresh_rebuilt. intros Hok.
    destruct (IH (S i) _ _ Hok) as (l3 & H3 & T3).
    eexists. split.
    + rewrite H3. unfold refreshed. cbn [history]. rewrite H1.
      rewrite <- !app_assoc. cbn [app]. reflexivity.
    + cbn [steps_trace]. exists contextText.
      exists (l1 ++ [ELog "Refreshing context after step";
                     EGit ["ls-files"]%string]), l3.
      split; [rewrite <- !app_assoc; reflexivity|]. split; [|exact T3].
      rewrite announcements_app, Q1. reflexivity.
Qed.

Lemma exhausted_step_aborts i step rest contextText w l :
  let rw := run_step env apiKey model prompt repoRoot total i step contextText w in
  history (snd rw) = history (logged (announcement (i + 1) total) w) ++ l ->
  exhausted (ghost l) = true ->
  exists message,
    fst rw = Err message /\
    planLoop env apiKey model prompt repoRoot total i (step :: rest) contextText w
    = rw.
Proof.
  intros rw Hl Hx. rewrite planLoop_cons. fold rw.
  unfold rw, run_step in *.
  match goal with |- context [applyPatchFromClaude ?e ?k ?m ?p ?c ?r ?lb ?a ?w0] =>
    destruct (applyPatchFromClaude_facts e k m p c r lb a w0)
      as (l0 & Hh & _ & _ & _ & _ & _ & _ & Hex);
    destruct (applyPatchFromClaude e k m p c r lb a w0) as [res w1]
  end.
  cbn [fst snd] in *. rewrite Hl in Hh. apply app_inv_head in Hh. subst l0.
  destruct (Hex Hx) as (message & -> & _). exists message. split; reflexivity.
Qed.

End Plan.

Lemma generated_plan_nonempty env apiKey model prompt context maxSteps
    targetCount existingFiles w plan w1 :
  generatePlanWithClaude env apiKey model prompt context maxSteps targetCount
    existingFiles w = (Ok plan, w1) ->
  plan <> [].
Proof.
  unfold generatePlanWithClaude, mbind, M_bind, messages_create.
  destruct (api env _ _ _ _ _ _) as [text|e]; [|discriminate].
  destruct (parsePlanJson env (trim text)) as [|s r]; [discriminate|].
  intros [= <- _]. discriminate.
Qed.

(** [runPlanExecute] runs the loop on the plan it was given, from the first
    step on, with the context it was called with. *)
Lemma runPlanExecute_planned env apiKey model prompt contextText repoRoot
    targetCount existingFiles maxSteps w plan w1 :
  generatePlanWithClaude env apiKey model prompt contextText maxSteps
    targetCount existingFiles (logged "Planning execution" w) = (Ok plan, w1) ->
  runPlanExecute env apiKey model prompt contextText repoRoot targetCount
    existingFiles maxSteps w
  = planLoop env apiKey model prompt repoRoot (List.length plan) O plan
      contextText (logged ("Plan steps:" +:+ nl +:+ planListing plan) w1).
Proof.
  intros G. pose proof (generated_plan_nonempty _ _ _ _ _ _ _ _ _ _ _ G) as Hne.
  unfold runPlanExecute, logStep. rewrite bind_emit.
  change (mkWorld (fs w) (history w ++ [ELog "Planning execution"]))
    with (logged "Planning execution" w).
  rewrite (bind_ok _ _ _ _ _ G).
  destruct plan as [|s0 rest]; [contradiction|].
  rewrite bind_emit. reflexivity.
Qed.

Lemma runPlanExecute_unplanned env apiKey model prompt contextText repoRoot
    targetCount existingFiles maxSteps w error w1 :
  generatePlanWithClaude env apiKey model prompt contextText maxSteps
    targetCount existingFiles (logged "Planning execution" w) = (Err error, w1) ->
  runPlanExecute env apiKey model prompt contextText repoRoot targetCount
    existingFiles maxSteps w = (Err error, w1).
Proof.
  intros G. unfold runPlanExecute, logStep. rewrite bind_emit.
  change (mkWorld (fs w) (history w ++ [ELog "Planning execution"]))
    with (logged "Planning execution" w).
  now rewrite (bind_err _ _ _ _ _ G).
Qed.

Lemma sub_join x l : In x l -> sub x (join nl l).
Proof.
  induction l as [|y l IH]; [intros []|].
  intros [->|Hin].
  - destruct l as [|z l]; [apply sub_refl | apply sub_prefix].
  - destruct l as [|z l]; [destruct Hin|].
    destruct (IH Hin) as (a & b & E).
    exists (y +:+ nl +:+ a), b. cbn [join] in *. rewrite E.
    now rewrite !append_assoc.
Qed.

Lemma key_file_whole env repoRoot t name content :
  files t !! path_join env repoRoot name = Some content ->
  content <> EmptyString -> (String.length content <= 4000)%nat ->
  key_file env repoRoot t name = nl +:+ nl +:+ name +:+ ":" +:+ nl +:+ content.
Proof.
  intros Hf Hne Hlen. unfold key_file. rewrite Hf.
  destruct content as [|c r]; [contradiction|]. cbn [is_empty].
  destruct (Nat.leb_spec (String.length (String c r)) 4000); [reflexivity | lia].
Qed.

(** What the rebuilt context holds of the tree: the heading, every name of
    the list of tracked files, and the two key files in full when they
    have at most 4000 characters. *)
Lemma rebuilt_context_holds env repoRoot t :
  startsWith ("Tracked files (first 200):" +:+ nl)
    (rebuilt_context env repoRoot t) = true /\
  (forall name, In name (tracked env repoRoot t) ->
     sub name (rebuilt_context env repoRoot t)) /\
  (forall name content,
     In name ["README.md"; "package.json"]%string ->
     files (snd (ls_files env repoRoot t)) !! path_join env repoRoot name
     = Some content ->
     content <> EmptyString -> (String.length content <= 4000)%nat ->
     sub (name +:+ ":" +:+ nl +:+ content) (rebuilt_context env repoRoot t)).
Proof.
  unfold rebuilt_context.
  set (k1 := key_file env repoRoot _ "README.md").
  set (k2 := key_file env repoRoot _ "package.json").
  set (H := "Tracked files (first 200):"%string).
  split; [|split].
  - rewrite <- append_assoc. apply startsWith_app. reflexivity.
  - intros name Hin. destruct (tracked env repoRoot t) as [|f r] eqn:E;
      [destruct Hin|].
    eapply sub_trans; [apply (sub_join _ _ Hin)|].
    exists (H +:+ nl), (k1 +:+ k2). now rewrite !append_assoc.
  - intros name content Hin Hf Hne Hlen.
    pose proof (key_file_whole _ _ _ _ _ Hf Hne Hlen) as K.
    set (L := match tracked env repoRoot t with [] => _ | _ => _ end).
    destruct Hin as [<-|[<-|[]]].
    + unfold k1. rewrite K. exists (H +:+ nl +:+ L +:+ nl +:+ nl), k2.
      now rewrite !append_assoc.
    + unfold k2. rewrite K.
      exists (H +:+ nl +:+ L +:+ k1 +:+ nl +:+ nl), EmptyString.
      now rewrite !append_assoc, ?append_nil_r.
Qed.

(** C5. [runPlanExecute] runs the loop on the steps of the plan it was
    given, from the first one on. The loop runs the steps one after the
    other in plan order, each announced by its number. A step opens with
    the request for a patch, which carries the context the step was given;
    the first step is given the context of the call, every later one the
    context rebuilt from the tree its predecessor left: the heading, the
    names git lists for that tree and the files [README.md] and
    [package.json] as they are in that tree. The first error ends the loop
    in the world in which it was raised, with nothing undone and no later
    step announced; when the cascade of a step is exhausted, the loop
    returns that step's error. In the plan of three steps whose first step
    creates [README.md] and whose second step is exhausted, steps 1 and 2
    are announced, the request of step 2 holds the new [README.md], the
    file is still in the tree at the end and step 3 is never announced. *)
Theorem plan_steps_in_order env apiKey model prompt repoRoot :
  (forall contextText targetCount existingFiles maxSteps w,
     let rw := runPlanExecute env apiKey model prompt contextText repoRoot
                 targetCount existingFiles maxSteps w in
     let planned := generatePlanWithClaude env apiKey model prompt contextText
                      maxSteps targetCount existingFiles
                      (logged "Planning execution" w) in
     (forall error w1, planned = (Err error, w1) -> rw = (Err error, w1)) /\
     (forall plan w1, planned = (Ok plan, w1) ->
        plan <> [] /\
        plan_run env apiKey model prompt repoRoot (List.length plan) O plan
          contextText (logged ("Plan steps:" +:+ nl +:+ planListing plan) w1)
          rw)) /\
  (forall total steps i contextText w,
     let rw := planLoop env apiKey model prompt repoRoot total i steps
                 contextText w in
     plan_run env apiKey model prompt repoRoot total i steps contextText w rw /\
     exists l j,
       history (snd rw) = history w ++ l /\
       (j <= List.length steps)%nat /\
       announcements l = expected_announcements total i j /\
       (fst rw = Ok tt -> j = List.length steps)) /\
  (forall total i step contextText w,
     let rw := run_step env apiKey model prompt repoRoot total i step
                 contextText w in
     exists l,
       history (snd rw)
       = history w ++
         [ELog (announcement (i + 1) total);
          patch_request model
            (buildStepPrompt prompt (title step) (instruction step) (i + 1)
               total) contextText] ++ l /\
       announcements l = []) /\
  (forall t,
     startsWith ("Tracked files (first 200):" +:+ nl)
       (rebuilt_context env repoRoot t) = true /\
     (forall name, In name (tracked env repoRoot t) ->
        sub name (rebuilt_context env repoRoot t)) /\
     (forall name content,
        In name ["README.md"; "package.json"]%string ->
        files (snd (ls_files env repoRoot t)) !! path_join env repoRoot name
        = Some content ->
        content <> EmptyString -> (String.length content <= 4000)%nat ->
        sub (name +:+ ":" +:+ nl +:+ content)
          (rebuilt_context env repoRoot t))) /\
  (forall total i step rest contextText w l,
     let rw := run_step env apiKey model prompt repoRoot total i step
                 contextText w in
     history (snd rw) = history (logged (announcement (i + 1) total) w) ++ l ->
     exhausted (ghost l) = true ->
     exists message,
       fst rw = Err message /\
       planLoop env apiKey model prompt repoRoot total i (step :: rest)
         contextText w = rw) /\
  (let rw := runPlanExecute envReadme "key" "claude" "Do three things"
               startContext repo (Num 0) [] 4 start in
   fst rw =
     Err (invalidPatchMessage "/repo/.llm-pr-assistant.step-2.patch"
            ("Git command failed: git apply --check " +:+
             "/repo/.llm-pr-assistant.step-2.patch" +:+ nl +:+
             "error: patch does not apply")
            ("Git command failed: git apply --3way --whitespace=fix " +:+
             "/repo/.llm-pr-assistant.step-2.patch" +:+ nl +:+
             "error: patch does not apply")) /\
   announcements (history (snd rw)) =
     ["Calling Claude (1/3)"; "Calling Claude (2/3)"]%string /\
   files (fs (snd rw)) !! "/repo/README.md"%string = Some ("# Demo" +:+ nl) /\
   patch_requests (history (snd rw)) =
     [patch_request "claude"
        (buildStepPrompt "Do three things" "Create README.md"
           "Add the file README.md" 1 3)
        ("Tracked files (first 200):" +:+ nl +:+ "a.txt");
      patch_request "claude"
        (buildStepPrompt "Do three things" "Trim x.txt"
           "Remove the first line of x.txt" 2 3)
        ("Tracked files (first 200):" +:+ nl +:+ "a.txt" +:+ nl +:+ nl +:+
         "README.md:" +:+ nl +:+ "# Demo" +:+ nl)]).
Proof.
  split; [|split; [|split; [|split; [|split]]]].
  - intros contextText targetCount existingFiles maxSteps w rw planned. split.
    + intros error w1 G. now apply runPlanExecute_unplanned.
    + intros plan w1 G. split; [exact (generated_plan_nonempty _ _ _ _ _ _ _ _ _ _ _ G)|].
      unfold rw. rewrite (runPlanExecute_planned _ _ _ _ _ _ _ _ _ _ _ _ G).
      apply planLoop_in_order.
  - intros total steps i contextText w rw. split.
    + apply planLoop_in_order.
    + apply planLoop_announcements.
  - intros total i step contextText w. apply step_opening.
  - intros t. apply rebuilt_context_holds.
  - intros total i step rest contextText w l rw. apply exhausted_step_aborts.
  - vm_compute. repeat split; reflexivity.
Qed.

End PlanProofs.

(** * Answers that are not patches *)

Module NonDiffProofs.

Import JS Sys Patch Claude Git Ext RunSpec BlockFacts StringFacts Scenario.

Section NonDiff.

Variable env : Env.

(** An answer that is neither blank nor a unified diff is written to the
    path found in the prompt, fences stripped and a newline appended; with
    no path in the prompt, or nothing left of the answer, the step fails. *)
Lemma non_diff_response_written
    apiKey model prompt contextText repoRoot stepLabel allowEmpty
    w patch w1 normalizedPatch w2 :
  generatePatchWithClaude env apiKey model prompt contextText w = (Ok patch, w1) ->
  normalizePatchForNewFile env
    (ensureTrailingNewline (ensureDiffGitHeader patch)) repoRoot w1
  = (Ok normalizedPatch, w2) ->
  is_empty (trim normalizedPatch) = false ->
  isUnifiedDiff normalizedPatch = false ->
  let content := trim (stripCodeFences normalizedPatch) in
  applyPatchFromClaude env apiKey model prompt contextText repoRoot stepLabel
    allowEmpty w
  = match (if is_empty content then None else extractFilePathFromPrompt prompt) with
    | Some target =>
        let fullPath := path_join env repoRoot target in
        (Ok tt,
         mkWorld
           (mkFS (<[fullPath := content +:+ nl]> (files (fs w2)))
                 ({[ path_dirname env fullPath ]} ∪ dirs (fs w2)))
           (history w2 ++ [EMkdir (path_dirname env fullPath);
                           EWriteFile fullPath (content +:+ nl)]))
    | None => (Err notAPatch, w2)
    end.
Proof.
  intros Hgen Hnorm Hblank Hdiff content.
  unfold applyPatchFromClaude.
  rewrite (bind_ok _ _ _ _ _ Hgen), (bind_ok _ _ _ _ _ Hnorm), Hblank, Hdiff.
  cbn [negb]. unfold writeFileFromNonPatchResponse. fold content.
  destruct (is_empty content); [reflexivity|].
  destruct (extractFilePathFromPrompt prompt) as [target|]; [|reflexivity].
  rewrite bind_assoc, bind_mkdir, bind_assoc, bind_writeFile.
  cbn [fs history files dirs]. rewrite <- app_assoc. reflexivity.
Qed.

End NonDiff.

(** C10, at the prompt "Create src/App.tsx exporting a counter" and the
    answer "export default 1;": the path taken from the prompt is
    src/App.ts, the answer is written there, and nothing is written to
    src/App.tsx. *)
Theorem non_diff_response_path_cut_short :
  let prompt := "Create src/App.tsx exporting a counter"%string in
  let rw := applyPatchFromClaude envBody "key" "claude" prompt "" repo
              "single-shot" false start in
  extractFilePathFromPrompt prompt = Some "src/App.ts"%string /\
  fst rw = Ok tt /\
  files (fs (snd rw)) !! "/repo/src/App.ts"%string
  = Some ("export default 1;" +:+ nl) /\
  files (fs (snd rw)) !! "/repo/src/App.tsx"%string = None.
Proof. vm_compute. repeat split; reflexivity. Qed.

End NonDiffProofs.

(** * More of the code: helpers, probes and wrappers *)

Module TextFacts.

Import Patch Claude Git Ext Substring StringFacts.

Lemma length_append (a b : string) :
  String.length (a +:+ b) = (String.length a + String.length b)%nat.
Proof.
  induction a as [|c a IH]; [reflexivity|].
  change (String c a +:+ b) with (String c (a +:+ b)). cbn [String.length].
  now rewrite IH.
Qed.

Lemma length_slice_to n s :
  String.length (slice_to n s) = Nat.min n (String.length s).
Proof.
  revert s; induction n as [|n IH]; intros [|c r]; cbn [slice_to String.length];
    try reflexivity.
  now rewrite IH.
Qed.

Lemma startsWith_refl_app p s : startsWith p (p +:+ s) = true.
Proof.
  induction p as [|c p IH]; [reflexivity|].
  change (String c p +:+ s) with (String c (p +:+ s)). cbn [startsWith].
  now rewrite Ascii.eqb_refl, IH.
Qed.

Lemma slice_from_app a b : slice_from (String.length a) (a +:+ b) = b.
Proof. induction a as [|c a IH]; [reflexivity | exact IH]. Qed.

Lemma slice_to_app a b : slice_to (String.length a) (a +:+ b) = a.
Proof.
  induction a as [|c a IH]; [now destruct b|].
  change (String c a +:+ b) with (String c (a +:+ b)).
  cbn [String.length slice_to]. now rewrite IH.
Qed.

Lemma startsWith_slice_to n s : startsWith (slice_to n s) s = true.
Proof.
  revert s; induction n as [|n IH]; intros [|c r]; cbn [slice_to startsWith];
    try reflexivity.
  now rewrite Ascii.eqb_refl, IH.
Qed.

Lemma slice_to_from n s : slice_to n s +:+ slice_from n s = s.
Proof.
  revert s; induction n as [|n IH]; intros [|c r]; try reflexivity.
  cbn [slice_to slice_from].
  change (String c (slice_to n r) +:+ slice_from n r)
    with (String c (slice_to n r +:+ slice_from n r)).
  now rewrite IH.
Qed.

(** What [trimStart] leaves is empty or starts with a character that is
    not white space. *)
Lemma trimStart_head s :
  trimStart s = EmptyString \/
  exists c r, trimStart s = String c r /\ is_space c = false.
Proof.
  induction s as [|c r IH]; [now left|]. cbn [trimStart].
  destruct (is_space c) eqn:E; [exact IH|]. right. now exists c, r.
Qed.

Lemma trimStart_fixed c r : is_space c = false -> trimStart (String c r) = String c r.
Proof. intros H. cbn [trimStart]. now rewrite H. Qed.

Lemma trimEnd_cons c r :
  is_space c = false -> trimEnd (String c r) = String c (trimEnd r).
Proof. intros H. cbn [trimEnd]. now rewrite H. Qed.

Lemma trimEnd_idem s : trimEnd (trimEnd s) = trimEnd s.
Proof.
  induction s as [|c r IH]; [reflexivity|]. cbn [trimEnd].
  destruct (is_space c && is_empty (trimEnd r)) eqn:E; [reflexivity|].
  cbn [trimEnd]. now rewrite IH, E.
Qed.

Lemma trim_idem s : trim (trim s) = trim s.
Proof.
  unfold trim. destruct (trimStart_head s) as [->|(c & r & -> & Hc)]; [reflexivity|].
  rewrite (trimEnd_cons _ _ Hc), (trimStart_fixed _ _ Hc), <- (trimEnd_cons _ _ Hc).
  apply trimEnd_idem.
Qed.

(** A prefix that does not end in white space stays in front. *)
Lemma trimEnd_keep p s :
  p <> EmptyString -> trimEnd p = p -> trimEnd (p +:+ s) = p +:+ trimEnd s.
Proof.
  induction p as [|c p IH]; [contradiction|]. intros _ Hp.
  change (String c p +:+ s) with (String c (p +:+ s)).
  change (String c p +:+ trimEnd s) with (String c (p +:+ trimEnd s)).
  cbn [trimEnd] in *.
  destruct p as [|d p].
  - cbn [trimEnd is_empty] in Hp. rewrite andb_true_r in Hp.
    destruct (is_space c); [discriminate|]. reflexivity.
  - destruct (is_space c && is_empty (trimEnd (String d p))); [discriminate|].
    injection Hp as Hp. rewrite IH by (discriminate || assumption).
    change (String d p +:+ trimEnd s) with (String d (p +:+ trimEnd s)).
    cbn [is_empty]. now rewrite andb_false_r.
Qed.

Lemma trim_keep c p s :
  is_space c = false -> trimEnd (String c p) = String c p ->
  trim (String c p +:+ s) = String c p +:+ trimEnd s.
Proof.
  intros Hc Hp. unfold trim.
  change (String c p +:+ s) with (String c (p +:+ s)).
  rewrite (trimStart_fixed _ _ Hc).
  change (String c (p +:+ s)) with (String c p +:+ s).
  now apply trimEnd_keep.
Qed.

Lemma split_char_nonempty sep s : split_char sep s <> [].
Proof.
  destruct s as [|c r]; [discriminate|]. cbn [split_char].
  destruct (Ascii.eqb c sep); [discriminate|].
  destruct (split_char sep r); discriminate.
Qed.

(** A prefix without the separator belongs to the first part. *)
Lemma split_char_prefix sep p u :
  all_chars (fun c => negb (Ascii.eqb c sep)) p = true ->
  exists l ls, split_char sep u = l :: ls /\
               split_char sep (p +:+ u) = (p +:+ l) :: ls.
Proof.
  induction p as [|c p IH]; intros Hp.
  - destruct (split_char sep u) as [|l ls] eqn:E;
      [now apply split_char_nonempty in E|]. now exists l, ls.
  - cbn [all_chars] in Hp. apply andb_true_iff in Hp as [Hc Hp].
    destruct (IH Hp) as (l & ls & Hu & Hpu). exists l, ls. split; [exact Hu|].
    change (String c p +:+ u) with (String c (p +:+ u)). cbn [split_char].
    apply negb_true_iff in Hc. now rewrite Hc, Hpu.
Qed.

Lemma split_char_single sep s :
  all_chars (fun c => negb (Ascii.eqb c sep)) s = true -> split_char sep s = [s].
Proof.
  induction s as [|c r IH]; [reflexivity|]. cbn [all_chars split_char].
  intros H. apply andb_true_iff in H as [Hc Hr]. apply negb_true_iff in Hc.
  now rewrite Hc, IH.
Qed.

Lemma all_chars_trimEnd f s : all_chars f s = true -> all_chars f (trimEnd s) = true.
Proof.
  induction s as [|c r IH]; [reflexivity|]. cbn [all_chars trimEnd].
  intros H. apply andb_true_iff in H as [Hc Hr].
  destruct (is_space c && is_empty (trimEnd r)); [reflexivity|].
  cbn [all_chars]. now rewrite Hc, IH.
Qed.

Lemma split_char_parts sep s :
  Forall (fun part => all_chars (fun c => negb (Ascii.eqb c sep)) part = true)
         (split_char sep s).
Proof.
  induction s as [|c r IH]; [repeat constructor|]. cbn [split_char].
  destruct (Ascii.eqb c sep) eqn:E.
  - constructor; [reflexivity | exact IH].
  - destruct (split_char sep r) as [|l ls].
    + repeat constructor. cbn [all_chars]. now rewrite E.
    + inversion IH; subst. constructor; [|assumption].
      cbn [all_chars]. rewrite E. assumption.
Qed.

Lemma trimEnd_suffix a b : trimEnd (a +:+ b) = a +:+ b -> trimEnd b = b.
Proof.
  induction a as [|c a IH]; [trivial|].
  change (String c a +:+ b) with (String c (a +:+ b)). cbn [trimEnd].
  destruct (is_space c && is_empty (trimEnd (a +:+ b))); [discriminate|].
  intros [= H]. now apply IH.
Qed.

Lemma trimEnd_trim s : trimEnd (trim s) = trim s.
Proof. apply trimEnd_idem. Qed.

Lemma from_first_spec needle s rest :
  from_first needle s = Some rest ->
  startsWith needle rest = true /\ exists before, s = before +:+ rest.
Proof.
  induction s as [|c r IH]; cbn [from_first].
  - destruct (startsWith needle EmptyString) eqn:E; [|discriminate].
    intros [= <-]. split; [exact E | now exists EmptyString].
  - destruct (startsWith needle (String c r)) eqn:E.
    + intros [= <-]. split; [exact E | now exists EmptyString].
    + intros H. destruct (IH H) as (Hs & before & ->).
      split; [exact Hs | now exists (String c before)].
Qed.

Lemma from_first_found needle s :
  includes needle s = true -> exists rest, from_first needle s = Some rest.
Proof.
  induction s as [|c r IH]; cbn [includes from_first].
  - rewrite orb_false_r. intros ->. now exists EmptyString.
  - destruct (startsWith needle (String c r)); [now exists (String c r)|].
    cbn [orb]. exact IH.
Qed.

End TextFacts.

Module SetupProofs.

Import Patch Claude Git Ext Substring StringFacts.

Import Setup TextFacts.

(** The text that [truncate] of [extension.ts] returns for a bound of at
    least 3 is never longer than the bound; a text within the bound is
    returned as it is, a longer one ends in three dots. *)
Theorem truncate_within_bound value maxLength :
  3 <= maxLength ->
  Z.of_nat (String.length (Setup.truncate value maxLength)) <= maxLength /\
  (Z.of_nat (String.length value) <= maxLength ->
   Setup.truncate value maxLength = value) /\
  (maxLength < Z.of_nat (String.length value) ->
   Setup.truncate value maxLength
   = slice_to (Z.to_nat (maxLength - 3)) value +:+ "...").
Proof.
  intros Hm. unfold Setup.truncate, slice0.
  destruct (Z.of_nat (String.length value) <=? maxLength) eqn:E.
  - apply Z.leb_le in E. split; [lia|]. split; [reflexivity | intros; lia].
  - apply Z.leb_gt in E.
    destruct (maxLength - 3 <? 0) eqn:E3; [apply Z.ltb_lt in E3; lia|].
    rewrite Z.min_l by lia.
    split; [|split; [intros; lia | reflexivity]].
    rewrite length_append, length_slice_to. cbn [String.length]. lia.
Qed.

Lemma truncate_witness :
  Z.of_nat (String.length
              (Setup.truncate "Rename the helper in every module of the project" 20))
  <= 20.
Proof.
  apply (truncate_within_bound _ 20). lia.
Defined.

(** The text that [truncate] of [claude.ts] returns is at most 16
    characters longer than the bound and starts with the first [maxLength]
    characters of the value. *)
Theorem claude_truncate_bounded value maxLength :
  0 <= maxLength ->
  Z.of_nat (String.length (Claude.truncate value maxLength)) <= maxLength + 16 /\
  startsWith (slice_to (Z.to_nat maxLength) value)
    (Claude.truncate value maxLength) = true.
Proof.
  intros Hm. unfold Claude.truncate.
  destruct (Z.of_nat (String.length value) <=? maxLength) eqn:E.
  - apply Z.leb_le in E. split; [lia | apply startsWith_slice_to].
  - apply Z.leb_gt in E. unfold slice0.
    destruct (Z.ltb_spec maxLength 0); [lia|]. rewrite Z.min_l by lia.
    split; [|apply startsWith_refl_app].
    rewrite !length_append, length_slice_to. unfold nl. cbn [String.length]. lia.
Qed.

Lemma claude_truncate_witness :
  Z.of_nat (String.length (Claude.truncate "a context of some length" 10)) <= 26 /\
  startsWith "a context " (Claude.truncate "a context of some length" 10) = true.
Proof.
  apply (claude_truncate_bounded "a context of some length" 10). lia.
Defined.

(** Whatever the error, [toUserErrorMessage] has something to show: its
    result is never the empty string. *)
Theorem toUserErrorMessage_nonempty raw :
  is_empty (toUserErrorMessage raw) = false.
Proof.
  unfold toUserErrorMessage. destruct raw as [|c r]; cbn [is_empty];
    repeat match goal with
           | |- context [if ?b then _ else _] => destruct b; [reflexivity|]
           end;
    reflexivity.
Qed.

End SetupProofs.

Module SlugProofs.

Import Patch Claude Git Ext Substring StringFacts.

Import Setup SlugSpec TextFacts SubstringFacts.

Lemma segment_le s : (segment s <= String.length s)%nat.
Proof.
  induction s as [|c r IH]; cbn [segment String.length]; [lia|].
  destruct (Ascii.eqb c "/"); lia.
Qed.

Lemma slash_free_cons c r :
  slash_free (String c r) <-> Ascii.eqb c "/" = false /\ slash_free r.
Proof.
  unfold slash_free. cbn [segment String.length].
  destruct (Ascii.eqb c "/"); split.
  - discriminate.
  - intros [? _]. discriminate.
  - intros H. split; [reflexivity | lia].
  - intros [_ H]. lia.
Qed.

Lemma segment_app a b :
  slash_free a -> segment (a +:+ String "/" b) = String.length a.
Proof.
  induction a as [|c a IH]; intros H; [reflexivity|].
  apply slash_free_cons in H as [Hc Ha].
  change (String c a +:+ String "/" b) with (String c (a +:+ String "/" b)).
  cbn [segment String.length]. rewrite Hc, IH by assumption. reflexivity.
Qed.

Lemma slash_free_app a b : slash_free a -> slash_free b -> slash_free (a +:+ b).
Proof.
  induction a as [|c a IH]; intros Ha Hb; [exact Hb|].
  apply slash_free_cons in Ha as [Hc Ha].
  change (String c a +:+ b) with (String c (a +:+ b)).
  apply slash_free_cons. auto.
Qed.

Lemma slash_free_prefix s : slash_free (slice_to (segment s) s).
Proof.
  induction s as [|c r IH]; [reflexivity|].
  cbn [segment]. destruct (Ascii.eqb c "/") eqn:E; [reflexivity|].
  cbn [slice_to]. apply slash_free_cons. auto.
Qed.

Lemma after_segment s c r :
  slice_from (segment s) s = String c r -> c = "/"%char.
Proof.
  induction s as [|a s IH]; [discriminate|].
  cbn [segment]. destruct (Ascii.eqb a "/") eqn:E.
  - cbn [slice_from]. intros [= -> _]. now apply Ascii.eqb_eq.
  - cbn [slice_from]. exact IH.
Qed.

(** A slug is two names joined by one slash. *)
Lemma isRepoSlug_join a b :
  name_part a -> name_part b -> isRepoSlug (a +:+ "/" +:+ b) = true.
Proof.
  intros [Ha Fa] [Hb Fb]. unfold isRepoSlug.
  change (a +:+ "/" +:+ b) with (a +:+ String "/" b).
  rewrite segment_app, slice_from_app by assumption.
  rewrite Fb, Nat.eqb_refl.
  destruct a; [contradiction|]. destruct b; [contradiction|]. reflexivity.
Qed.

Lemma isRepoSlug_parts value :
  isRepoSlug value = true ->
  exists a b, value = a +:+ "/" +:+ b /\ name_part a /\ name_part b.
Proof.
  unfold isRepoSlug. intros H. apply andb_true_iff in H as [Hk H].
  destruct (slice_from (segment value) value) as [|c r] eqn:E; [discriminate|].
  apply andb_true_iff in H as [Hr Hf].
  apply Nat.ltb_lt in Hk, Hr. apply Nat.eqb_eq in Hf.
  pose proof (after_segment _ _ _ E) as ->.
  exists (slice_to (segment value) value), r. split; [|split].
  - change (slice_to (segment value) value +:+ "/" +:+ r)
      with (slice_to (segment value) value +:+ String "/" r).
    rewrite <- E. symmetry. apply slice_to_from.
  - split; [|apply slash_free_prefix].
    destruct value; [cbn in Hk; lia|]. cbn [segment] in *.
    destruct (Ascii.eqb a "/"); [lia | discriminate].
  - split; [destruct r; [cbn in Hr; lia | discriminate] | exact Hf].
Qed.

(** [isRepoSlug] accepts exactly the texts made of an owner and a
    repository, non-empty and without a slash, joined by one slash. *)
Theorem isRepoSlug_iff value :
  isRepoSlug value = true <->
  exists owner repo,
    value = owner +:+ "/" +:+ repo /\ name_part owner /\ name_part repo.
Proof.
  split; [apply isRepoSlug_parts|].
  intros (a & b & -> & Ha & Hb). now apply isRepoSlug_join.
Qed.

Lemma append_snoc (a : string) c r :
  (a +:+ String c EmptyString) +:+ r = a +:+ String c r.
Proof. now rewrite append_assoc. Qed.

Lemma name_part_snoc taken c :
  name_part taken -> Ascii.eqb c "/" = false ->
  name_part (taken +:+ String c EmptyString).
Proof.
  intros [Hne Hf] Hc. split.
  - destruct taken; [contradiction | discriminate].
  - apply slash_free_app; [exact Hf|]. apply slash_free_cons. now split.
Qed.

(** The lazy group stops in front of a final [.git]. *)
Lemma lazy_repo_git r : forall taken,
  slash_free r -> lazy_repo taken (r +:+ ".git") = Some (taken +:+ r).
Proof.
  induction r as [|c r IH]; intros taken Hf.
  - now rewrite append_nil_r.
  - apply slash_free_cons in Hf as [Hc Hf].
    change (String c r +:+ ".git") with (String c (r +:+ ".git")).
    cbn [lazy_repo].
    replace (String.eqb (String c (r +:+ ".git")) ".git") with false.
    + cbn [orb is_empty]. rewrite Hc, IH by assumption. now rewrite append_snoc.
    + symmetry. apply String.eqb_neq. intros H.
      apply (f_equal String.length) in H. cbn [String.length] in H.
      rewrite length_append in H. cbn [String.length] in H. lia.
Qed.

(** Without a final [.git] the lazy group takes the whole name. *)
Lemma lazy_repo_plain r : forall taken,
  slash_free r -> (forall p, r <> p +:+ ".git") ->
  lazy_repo taken r = Some (taken +:+ r).
Proof.
  induction r as [|c r IH]; intros taken Hf Hno.
  - now rewrite append_nil_r.
  - apply slash_free_cons in Hf as [Hc Hf]. cbn [lazy_repo].
    replace (String.eqb (String c r) ".git") with false.
    + cbn [orb is_empty]. rewrite Hc, IH; [now rewrite append_snoc | exact Hf |].
      intros p ->. apply (Hno (String c p)). reflexivity.
    + symmetry. apply String.eqb_neq. intros H. now apply (Hno EmptyString).
Qed.

Lemma lazy_repo_name s : forall taken repo,
  name_part taken -> lazy_repo taken s = Some repo -> name_part repo.
Proof.
  induction s as [|c r IH]; intros taken repo Ht.
  - cbn. now intros [= <-].
  - cbn [lazy_repo]. destruct (String.eqb (String c r) ".git" || is_empty (String c r)).
    + now intros [= <-].
    + destruct (Ascii.eqb c "/") eqn:Hc; [discriminate|].
      apply IH. now apply name_part_snoc.
Qed.

Lemma slug_at_join owner d r :
  name_part owner -> Ascii.eqb d "/" = false ->
  slug_at (owner +:+ "/" +:+ String d r)
  = match lazy_repo (String d EmptyString) r with
    | Some repo => Some (owner +:+ "/" +:+ repo)
    | None => None
    end.
Proof.
  intros [Hne Hf] Hd. unfold slug_at.
  change (owner +:+ "/" +:+ String d r) with (owner +:+ String "/" (String d r)).
  rewrite segment_app, slice_from_app, slice_to_app, Hd by assumption.
  destruct owner; [contradiction|]. reflexivity.
Qed.

Lemma slug_at_valid s slug : slug_at s = Some slug -> isRepoSlug slug = true.
Proof.
  unfold slug_at. destruct (segment s =? 0)%nat eqn:Hk; [discriminate|].
  apply Nat.eqb_neq in Hk.
  destruct (slice_from (segment s) s) as [|c [|d r]] eqn:E; try discriminate.
  destruct (Ascii.eqb d "/") eqn:Hd; [discriminate|].
  destruct (lazy_repo (String d EmptyString) r) as [repo|] eqn:L; [|discriminate].
  intros [= <-]. apply isRepoSlug_join.
  - split; [|apply slash_free_prefix].
    destruct s; [contradiction|]. cbn [segment] in *.
    destruct (Ascii.eqb a "/"); [contradiction | discriminate].
  - assert (Hn : name_part (String d EmptyString)).
    { split; [discriminate|]. apply slash_free_cons. now split. }
    exact (lazy_repo_name _ _ _ Hn L).
Qed.

Lemma parse_valid remoteUrl slug :
  parseGithubSlug remoteUrl = Some slug -> isRepoSlug slug = true.
Proof.
  unfold parseGithubSlug.
  destruct (startsWith "https://github.com/" remoteUrl).
  - destruct (slug_at (slice_from 19 remoteUrl)) eqn:E.
    + intros [= <-]. now apply slug_at_valid in E.
    + destruct (startsWith "git@github.com:" remoteUrl); [|discriminate].
      apply slug_at_valid.
  - destruct (startsWith "http://github.com/" remoteUrl).
    + destruct (slug_at (slice_from 18 remoteUrl)) eqn:E.
      * intros [= <-]. now apply slug_at_valid in E.
      * destruct (startsWith "git@github.com:" remoteUrl); [|discriminate].
        apply slug_at_valid.
    + destruct (startsWith "git@github.com:" remoteUrl); [|discriminate].
      apply slug_at_valid.
Qed.

(** Whatever [parseGithubSlug] returns is a slug that [isRepoSlug]
    accepts. *)
Theorem parseGithubSlug_valid remoteUrl slug :
  parseGithubSlug remoteUrl = Some slug -> isRepoSlug slug = true.
Proof. apply parse_valid. Qed.

Lemma parseGithubSlug_valid_witness :
  isRepoSlug "athakur3/llm-pr-assistant" = true.
Proof.
  apply (parseGithubSlug_valid "git@github.com:athakur3/llm-pr-assistant.git").
  vm_compute. reflexivity.
Defined.

Lemma parse_https rest :
  parseGithubSlug ("https://github.com/" +:+ rest)
  = match slug_at rest with
    | Some slug => Some slug
    | None => None
    end.
Proof.
  unfold parseGithubSlug. rewrite startsWith_refl_app.
  change 19%nat with (String.length "https://github.com/").
  rewrite slice_from_app.
  replace (startsWith "git@github.com:" ("https://github.com/" +:+ rest))
    with false by reflexivity.
  reflexivity.
Qed.

Lemma parse_http rest :
  parseGithubSlug ("http://github.com/" +:+ rest)
  = match slug_at rest with
    | Some slug => Some slug
    | None => None
    end.
Proof.
  unfold parseGithubSlug.
  replace (startsWith "https://github.com/" ("http://github.com/" +:+ rest))
    with false by reflexivity.
  rewrite startsWith_refl_app.
  change 18%nat with (String.length "http://github.com/").
  rewrite slice_from_app.
  replace (startsWith "git@github.com:" ("http://github.com/" +:+ rest))
    with false by reflexivity.
  reflexivity.
Qed.

Lemma parse_ssh rest :
  parseGithubSlug ("git@github.com:" +:+ rest) = slug_at rest.
Proof.
  unfold parseGithubSlug.
  replace (startsWith "https://github.com/" ("git@github.com:" +:+ rest))
    with false by reflexivity.
  replace (startsWith "http://github.com/" ("git@github.com:" +:+ rest))
    with false by reflexivity.
  rewrite startsWith_refl_app.
  change 15%nat with (String.length "git@github.com:").
  now rewrite slice_from_app.
Qed.

Lemma slug_at_git owner repo :
  name_part owner -> name_part repo ->
  slug_at (owner +:+ "/" +:+ repo +:+ ".git") = Some (owner +:+ "/" +:+ repo).
Proof.
  intros Ho [Hne Hf]. destruct repo as [|d r]; [contradiction|].
  apply slash_free_cons in Hf as [Hd Hf].
  change (String d r +:+ ".git") with (String d (r +:+ ".git")).
  rewrite slug_at_join, lazy_repo_git by assumption. reflexivity.
Qed.

Lemma slug_at_plain owner repo :
  name_part owner -> name_part repo -> (forall p, repo <> p +:+ ".git") ->
  slug_at (owner +:+ "/" +:+ repo) = Some (owner +:+ "/" +:+ repo).
Proof.
  intros Ho [Hne Hf] Hno. destruct repo as [|d r]; [contradiction|].
  apply slash_free_cons in Hf as [Hd Hf].
  rewrite slug_at_join, lazy_repo_plain; [reflexivity | exact Hf | | exact Ho | exact Hd].
  intros p ->. apply (Hno (String d p)). reflexivity.
Qed.

(** The remote of [owner/repo] in its three forms gives back the slug
    [owner/repo]: the final [.git] is dropped, and a name that does not end
    in [.git] is kept whole. *)
Theorem parseGithubSlug_round_trip owner repo :
  name_part owner -> name_part repo ->
  parseGithubSlug ("https://github.com/" +:+ owner +:+ "/" +:+ repo +:+ ".git")
  = Some (owner +:+ "/" +:+ repo) /\
  parseGithubSlug ("http://github.com/" +:+ owner +:+ "/" +:+ repo +:+ ".git")
  = Some (owner +:+ "/" +:+ repo) /\
  parseGithubSlug ("git@github.com:" +:+ owner +:+ "/" +:+ repo +:+ ".git")
  = Some (owner +:+ "/" +:+ repo) /\
  ((forall p, repo <> p +:+ ".git") ->
   parseGithubSlug ("https://github.com/" +:+ owner +:+ "/" +:+ repo)
   = Some (owner +:+ "/" +:+ repo) /\
   parseGithubSlug ("git@github.com:" +:+ owner +:+ "/" +:+ repo)
   = Some (owner +:+ "/" +:+ repo)).
Proof.
  intros Ho Hr.
  rewrite parse_https, parse_http, parse_ssh, slug_at_git by assumption.
  repeat split; try reflexivity.
  - rewrite parse_https, slug_at_plain by assumption. reflexivity.
  - rewrite parse_ssh, slug_at_plain by assumption. reflexivity.
Qed.

Lemma parseGithubSlug_round_trip_witness :
  parseGithubSlug "https://github.com/athakur3/llm-pr-assistant.git"
  = Some "athakur3/llm-pr-assistant"%string.
Proof.
  assert (Ho : name_part "athakur3") by (split; [discriminate | reflexivity]).
  assert (Hr : name_part "llm-pr-assistant")
    by (split; [discriminate | reflexivity]).
  exact (proj1 (parseGithubSlug_round_trip "athakur3" "llm-pr-assistant" Ho Hr)).
Defined.

End SlugProofs.

Module PublishProofs.

Import Patch Claude Git Ext Substring StringFacts.

Import Setup Publish SlugSpec GitScenario Scenario TextFacts SubstringFacts SlugProofs Effects BlockFacts.

Section Probes.

Variable env : Env.

(** [pushBranchWithToken] writes the script, pushes and deletes the
    script, in that order and whatever the push does: the script that holds
    the token is not in the tree afterwards, and the outcome is the one of
    the push. *)
Theorem askpass_script_removed repoRoot branchName token w :
  let rw := pushBranchWithToken env repoRoot branchName token w in
  let askPassPath := path_join env repoRoot ".llm-pr-assistant-askpass.sh" in
  let push := ["-c"; "credential.helper="; "-c"; "credential.useHttpPath=true";
               "push"; "-u"; "origin"; branchName]%string in
  files (fs (snd rw)) !! askPassPath = None /\
  history (snd rw)
  = history w ++ [EWriteFile askPassPath (askPassScript token); EGit push;
                  EUnlink askPassPath] /\
  (fst rw = Ok tt \/
   exists stderr,
     fst rw = Err ("Git command failed: git " +:+ join " " push +:+ nl +:+ stderr)).
Proof.
  intros rw askPassPath push. unfold rw, pushBranchWithToken.
  fold askPassPath. fold push. rewrite bind_writeFile.
  unfold finally, mbind, M_bind, runGit. cbn [fs history files dirs].
  destruct (git_exec env _ repoRoot push) as [[out|stderr] t];
    cbn [safeUnlink mret M_ret fst snd fs files history];
    (split; [apply lookup_delete_eq|]);
    (split; [rewrite <- !app_assoc; reflexivity|]).
  - now left.
  - right. now exists stderr.
Qed.

(** The status as [runGit] hands it on. *)
Lemma status_of w repoRoot out t :
  git_exec env (fs w) repoRoot ["status"; "--porcelain"]%string = (Ok out, t) ->
  ensureClean env repoRoot w
  = (match List.filter (fun line => negb (isIgnoredDirtyPath line))
             (nonempty (split_char LF (trim out))) with
     | [] => Ok tt
     | _ => Err notClean
     end,
     mkWorld t (history w ++ [EGit ["status"; "--porcelain"]%string])).
Proof.
  intros H. unfold ensureClean, mbind, M_bind, runGit. rewrite H.
  destruct (List.filter _ _); reflexivity.
Qed.

Lemma not_ignored_without_dot l :
  isIgnoredDirtyPath ("M .vscode/" +:+ l) = false.
Proof.
  unfold isIgnoredDirtyPath.
  change ("M .vscode/" +:+ l) with (String "M" (String " " (String "." ("vscode/" +:+ l)))).
  cbn [String.length Nat.ltb Nat.leb slice_from].
  rewrite (trim_keep "v" "scode/" l) by reflexivity.
  reflexivity.
Qed.

(** An unstaged change under [.vscode/] on the first line of the status:
    [runGit] has trimmed the blank in front of the line, the path is read
    without its first character, and the tree counts as dirty. *)
Theorem unstaged_vscode_first_line_is_dirty repoRoot w rest t :
  git_exec env (fs w) repoRoot ["status"; "--porcelain"]%string
  = (Ok (" M .vscode/" +:+ rest), t) ->
  fst (ensureClean env repoRoot w) = Err notClean.
Proof.
  intros H. rewrite (status_of _ _ _ _ H). cbn [fst].
  replace (trim (" M .vscode/" +:+ rest)) with ("M .vscode/" +:+ trimEnd rest).
  - destruct (split_char_prefix LF "M .vscode/" (trimEnd rest) eq_refl)
      as (l & ls & _ & ->).
    unfold nonempty. cbn [List.filter].
    change (is_empty ("M .vscode/" +:+ l)) with false. cbn [negb List.filter].
    now rewrite not_ignored_without_dot.
  - symmetry. unfold trim.
    change (trimStart (" M .vscode/" +:+ rest)) with (trimStart ("M .vscode/" +:+ rest)).
    apply (trim_keep "M" " .vscode/" rest); reflexivity.
Qed.

Lemma ignored_with_dot l :
  isIgnoredDirtyPath ("M  .vscode/" +:+ l) = true.
Proof.
  unfold isIgnoredDirtyPath.
  change ("M  .vscode/" +:+ l) with (String "M" (String " " (String " " (".vscode/" +:+ l)))).
  cbn [String.length Nat.ltb Nat.leb slice_from].
  rewrite (trim_keep "." "vscode/" l) by reflexivity.
  rewrite (startsWith_refl_app ".vscode/"). apply orb_true_r.
Qed.

(** A staged change under [.vscode/] that is the only line of the status
    is ignored: the tree counts as clean. *)
Theorem staged_vscode_change_is_ignored repoRoot w rest t :
  all_chars not_LF (trimEnd rest) = true ->
  git_exec env (fs w) repoRoot ["status"; "--porcelain"]%string
  = (Ok ("M  .vscode/" +:+ rest), t) ->
  fst (ensureClean env repoRoot w) = Ok tt.
Proof.
  intros Hrest H. rewrite (status_of _ _ _ _ H). cbn [fst].
  rewrite (trim_keep "M" "  .vscode/" rest) by reflexivity.
  rewrite split_char_single.
  - unfold nonempty. cbn [List.filter].
    change (is_empty ("M  .vscode/" +:+ trimEnd rest)) with false.
    cbn [negb List.filter]. now rewrite ignored_with_dot.
  - rewrite all_chars_app. apply andb_true_iff. split; [reflexivity | exact Hrest].
Qed.

Lemma split_slash_free s : Forall slash_free (split_char "/" s).
Proof.
  induction s as [|c r IH]; [repeat constructor|]. cbn [split_char].
  destruct (Ascii.eqb c "/") eqn:E.
  - constructor; [reflexivity | exact IH].
  - destruct (split_char "/" r) as [|l ls]; [repeat constructor|].
    + apply slash_free_cons. now split.
    + inversion IH; subst. constructor; [|assumption].
      apply slash_free_cons. now split.
Qed.

Lemma last_in {A} (l : list A) x : last l = Some x -> In x l.
Proof.
  induction l as [|a l IH]; [discriminate|].
  destruct l as [|b l]; [intros [= ->]; now left|].
  intros H. right. now apply IH.
Qed.

(** The four questions [extension.ts] asks git about the remote and the
    changes never throw: when git fails they answer null, or the empty
    summary. A slug that is detected is one [isRepoSlug] accepts, and a
    base branch that is detected is a non-empty name without a slash. *)
Theorem remote_probes_never_throw repoRoot w :
  (exists slug, fst (detectRepoSlug env repoRoot w) = Ok slug /\
     forall s, slug = Some s -> isRepoSlug s = true) /\
  (exists branch, fst (detectBaseBranch env repoRoot w) = Ok branch /\
     forall b, branch = Some b -> name_part b) /\
  (exists url, fst (getOriginUrl env repoRoot w) = Ok url) /\
  (exists summary, fst (buildChangeSummary env repoRoot w) = Ok summary) /\
  ((forall cwd args, exists e t, git_exec env (fs w) cwd args = (Err e, t)) ->
   fst (detectRepoSlug env repoRoot w) = Ok None /\
   fst (detectBaseBranch env repoRoot w) = Ok None /\
   fst (getOriginUrl env repoRoot w) = Ok None /\
   fst (buildChangeSummary env repoRoot w) = Ok EmptyString).
Proof.
  unfold detectRepoSlug, detectBaseBranch, getOriginUrl, buildChangeSummary,
    try_catch, mbind, M_bind, runGit.
  repeat split.
  - destruct (git_exec env (fs w) repoRoot _) as [[out|e] t]; cbn [fst mret M_ret].
    + eexists. split; [reflexivity|]. intros s0 Hs. now apply parse_valid in Hs.
    + eexists. split; [reflexivity|]. discriminate.
  - destruct (git_exec env (fs w) repoRoot _) as [[out|e] t]; cbn [fst mret M_ret].
    + eexists. split; [reflexivity|]. intros b Hb.
      unfold nonblank in Hb.
      destruct (last (split_char "/" (trim out))) as [x|] eqn:L; [|discriminate].
      destruct (is_empty x) eqn:E; [discriminate|]. injection Hb as <-.
      split; [intros ->; discriminate|].
      pose proof (split_slash_free (trim out)) as F.
      rewrite List.Forall_forall in F. now apply F, last_in.
    + eexists. split; [reflexivity|]. discriminate.
  - destruct (git_exec env (fs w) repoRoot _) as [[out|e] t]; eexists; reflexivity.
  - destruct (git_exec env (fs w) repoRoot _) as [[out|e] t]; cbn [fs];
      [|eexists; reflexivity].
    destruct (git_exec env t repoRoot _) as [[out2|e] t2]; eexists; reflexivity.
  - destruct (H repoRoot ["remote"; "get-url"; "origin"]%string) as (e & t & ->).
    reflexivity.
  - destruct (H repoRoot ["symbolic-ref"; "refs/remotes/origin/HEAD"]%string)
      as (e & t & ->). reflexivity.
  - destruct (H repoRoot ["remote"; "get-url"; "origin"]%string) as (e & t & ->).
    reflexivity.
  - destruct (H repoRoot ["diff"; "--name-only"]%string) as (e & t & ->).
    reflexivity.
Qed.

End Probes.

Lemma remote_probes_witness :
  fst (detectRepoSlug envNoGit repo start) = Ok None /\
  fst (detectBaseBranch envNoGit repo start) = Ok None /\
  fst (getOriginUrl envNoGit repo start) = Ok None /\
  fst (buildChangeSummary envNoGit repo start) = Ok EmptyString.
Proof.
  destruct (remote_probes_never_throw envNoGit repo start) as (_ & _ & _ & _ & H).
  apply H. intros cwd args. eexists. eexists. reflexivity.
Defined.

Lemma unstaged_vscode_witness :
  fst (ensureClean (envPrints (" M .vscode/settings.json" +:+ nl)) repo start)
  = Err notClean.
Proof.
  apply (unstaged_vscode_first_line_is_dirty
           (envPrints (" M .vscode/settings.json" +:+ nl)) repo start
           ("settings.json" +:+ nl) tree).
  reflexivity.
Defined.

Lemma staged_vscode_witness :
  fst (ensureClean (envPrints ("M  .vscode/settings.json" +:+ nl)) repo start)
  = Ok tt.
Proof.
  apply (staged_vscode_change_is_ignored
           (envPrints ("M  .vscode/settings.json" +:+ nl)) repo start
           ("settings.json" +:+ nl) tree).
  - vm_compute. reflexivity.
  - reflexivity.
Defined.

End PublishProofs.

Module ContextProofs.

Import Patch Claude Git Ext Substring StringFacts.

Import GitScenario Scenario TextFacts SubstringFacts Effects BlockFacts.

Section Context.

Variable env : Env.

Lemma listed_files out :
  Forall (fun f => f <> EmptyString /\ all_chars not_LF f = true)
         (nonempty (split_char LF out)).
Proof.
  unfold nonempty. apply List.Forall_forall. intros f Hf.
  apply filter_In in Hf as [Hin Hne]. split.
  - intros ->. discriminate.
  - pose proof (split_char_parts LF out) as F.
    rewrite List.Forall_forall in F. now apply F.
Qed.

(** [getFileList] never throws; it lists at most 200 names, none of them
    empty and none of them spanning lines; when git fails the list is
    empty. *)
Theorem getFileList_bounded workspaceRoot w :
  exists fileList,
    fst (getFileList env workspaceRoot w) = Ok fileList /\
    (List.length fileList <= 200)%nat /\
    Forall (fun f => f <> EmptyString /\ all_chars not_LF f = true) fileList /\
    ((exists e t, git_exec env (fs w) workspaceRoot ["ls-files"]%string = (Err e, t)) ->
     fileList = []).
Proof.
  unfold getFileList, try_catch, mbind, M_bind, runGit.
  destruct (git_exec env (fs w) workspaceRoot _) as [[out|e] t]; cbn [fst mret M_ret].
  - eexists. split; [reflexivity|]. split; [|split].
    + rewrite length_take. lia.
    + apply Forall_take, listed_files.
    + intros (e & t' & [=]).
  - exists []. repeat split; [cbn; lia | constructor].
Qed.

Lemma startsWith_two a b rest :
  startsWith (a +:+ b) (a +:+ b +:+ rest) = true.
Proof. rewrite <- append_assoc. apply startsWith_refl_app. Qed.

(** [buildContext] never throws. The context starts with the heading of
    the file list, and asks git one thing, the list of tracked files; when
    git fails the list reads "(no files)". *)
Theorem buildContext_never_throws workspaceRoot w :
  let rw := buildContext env workspaceRoot w in
  exists contextText,
    fst rw = Ok contextText /\
    startsWith ("Tracked files (first 200):" +:+ nl) contextText = true /\
    history (snd rw) = history w ++ [EGit ["ls-files"]%string] /\
    ((exists e t, git_exec env (fs w) workspaceRoot ["ls-files"]%string = (Err e, t)) ->
     startsWith ("Tracked files (first 200):" +:+ nl +:+ "(no files)")
       contextText = true).
Proof.
  intros rw. unfold rw, buildContext, getFileList, readTextFile, readFile,
    try_catch, mbind, M_bind, runGit.
  destruct (git_exec env (fs w) workspaceRoot _) as [[out|e] t];
    cbn [fst snd mret M_ret fs files history].
  - destruct (nonblank (Some (join nl (take 200 (nonempty (split_char LF (trim out)))))));
      repeat match goal with
             | |- context [nonblank (match ?x with _ => _ end)] => destruct x
             end;
      repeat match goal with
             | |- context [nonblank (Some (if ?b then _ else _))] => destruct b
             end;
      repeat match goal with
             | |- context [nonblank ?x] => destruct (nonblank x)
             end;
      cbn [fst snd app join];
      (eexists; split; [reflexivity|]);
      (split; [apply startsWith_two|]);
      (split; [reflexivity|]);
      intros (e0 & t0 & [=]).
  - cbn [join nonblank is_empty].
    repeat match goal with
           | |- context [nonblank ?x] => destruct (nonblank x)
           end;
      cbn [fst snd app join];
      (eexists; split; [reflexivity|]);
      (split; [apply startsWith_two|]);
      (split; [reflexivity|]);
      intros _; reflexivity.
Qed.

End Context.

Lemma buildContext_witness :
  exists contextText,
    fst (buildContext envNoGit repo start) = Ok contextText /\
    startsWith ("Tracked files (first 200):" +:+ nl +:+ "(no files)")
      contextText = true.
Proof.
  destruct (buildContext_never_throws envNoGit repo start)
    as (c & H & _ & _ & Hno).
  exists c. split; [exact H|]. apply Hno. eexists. eexists. reflexivity.
Defined.

Lemma getFileList_witness :
  fst (getFileList envNoGit repo start) = Ok [].
Proof.
  destruct (getFileList_bounded envNoGit repo start) as (l & H & _ & _ & Hnil).
  rewrite H, Hnil; [reflexivity|]. eexists. eexists. reflexivity.
Defined.

End ContextProofs.

Module ClaudeProofs.

Import Patch Claude Git Ext Substring StringFacts.

Import GitScenario Scenario TextFacts SubstringFacts Effects BlockFacts.

(** What [extractUnifiedDiff] returns has no white space around it; when
    the answer holds a [diff --git ] line, the result starts with the first
    of them, whatever the model wrote before it, and [isUnifiedDiff]
    accepts it. *)
Theorem extractUnifiedDiff_starts_at_diff raw :
  trim (extractUnifiedDiff raw) = extractUnifiedDiff raw /\
  (includes "diff --git " (trim (stripCodeFences raw)) = true ->
   startsWith "diff --git " (extractUnifiedDiff raw) = true /\
   isUnifiedDiff (extractUnifiedDiff raw) = true).
Proof.
  unfold extractUnifiedDiff. split.
  - destruct (from_first _ _); [apply trim_idem|].
    destruct (scan_lines _ _ _); apply trim_idem.
  - intros Hin. destruct (from_first_found _ _ Hin) as (rest & F). rewrite F.
    destruct (from_first_spec _ _ _ F) as (Hs & before & Hb).
    assert (Hrest : trim rest = rest).
    { unfold trim. pose proof (trimEnd_trim (stripCodeFences raw)) as Ht.
      rewrite Hb in Ht. apply trimEnd_suffix in Ht.
      destruct rest as [|c r]; [discriminate|].
      cbn [startsWith] in Hs. apply andb_true_iff in Hs as [Hc _].
      apply Ascii.eqb_eq in Hc. subst c.
      now rewrite trimStart_fixed. }
    rewrite Hrest. split; [exact Hs|].
    unfold isUnifiedDiff. rewrite (includes_of_startsWith _ _ Hs).
    destruct rest; [discriminate | reflexivity].
Qed.

Lemma extractUnifiedDiff_witness :
  startsWith "diff --git "
    (extractUnifiedDiff ("Here is the patch:" +:+ nl +:+ editDiff +:+ nl)) = true.
Proof.
  destruct (proj2 (extractUnifiedDiff_starts_at_diff
                     ("Here is the patch:" +:+ nl +:+ editDiff +:+ nl)))
    as [H _]; [vm_compute; reflexivity | exact H].
Defined.

Section Plans.

Variable env : Env.

(** [runGit] records one call. Its output comes back without white space
    around it, and its failure names the command that failed. *)
Theorem runGit_outcome args cwd w :
  let rw := runGit env args cwd w in
  history (snd rw) = history w ++ [EGit args] /\
  (forall out, fst rw = Ok out -> trim out = out) /\
  (forall message, fst rw = Err message ->
     startsWith ("Git command failed: git " +:+ join " " args +:+ nl) message = true).
Proof.
  intros rw. unfold rw, runGit.
  destruct (git_exec env (fs w) cwd args) as [[out|e] t]; cbn [fst snd history].
  - split; [reflexivity|]. split; [|discriminate].
    intros o [= <-]. apply trim_idem.
  - split; [reflexivity|]. split; [discriminate|].
    intros m [= <-]. rewrite <- !append_assoc. apply startsWith_refl_app.
Qed.

(** A plan that [generatePlanWithClaude] returns is never empty, and each
    of its steps has a title and an instruction, both non-empty and without
    white space around them. The service has been asked once. *)
Theorem generated_plan_is_usable
    apiKey model prompt context maxSteps targetCount existingFiles w plan w' :
  generatePlanWithClaude env apiKey model prompt context maxSteps targetCount
    existingFiles w = (Ok plan, w') ->
  plan <> [] /\
  Forall (fun step =>
            title step <> EmptyString /\ instruction step <> EmptyString /\
            trim (title step) = title step /\
            trim (instruction step) = instruction step) plan /\
  fs w' = fs w /\
  exists system user, history w' = history w ++ [EApi model system user].
Proof.
  unfold generatePlanWithClaude, mbind, M_bind, messages_create.
  destruct (api env _ _ _ _ _ _) as [text|e]; [|discriminate].
  destruct (parsePlanJson env (trim text)) as [|s0 rest] eqn:P; [discriminate|].
  intros [= <- <-]. split; [discriminate|]. split; [|split; [reflexivity|eauto]].
  rewrite <- P. unfold parsePlanJson.
  destruct (json_steps env _) as [data|]; [|constructor].
  apply List.Forall_forall. intros step Hin.
  apply filter_In in Hin as [Hin Hne]. apply andb_true_iff in Hne as [Ht Hi].
  apply in_map_iff in Hin as (item & <- & _). cbn [title instruction] in *.
  repeat split; try apply trim_idem.
  - intros E. rewrite E in Ht. discriminate.
  - intros E. rewrite E in Hi. discriminate.
Qed.

End Plans.

Lemma generated_plan_witness :
  exists plan w',
    generatePlanWithClaude envPlan "key" "claude" "Do three things" "" 4
      (Count.Num 0) [] start = (Ok plan, w') /\
    plan <> [] /\ List.length plan = 3%nat.
Proof.
  eexists. eexists. split; [vm_compute; reflexivity|].
  split; [|reflexivity].
  eapply (generated_plan_is_usable envPlan "key" "claude" "Do three things" ""
            4 (Count.Num 0) [] start).
  vm_compute. reflexivity.
Defined.

End ClaudeProofs.

Module PlanRunProofs.

Import Patch Claude Git Ext Substring StringFacts.

Import Count Sizing GitScenario PlanScenario Scenario RunSpec PlanSpec TextFacts
  SubstringFacts Effects EffectFacts BlockFacts PlanProofs.

(** When [runPlanExecute] returns normally, the plan that
    [generatePlanWithClaude] returned had at least one step, and every
    step of that plan was run, in plan order: the history after the plan
    has one part for each step, which opens with the announcement of the
    step and the request for a patch made with the prompt of that step;
    the announcements of the run are those of the steps 1 to [n] of the
    [n] steps of the plan, once each. *)
Theorem plan_success_runs_every_step
    env apiKey model prompt contextText repoRoot targetCount existingFiles
    maxSteps w :
  let rw := runPlanExecute env apiKey model prompt contextText repoRoot
              targetCount existingFiles maxSteps w in
  fst rw = Ok tt ->
  exists plan w1 l,
    generatePlanWithClaude env apiKey model prompt contextText maxSteps
      targetCount existingFiles (logged "Planning execution" w)
    = (Ok plan, w1) /\
    plan <> [] /\
    history (snd rw)
    = history w1 ++ ELog ("Plan steps:" +:+ nl +:+ planListing plan) :: l /\
    steps_trace model prompt (List.length plan) 0 plan l /\
    exists before,
      history w1 = history w ++ before /\
      announcements before = [] /\
      announcements l
      = expected_announcements (List.length plan) 0 (List.length plan).
Proof.
  intros rw.
  destruct (generatePlanWithClaude env apiKey model prompt contextText maxSteps
              targetCount existingFiles (logged "Planning execution" w))
    as [[plan|e] w1] eqn:G.
  - unfold rw. rewrite (runPlanExecute_planned _ _ _ _ _ _ _ _ _ _ _ _ G).
    set (w2 := logged _ w1). intros Hok.
    destruct (planLoop_trace env apiKey model prompt repoRoot
                (List.length plan) plan O contextText w2 Hok) as (l & Hl & T).
    destruct (planLoop_announcements env apiKey model prompt repoRoot
                (List.length plan) plan O contextText w2)
      as (l' & j & Hl' & _ & Q & Hall).
    rewrite Hl in Hl'. apply app_inv_head in Hl'. subst l'.
    rewrite (Hall Hok) in Q.
    assert (E : emits not_log
                  (generatePlanWithClaude env apiKey model prompt contextText
                     maxSteps targetCount existingFiles))
      by (apply emits_generatePlan; intros; reflexivity).
    destruct (emits_run _ _ _ _ _ E G) as (l1 & H1 & Q1).
    exists plan, w1, l. split; [reflexivity|].
    split; [exact (generated_plan_nonempty _ _ _ _ _ _ _ _ _ _ _ G)|].
    split; [rewrite Hl; unfold w2, logged; cbn [history];
            rewrite <- app_assoc; reflexivity|].
    split; [exact T|].
    exists (ELog "Planning execution" :: l1). split; [|split; [|exact Q]].
    + rewrite H1. unfold logged. cbn [history]. rewrite <- app_assoc.
      reflexivity.
    + change (announcements (ELog "Planning execution" :: l1))
        with (announcements l1).
      now apply announcements_quiet.
  - unfold rw. rewrite (runPlanExecute_unplanned _ _ _ _ _ _ _ _ _ _ _ _ G).
    discriminate.
Qed.

Lemma plan_success_witness :
  let rw := runPlanExecute envPassing "key" "claude" "Do three things"
              startContext repo (Num 0) [] 4 start in
  exists plan w1 l,
    generatePlanWithClaude envPassing "key" "claude" "Do three things"
      startContext 4 (Num 0) [] (logged "Planning execution" start)
    = (Ok plan, w1) /\
    plan <> [] /\
    history (snd rw)
    = history w1 ++ ELog ("Plan steps:" +:+ nl +:+ planListing plan) :: l /\
    steps_trace "claude" "Do three things" (List.length plan) 0 plan l /\
    exists before,
      history w1 = history start ++ before /\
      announcements before = [] /\
      announcements l
      = expected_announcements (List.length plan) 0 (List.length plan).
Proof.
  apply (plan_success_runs_every_step envPassing "key" "claude"
           "Do three things" startContext repo (Num 0) [] 4 start).
  vm_compute. reflexivity.
Defined.

End PlanRunProofs.

Module PromptPathProofs.

Import Patch Substring StringFacts SubstringFacts TextFacts.

Lemma scan_all_found {A} (try : string -> option A) s x :
  scan_all try s = Some x ->
  exists before rest, s = before +:+ rest /\ try rest = Some x.
Proof.
  induction s as [|c r IH]; cbn [scan_all].
  - destruct (try EmptyString) eqn:E; [|discriminate].
    intros [= <-]. now exists EmptyString, EmptyString.
  - destruct (try (String c r)) eqn:E.
    + intros [= <-]. now exists EmptyString, (String c r).
    + intros H. destruct (IH H) as (before & rest & -> & Hr).
      now exists (String c before), rest.
Qed.

Lemma startsWith_split p s :
  startsWith p s = true -> exists t, s = p +:+ t.
Proof.
  revert s; induction p as [|a p IH]; intros s H; [now exists s|].
  destruct s as [|b r]; [discriminate|]. cbn [startsWith] in H.
  apply andb_true_iff in H as [Hab Hp]. apply Ascii.eqb_eq in Hab. subst b.
  destruct (IH _ Hp) as (t & ->). now exists t.
Qed.

Lemma path_prefix k s :
  (k <= path_run s)%nat ->
  all_chars is_path_char (slice_to k s) = true /\
  String.length (slice_to k s) = k.
Proof.
  revert s; induction k as [|k IH]; intros s Hk; [now split|].
  destruct s as [|c r]; [cbn in Hk; lia|]. cbn [path_run] in Hk.
  destruct (is_path_char c) eqn:E; [|lia].
  destruct (IH r ltac:(lia)) as [Ha Hl].
  cbn [slice_to all_chars String.length]. now rewrite E, Ha, Hl.
Qed.

Lemma extension_found s e :
  extension_at s = Some e -> In e extensions /\ startsWith e s = true.
Proof. unfold extension_at. intros H. now apply find_some in H. Qed.

Lemma extensions_are_path_chars e :
  In e extensions -> all_chars is_path_char e = true.
Proof.
  assert (H : forallb (all_chars is_path_char) extensions = true)
    by (vm_compute; reflexivity).
  rewrite forallb_forall in H. apply H.
Qed.

Lemma path_backtrack_shape k s p :
  (k <= path_run s)%nat -> path_backtrack k s = Some p ->
  exists stem e rest,
    p = stem +:+ "." +:+ e /\ s = p +:+ rest /\
    stem <> EmptyString /\ all_chars is_path_char stem = true /\
    In e extensions.
Proof.
  induction k as [|k IH]; intros Hk; [discriminate|]. cbn [path_backtrack].
  destruct (startsWith "." (slice_from (S k) s)) eqn:Hdot.
  - destruct (extension_at (slice_from 1 (slice_from (S k) s))) as [e|] eqn:He.
    + intros [= <-]. destruct (extension_found _ _ He) as [Hin Hs].
      destruct (path_prefix (S k) s Hk) as [Ha Hl].
      destruct (startsWith_split _ _ Hdot) as (t & Ht).
      rewrite Ht in Hs. cbn [slice_from] in Hs.
      destruct (startsWith_split _ _ Hs) as (rest & Hrest).
      exists (slice_to (S k) s), e, rest. repeat split; try assumption.
      * rewrite <- (slice_to_from (S k) s) at 1. rewrite Ht.
        change ("." +:+ t) with (String "." t). rewrite Hrest.
        now rewrite !append_assoc.
      * intros E. rewrite E in Hl. discriminate.
    + intros H. apply IH; [lia | exact H].
  - intros H. apply IH; [lia | exact H].
Qed.

(** The path that [extractFilePathFromPrompt] finds is a piece of the
    prompt: a run of one or more path characters, a dot and one of the
    listed extensions, made of path characters only. *)
Theorem extracted_path_shape prompt p :
  extractFilePathFromPrompt prompt = Some p ->
  sub p prompt /\
  all_chars is_path_char p = true /\
  exists stem e,
    p = stem +:+ "." +:+ e /\ stem <> EmptyString /\ In e extensions.
Proof.
  unfold extractFilePathFromPrompt, path_at. intros H.
  destruct (scan_all_found _ _ _ H) as (before & s & -> & Hs).
  destruct (path_backtrack_shape _ _ _ (Nat.le_refl _) Hs)
    as (stem & e & rest & -> & -> & Hne & Ha & Hin).
  split; [now exists before, rest|]. split; [|now exists stem, e].
  rewrite !all_chars_app, Ha, (extensions_are_path_chars _ Hin). reflexivity.
Qed.

Lemma extracted_path_witness :
  sub "src/git.ts" "Fix the retry loop in src/git.ts please".
Proof.
  apply (extracted_path_shape "Fix the retry loop in src/git.ts please").
  vm_compute. reflexivity.
Defined.

End PromptPathProofs.

Module PatchTextProofs.

Import Patch NormalizeSpec NewFileSpec Substring StringFacts SubstringFacts
  TextFacts NormalizeProofs PromptPathProofs.

Lemma cut_spec needle s u v :
  cut needle s = Some (u, v) -> s = u +:+ needle +:+ v.
Proof.
  revert u v. induction s as [|c r IH]; intros u v; cbn [cut].
  - destruct (startsWith needle EmptyString) eqn:E; [|discriminate].
    intros [= <- <-]. destruct needle; [reflexivity | discriminate].
  - destruct (startsWith needle (String c r)) eqn:E.
    + intros [= <- <-]. change (EmptyString +:+ ?x) with x.
      rewrite <- (slice_to_from (String.length needle) (String c r)) at 1.
      f_equal. destruct (startsWith_split _ _ E) as (t & ->).
      apply slice_to_app.
    + destruct (cut needle r) as [[u' v']|] eqn:C; [|discriminate].
      intros [= <- <-]. now rewrite (IH _ _ eq_refl).
Qed.

Lemma cut_none needle s : includes needle s = false -> cut needle s = None.
Proof.
  induction s as [|c r IH]; cbn [includes cut]; intros H;
    apply orb_false_iff in H as [Hs Hr]; rewrite Hs; [reflexivity|].
  now rewrite IH.
Qed.

Lemma strip_fences_length fuel : forall text,
  (String.length (strip_fences fuel text) <= String.length text)%nat.
Proof.
  induction fuel as [|fuel IH]; intros text; cbn [strip_fences]; [lia|].
  destruct (cut fence text) as [[before r]|] eqn:C1; [|lia].
  destruct (cut fence r) as [[inner after]|] eqn:C2; [|lia].
  apply cut_spec in C1, C2. subst text r.
  rewrite !length_append. specialize (IH after). lia.
Qed.

(** [stripCodeFences] gives back a text without a fence as it is, and
    never makes a text longer. *)
Theorem stripCodeFences_keeps_plain_text text :
  (includes "```" text = false -> stripCodeFences text = text) /\
  (String.length (stripCodeFences text) <= String.length text)%nat.
Proof.
  split; [|apply strip_fences_length].
  intros H. unfold stripCodeFences.
  destruct (String.length text); cbn [strip_fences]; [reflexivity|].
  unfold fence. now rewrite (cut_none _ _ H).
Qed.

Lemma stripCodeFences_witness :
  stripCodeFences "export default 1;" = "export default 1;"%string.
Proof.
  apply (stripCodeFences_keeps_plain_text "export default 1;").
  vm_compute. reflexivity.
Defined.

Lemma lines_clean_line x rest :
  clean x = true -> lines (x +:+ nl +:+ rest) = x :: lines rest.
Proof.
  induction x as [|c x IH]; intros Hc; [reflexivity|].
  cbn [clean] in Hc. apply andb_true_iff in Hc as [Hc Hx].
  apply andb_true_iff in Hc as [Hlf Hcr].
  apply negb_true_iff in Hlf, Hcr.
  change (String c x +:+ nl +:+ rest) with (String c (x +:+ nl +:+ rest)).
  cbn [lines]. now rewrite Hlf, Hcr, IH.
Qed.

Lemma lines_one x : clean x = true -> lines x = [x].
Proof.
  induction x as [|c x IH]; intros Hc; [reflexivity|].
  cbn [clean] in Hc. apply andb_true_iff in Hc as [Hc Hx].
  apply andb_true_iff in Hc as [Hlf Hcr].
  apply negb_true_iff in Hlf, Hcr.
  cbn [lines]. now rewrite Hlf, Hcr, IH.
Qed.

(** Lines joined by line feeds split into the same lines. *)
Lemma lines_join xs :
  xs <> [] -> Forall (fun x => clean x = true) xs -> lines (join nl xs) = xs.
Proof.
  induction xs as [|x xs IH]; [contradiction|]. intros _ H.
  inversion H as [|? ? Hx Hxs]; subst.
  destruct xs as [|y ys]; [now apply lines_one|].
  change (join nl (x :: y :: ys)) with (x +:+ nl +:+ join nl (y :: ys)).
  rewrite lines_clean_line by assumption. f_equal.
  apply IH; [discriminate | assumption].
Qed.

Lemma added_lines content :
  Forall plain_line content ->
  new_file_lines true (map (fun line => "+" +:+ line) content) = content.
Proof.
  induction content as [|c cs IH]; [reflexivity|]. intros H.
  inversion H as [|? ? [_ Hc] Hcs]; subst. cbn [map].
  change ("+" +:+ c) with (String "+" c). cbn [new_file_lines].
  change (startsWith "@@" (String "+" c)) with false.
  change (startsWith "+++" (String "+" c)) with (startsWith "++" c).
  rewrite Hc. cbn [negb startsWith Ascii.eqb Bool.eqb andb slice_from].
  now rewrite IH.
Qed.

Lemma clean_app a b : clean (a +:+ b) = clean a && clean b.
Proof.
  induction a as [|c a IH]; [reflexivity|].
  change (String c a +:+ b) with (String c (a +:+ b)). cbn [clean].
  now rewrite IH, andb_assoc.
Qed.

(** The new-file round trip: from the patch that creates a file with the
    lines [content], [extractNewFileContentFromPatch] gives the lines back,
    joined by line feeds, and [isNewFilePatch] recognises the patch. The
    lines must not start with two plus signs: such a line reads as a file
    header and is left out. *)
Theorem new_file_content_round_trip path hunk content :
  clean path = true -> clean hunk = true -> startsWith "@@" hunk = true ->
  content <> [] -> Forall plain_line content ->
  isNewFilePatch (newFilePatch path hunk content) = true /\
  extractNewFileContentFromPatch (newFilePatch path hunk content)
  = Some (join nl content).
Proof.
  intros Hpath Hhunk Hat Hne Hcontent.
  assert (Hnew : isNewFilePatch (newFilePatch path hunk content) = true).
  { unfold isNewFilePatch, newFilePatch. cbn [app].
    change (join nl (?a :: ?b :: ?c :: ?d :: ?rest))
      with (a +:+ nl +:+ b +:+ nl +:+ c +:+ nl +:+ join nl (d :: rest)).
    apply orb_true_iff. left. do 4 apply includes_prepend.
    apply includes_of_startsWith, startsWith_refl_app. }
  split; [exact Hnew|].
  unfold extractNewFileContentFromPatch. rewrite Hnew. cbn [negb].
  unfold newFilePatch. rewrite lines_join.
  - cbn [app new_file_lines].
    change (startsWith "@@" ("diff --git a/" +:+ path +:+ " b/" +:+ path)) with false.
    change (startsWith "@@" "new file mode 100644") with false.
    change (startsWith "@@" "--- /dev/null") with false.
    change (startsWith "@@" ("+++ b/" +:+ path)) with false.
    cbn [negb]. rewrite Hat, added_lines by assumption.
    destruct content; [contradiction | reflexivity].
  - discriminate.
  - cbn [app].
    constructor; [rewrite !clean_app, Hpath; reflexivity|].
    constructor; [reflexivity|]. constructor; [reflexivity|].
    constructor; [rewrite clean_app, Hpath; reflexivity|].
    constructor; [exact Hhunk|].
    apply Forall_map. eapply Forall_impl; [exact Hcontent|].
    intros c [Hc _]. cbn beta. change ("+" +:+ c) with (String "+" c).
    cbn [clean]. now rewrite Hc.
Qed.

Lemma new_file_content_witness :
  extractNewFileContentFromPatch
    (newFilePatch "notes/hello.txt" "@@ -0,0 +1,2 @@" ["hello"; "world"]%string)
  = Some ("hello" +:+ nl +:+ "world").
Proof.
  apply (new_file_content_round_trip "notes/hello.txt" "@@ -0,0 +1,2 @@"
           ["hello"; "world"]%string);
    try reflexivity; [discriminate|].
  repeat constructor.
Defined.

End PatchTextProofs.

Module HelperProofs.

Import Patch Claude Git Ext Scenario Substring StringFacts SubstringFacts TextFacts
  Effects EffectFacts BlockFacts.

Section Helpers.

Variable env : Env.

Lemma missing_is_none t path : fs_exists t path = false -> files t !! path = None.
Proof.
  unfold fs_exists. intros H. apply orb_false_iff in H as [H _].
  apply bool_decide_eq_false in H. now apply eq_None_not_Some.
Qed.

(** [createFileFromClaudeIfMissing] never changes a file that exists: when
    the target is there, or no target is known, it returns false without
    asking the service, and when it writes, it writes a path at which there
    was no file. *)
Theorem createFile_keeps_existing_files
    apiKey model prompt contextText repoRoot originalPatch w r w' :
  createFileFromClaudeIfMissing env apiKey model prompt contextText repoRoot
    originalPatch w = (r, w') ->
  (forall p, is_Some (files (fs w) !! p) ->
             files (fs w') !! p = files (fs w) !! p) /\
  (match targetFile originalPatch prompt with
   | None => True
   | Some filePath => fs_exists (fs w) (path_join env repoRoot filePath) = true
   end -> r = Ok false /\ w' = w) /\
  (r = Ok true ->
   exists filePath content,
     targetFile originalPatch prompt = Some filePath /\
     files (fs w) !! path_join env repoRoot filePath = None /\
     files (fs w') !! path_join env repoRoot filePath = Some (content +:+ nl) /\
     is_empty (trim content) = false).
Proof.
  unfold createFileFromClaudeIfMissing.
  destruct (targetFile originalPatch prompt) as [filePath|].
  2:{ intros [= <- <-]. split; [auto|]. split; [auto|]. discriminate. }
  rewrite bind_stat.
  destruct (fs_exists (fs w) (path_join env repoRoot filePath)) eqn:X.
  { intros [= <- <-]. split; [auto|]. split; [auto|]. discriminate. }
  unfold generateFileContentWithClaude, messages_create, mbind, M_bind.
  destruct (api env _ _ _ _ _ _) as [text|e]; cbn [mret M_ret].
  2:{ intros [= <- <-]. split; [auto|]. split; [discriminate|]. discriminate. }
  destruct (is_empty (trim (trim text))) eqn:B; cbn [mkdir writeFile mret M_ret fs files].
  { intros [= <- <-]. split; [auto|]. split; [discriminate|]. discriminate. }
  intros [= <- <-]. cbn [fs files]. split; [|split; [discriminate|]].
  - intros p [v Hp]. apply lookup_insert_ne. intros <-.
    rewrite (missing_is_none _ _ X) in Hp. discriminate.
  - intros _. exists filePath, (trim text). split; [reflexivity|].
    split; [now apply missing_is_none|]. split; [apply lookup_insert_eq | exact B].
Qed.

(** [replaceFileFromClaudeOnFailure] never creates a file: it writes only
    over a file it could read, and makes no directory. *)
Theorem replaceFile_creates_nothing
    apiKey model prompt contextText repoRoot originalPatch w r w' :
  replaceFileFromClaudeOnFailure env apiKey model prompt contextText repoRoot
    originalPatch w = (r, w') ->
  (forall p, files (fs w) !! p = None -> files (fs w') !! p = None) /\
  dirs (fs w') = dirs (fs w) /\
  (r = Ok true ->
   exists filePath content,
     targetFile originalPatch prompt = Some filePath /\
     is_Some (files (fs w) !! path_join env repoRoot filePath) /\
     files (fs w') !! path_join env repoRoot filePath = Some (content +:+ nl) /\
     is_empty (trim content) = false).
Proof.
  unfold replaceFileFromClaudeOnFailure.
  destruct (targetFile originalPatch prompt) as [filePath|].
  2:{ intros [= <- <-]. split; [auto|]. split; [auto|]. discriminate. }
  unfold readFile, mbind at 1, M_bind at 1.
  destruct (files (fs w) !! path_join env repoRoot filePath) as [existing|] eqn:X.
  2:{ intros [= <- <-]. split; [auto|]. split; [auto|]. discriminate. }
  unfold generateFileContentWithClaude, messages_create, mbind, M_bind.
  destruct (api env _ _ _ _ _ _) as [text|e]; cbn [mret M_ret].
  2:{ intros [= <- <-]. split; [auto|]. split; [auto|]. discriminate. }
  destruct (is_empty (trim (trim text))) eqn:B; cbn [writeFile mret M_ret fs files].
  { intros [= <- <-]. split; [auto|]. split; [auto|]. discriminate. }
  intros [= <- <-]. cbn [fs files dirs]. split; [|split; [reflexivity|]].
  - intros p Hp. rewrite lookup_insert_ne; [exact Hp|]. intros <-.
    rewrite X in Hp. discriminate.
  - intros _. exists filePath, (trim text). split; [reflexivity|].
    split; [rewrite X; eauto|]. split; [apply lookup_insert_eq | exact B].
Qed.

(** The two functions that rewrite a patch never throw and change
    nothing, neither the tree nor the history. [normalizePatchForNewFile]
    returns the patch as it is when no target can be read from it, when the
    target exists, and when the patch mentions [/dev/null];
    [rewriteNewFilePatchForExistingFile] returns null for a patch without
    [new file mode]. *)
Theorem patch_rewriters_are_pure patch repoRoot w :
  (exists normalized,
     normalizePatchForNewFile env patch repoRoot w = (Ok normalized, w) /\
     (match extractPrimaryFilePath patch with
      | None => True
      | Some filePath =>
          fs_exists (fs w) (path_join env repoRoot filePath) = true \/
          includes "/dev/null" patch = true
      end -> normalized = patch)) /\
  (exists rewritten,
     rewriteNewFilePatchForExistingFile env patch repoRoot w = (Ok rewritten, w) /\
     (includes "new file mode" patch = false -> rewritten = None)).
Proof.
  split.
  - unfold normalizePatchForNewFile.
    destruct (extractPrimaryFilePath patch) as [filePath|];
      [|eexists; split; [reflexivity | reflexivity]].
    rewrite bind_stat.
    destruct (fs_exists (fs w) (path_join env repoRoot filePath));
      [eexists; split; [reflexivity | reflexivity]|].
    destruct (includes "/dev/null" patch);
      [eexists; split; [reflexivity | reflexivity]|].
    eexists. split; [reflexivity|]. intros [H|H]; discriminate.
  - unfold rewriteNewFilePatchForExistingFile.
    destruct (includes "new file mode" patch); cbn [negb];
      [|eexists; split; [reflexivity | reflexivity]].
    destruct (match_plus_line patch) as [g|];
      [|eexists; split; [reflexivity | discriminate]].
    destruct (is_empty (trim g)); [eexists; split; [reflexivity | discriminate]|].
    rewrite bind_stat.
    destruct (fs_exists (fs w) (path_join env repoRoot (trim g))); cbn [negb];
      eexists; (split; [reflexivity | discriminate]).
Qed.

(** [regeneratePatchWithFreshFileContext] writes nothing, and asks the
    service only for a target it could read: with no target, or a target
    that is not a file of the tree, it returns null at once. A patch it
    returns is not blank. *)
Theorem regenerate_reads_before_asking
    apiKey model prompt repoRoot originalPatch w r w' :
  regeneratePatchWithFreshFileContext env apiKey model prompt repoRoot
    originalPatch w = (r, w') ->
  fs w' = fs w /\
  (match targetFile originalPatch prompt with
   | None => True
   | Some filePath => files (fs w) !! path_join env repoRoot filePath = None
   end -> r = Ok None /\ w' = w) /\
  (forall retry, r = Ok (Some retry) -> is_empty (trim retry) = false).
Proof.
  unfold regeneratePatchWithFreshFileContext.
  destruct (targetFile originalPatch prompt) as [filePath|].
  2:{ intros [= <- <-]. split; [auto|]. split; [auto|]. discriminate. }
  unfold readFile, mbind at 1, M_bind at 1.
  destruct (files (fs w) !! path_join env repoRoot filePath) as [content|] eqn:X.
  2:{ intros [= <- <-]. split; [auto|]. split; [auto|]. discriminate. }
  unfold generatePatchWithClaude, messages_create, mbind, M_bind.
  destruct (api env _ _ _ _ _ _) as [text|e]; cbn [mret M_ret].
  2:{ intros [= <- <-]. split; [auto|]. split; [discriminate|]. discriminate. }
  intros [= <- <-]. split; [reflexivity|]. split; [discriminate|].
  intros retry.
  destruct (is_empty (trim (ensureTrailingNewline
                              (ensureDiffGitHeader (extractUnifiedDiff text)))))
    eqn:B; [discriminate|].
  intros [= <-]. exact B.
Qed.

End Helpers.

(** The service returns a file body for [x.txt], which is not in the tree:
    the file is created and the tracked file is as it was. *)
Lemma createFile_witness :
  let rw := createFileFromClaudeIfMissing envBody "key" "claude" "Trim x.txt" ""
              repo staleDiff start in
  files (fs (snd rw)) !! "/repo/a.txt"%string
  = files (fs start) !! "/repo/a.txt"%string.
Proof.
  intros rw.
  apply (createFile_keeps_existing_files envBody "key" "claude" "Trim x.txt" ""
           repo staleDiff start (fst rw) (snd rw)).
  - vm_compute. reflexivity.
  - eexists. vm_compute. reflexivity.
Defined.

(** The same answer for the tracked file: it is replaced, and no other
    path appears. *)
Lemma replaceFile_witness :
  let rw := replaceFileFromClaudeOnFailure envBody "key" "claude" "Edit a.txt" ""
              repo editDiff start in
  files (fs (snd rw)) !! "/repo/b.txt"%string = None.
Proof.
  intros rw.
  apply (replaceFile_creates_nothing envBody "key" "claude" "Edit a.txt" ""
           repo editDiff start (fst rw) (snd rw)).
  - vm_compute. reflexivity.
  - vm_compute. reflexivity.
Defined.

(** No target can be read from the prompt or from a blank patch. *)
Lemma regenerate_witness :
  let rw := regeneratePatchWithFreshFileContext envStale "key" "claude"
              "Tidy up" repo EmptyString start in
  fs (snd rw) = fs start.
Proof.
  intros rw.
  apply (regenerate_reads_before_asking envStale "key" "claude" "Tidy up" repo
           EmptyString start (fst rw) (snd rw)).
  vm_compute. reflexivity.
Defined.

Lemma patch_rewriters_witness :
  exists normalized,
    normalizePatchForNewFile envStale editDiff repo start = (Ok normalized, start) /\
    normalized = editDiff.
Proof.
  destruct (patch_rewriters_are_pure envStale editDiff repo start)
    as [(np & H & Hsame) _].
  exists np. split; [exact H|]. apply Hsame. vm_compute. now left.
Defined.

End HelperProofs.

Module CountMoreProofs.

Import Count CountSpec Substring StringFacts SubstringFacts CountProofs.

Lemma closest_invariant token keys : forall best d,
  let st := fold_left (closest_step token) keys (best, d) in
  (snd st <= d)%nat /\
  (forall k, In k keys -> (snd st <= levenshteinDistance token k)%nat) /\
  ((fst st = best /\ snd st = d) \/
   (In (fst st) keys /\ levenshteinDistance token (fst st) = snd st)).
Proof.
  induction keys as [|k keys IH]; intros best d st.
  - cbn. split; [lia|]. split; [contradiction | now left].
  - unfold st. cbn [fold_left].
    replace (closest_step token (best, d) k)
      with (if (levenshteinDistance token k <? d)%nat
            then (k, levenshteinDistance token k) else (best, d))
      by reflexivity.
    destruct (levenshteinDistance token k <? d)%nat eqn:E.
    + apply Nat.ltb_lt in E.
      destruct (IH k (levenshteinDistance token k)) as (Hle & Hall & Hor).
      split; [cbn zeta in *; lia|]. split.
      * intros k' [<-|Hin]; [exact Hle | now apply Hall].
      * right. destruct Hor as [[Hb Hd]|[Hin Hd]].
        -- split; [left; now rewrite Hb | now rewrite Hb, Hd].
        -- split; [now right | exact Hd].
    + apply Nat.ltb_ge in E.
      destruct (IH best d) as (Hle & Hall & Hor).
      split; [exact Hle|]. split.
      * intros k' [<-|Hin]; [cbn zeta in *; lia | now apply Hall].
      * destruct Hor as [H|[Hin Hd]]; [now left | right]. split; [now right | exact Hd].
Qed.

(** [findClosestNumberWord] returns a number word that is as close to the
    token as any number word and within the bound, or the empty string
    when every number word is further away than the bound. *)
Theorem closest_number_word_is_closest token maxDistance :
  let best := findClosestNumberWord token maxDistance in
  let words := map fst number_words in
  (best = EmptyString /\
   forall word, In word words ->
     (maxDistance < levenshteinDistance token word)%nat) \/
  (In best words /\
   (levenshteinDistance token best <= maxDistance)%nat /\
   forall word, In word words ->
     (levenshteinDistance token best <= levenshteinDistance token word)%nat).
Proof.
  intros best words. unfold best, findClosestNumberWord. fold words.
  pose proof (closest_invariant token words EmptyString (S maxDistance))
    as (Hle & Hall & Hor).
  destruct (fold_left (closest_step token) words (EmptyString, S maxDistance))
    as [b d]. cbn [fst snd] in *.
  destruct (d <=? maxDistance)%nat eqn:E.
  - apply Nat.leb_le in E. right.
    destruct Hor as [[_ Hd]|[Hin Hd]]; [lia|].
    split; [exact Hin|]. split; [lia|]. intros word Hw. rewrite Hd. now apply Hall.
  - apply Nat.leb_gt in E. left. split; [reflexivity|].
    intros word Hw. specialize (Hall _ Hw). lia.
Qed.

Lemma max_nan m : Math_max m NaN = NaN.
Proof. now destruct m. Qed.

Lemma fold_from_nan words idxs :
  fold_left (count_step words) idxs NaN = NaN.
Proof.
  induction idxs as [|i idxs IH]; [reflexivity|]. cbn [fold_left].
  rewrite count_step_spec. destruct (token_value words i); [|exact IH].
  cbn [Math_max]. exact IH.
Qed.

Lemma constructor_step words m i :
  nth i words EmptyString = "constructor"%string ->
  count_step words m i = NaN.
Proof.
  intros H. rewrite count_step_spec. unfold token_value. rewrite H.
  change (compound_value "constructor") with (@None jsnum).
  change (word_value "constructor") with VObj.
  cbn [truthy with_unit to_number]. apply max_nan.
Qed.

(** A text with the word [constructor] in it has no count: the lookup in
    the table of number words finds the member every object inherits, and
    [extractRequestedCount] returns NaN, which no threshold of the
    classifier reaches. *)
Theorem constructor_has_no_count text :
  In "constructor"%string (words_of text) ->
  extractRequestedCount text = NaN /\
  forall k, num_ge (extractRequestedCount text) k = false.
Proof.
  intros Hin.
  assert (H : extractRequestedCount text = NaN); [|now rewrite H].
  unfold extractRequestedCount.
  set (m0 := match digit_matches None text with [] => _ | _ => _ end).
  apply (In_nth _ _ EmptyString) in Hin as (i & Hi & Hnth).
  assert (Hseq : seq 0 (List.length (words_of text))
                 = seq 0 i ++ i :: seq (S i) (List.length (words_of text) - S i)).
  { replace (List.length (words_of text))
      with (i + S (List.length (words_of text) - S i))%nat at 1 by lia.
    rewrite seq_app. reflexivity. }
  rewrite Hseq, fold_left_app. cbn [fold_left].
  rewrite (constructor_step _ _ _ Hnth). apply fold_from_nan.
Qed.

Lemma constructor_witness :
  extractRequestedCount "add a constructor to all 12 classes" = NaN.
Proof.
  apply (constructor_has_no_count "add a constructor to all 12 classes").
  vm_compute. tauto.
Defined.

End CountMoreProofs.

Module CascadeMoreProofs.

Import Patch Claude Git Ext Scenario CascadeSpec Effects Blocks FailureSpec
  EffectFacts BlockFacts.

Section Failure.

Variable env : Env.

Ltac quiet :=
  cbv beta iota delta [emit throw mret M_ret on_result];
  cbn [fs history files dirs]; rewrite <- ?app_assoc;
  unfold deletes_only_on_success; cbn [fst snd fs history];
  let l := fresh "l" in let Hl := fresh "Hl" in
  intros l Hl _; apply app_inv_head in Hl; subst l;
  use_facts; reflexivity.

Lemma applyPatchFromClaude_deletes_only_on_success
    apiKey model prompt ctx root label allowEmpty w :
  deletes_only_on_success w
    (applyPatchFromClaude env apiKey model prompt ctx root label allowEmpty w).
Proof.
  unfold applyPatchFromClaude.
  step; [|quiet].
  step; [|quiet].
  branch.
  - branch; quiet.
  - branch.
    + step; [|quiet]. branch; quiet.
    + normalize_world.
      match goal with |- deletes_only_on_success _ (applyDiff _ _ _ _ _ _ _ ?np ?wx) =>
        pose proof (applyDiff_facts env apiKey model prompt ctx root label np wx) as HB;
        destruct (applyDiff env apiKey model prompt ctx root label np wx) as [r w'] end.
      cbv zeta in HB. unfold block_post in HB. cbn [fst snd fs history files] in HB.
      destruct HB as (l' & Hh & _ & _ & _ & _ & _ & Hnu & _).
      intros l2 Hl Hne. cbn [fst snd] in *. rewrite Hh, <- !app_assoc in Hl.
      apply app_inv_head in Hl. subst l2. use_facts. now apply Hnu.
Qed.

End Failure.

(** A step of the cascade that does not return normally has deleted
    nothing: the artifact is removed by the strategy that succeeds, and by
    nothing else. *)
Theorem failed_step_deletes_nothing
    env apiKey model prompt contextText repoRoot stepLabel allowEmpty w l :
  let rw := applyPatchFromClaude env apiKey model prompt contextText repoRoot
              stepLabel allowEmpty w in
  history (snd rw) = history w ++ l ->
  fst rw <> Ok tt ->
  no_unlink l = true.
Proof.
  intros rw. apply applyPatchFromClaude_deletes_only_on_success.
Qed.

Lemma failed_step_witness :
  let rw := applyPatchFromClaude envStale "key" "claude" "Trim x.txt" "" repo
              "single-shot" false start in
  no_unlink (history (snd rw)) = true.
Proof.
  intros rw.
  apply (failed_step_deletes_nothing envStale "key" "claude" "Trim x.txt" ""
           repo "single-shot" false start).
  - reflexivity.
  - vm_compute. discriminate.
Defined.

End CascadeMoreProofs.

Module EditProofs.

Import Count EditSpec.

Local Open Scope nat_scope.

Lemma edit_nil_r x : edit x [] = List.length x.
Proof. destruct x; reflexivity. Qed.

Lemma edit_cons a x b y :
  edit (a :: x) (b :: y)
  = Nat.min (Nat.min (edit x (b :: y) + 1) (edit (a :: x) y + 1))
            (edit x y + subst_cost a b).
Proof. reflexivity. Qed.

Lemma subst_cost_same a : subst_cost a a = 0.
Proof. unfold subst_cost. now rewrite Ascii.eqb_refl. Qed.

Lemma subst_cost_zero a b : subst_cost a b = 0 -> a = b.
Proof.
  unfold subst_cost. destruct (Ascii.eqb a b) eqn:E; [|discriminate].
  intros _. now apply Ascii.eqb_eq.
Qed.

Lemma subst_cost_sym a b : subst_cost a b = subst_cost b a.
Proof. unfold subst_cost. now rewrite Ascii.eqb_sym. Qed.

Lemma subst_cost_le a b : subst_cost a b <= 1.
Proof. unfold subst_cost. destruct (Ascii.eqb a b); lia. Qed.

Lemma edit_same x : edit x x = 0.
Proof.
  induction x as [|a x IH]; [reflexivity|].
  rewrite edit_cons, IH, subst_cost_same. lia.
Qed.

Lemma edit_zero x : forall y, edit x y = 0 -> x = y.
Proof.
  induction x as [|a x IH]; intros [|b y] H.
  - reflexivity.
  - discriminate.
  - discriminate.
  - rewrite edit_cons in H.
    assert (H0 : edit x y + subst_cost a b = 0) by lia.
    assert (Hc : subst_cost a b = 0) by lia.
    rewrite (subst_cost_zero _ _ Hc), (IH y); [reflexivity | lia].
Qed.

Lemma edit_bounds x : forall y,
  edit x y <= Nat.max (List.length x) (List.length y) /\
  List.length x - List.length y <= edit x y /\
  List.length y - List.length x <= edit x y.
Proof.
  induction x as [|a x IHx]; intros y.
  - cbn [edit List.length]. lia.
  - induction y as [|b y IHy].
    + rewrite edit_nil_r. cbn [List.length]. lia.
    + rewrite edit_cons. pose proof (subst_cost_le a b).
      pose proof (IHx (b :: y)). pose proof (IHx y).
      cbn [List.length] in *. lia.
Qed.

Lemma edit_sym x : forall y, edit x y = edit y x.
Proof.
  induction x as [|a x IHx]; intros y.
  - now rewrite edit_nil_r.
  - induction y as [|b y IHy].
    + now rewrite edit_nil_r.
    + rewrite !edit_cons, IHy, (IHx (b :: y)), (IHx y), (subst_cost_sym a b). lia.
Qed.

Section Table.

Variable b : list ascii.

Lemma length_row x : List.length (row b x) = S (List.length b).
Proof. unfold row. now rewrite length_map, length_seq. Qed.

Lemma cell_row x j :
  j <= List.length b -> cell (row b x) j = edit x (rev (take j b)).
Proof.
  intros Hj. unfold cell, row.
  rewrite (nth_indep _ 0 (edit x (rev (take 0 b))))
    by (rewrite length_map, length_seq; lia).
  rewrite (map_nth (fun j => edit x (rev (take j b)))), seq_nth by lia.
  reflexivity.
Qed.

Lemma rev_take_S j :
  j < List.length b ->
  rev (take (S j) b) = nth j b "000"%char :: rev (take j b).
Proof.
  intros Hj. destruct (nth_lookup_or_length b j "000"%char) as [H|H]; [|lia].
  now rewrite (take_S_r _ _ _ H), rev_unit.
Qed.

Lemma row_nil : row b [] = seq 0 (S (List.length b)).
Proof.
  unfold row. rewrite <- (map_id (seq 0 (S (List.length b)))) at 2.
  apply map_ext_in. intros j Hj. apply in_seq in Hj.
  cbn [edit]. rewrite length_rev, length_take. lia.
Qed.

Lemma cell_insert_eq l j v : j < List.length l -> cell (<[j := v]> l) j = v.
Proof.
  intros Hj. unfold cell. rewrite nth_lookup, list_lookup_insert_eq by assumption.
  reflexivity.
Qed.

Lemma cell_insert_ne l i j v : i <> j -> cell (<[i := v]> l) j = cell l j.
Proof.
  intros Hj. unfold cell. now rewrite !nth_lookup, list_lookup_insert_ne.
Qed.

(** The inner loop: after [k] passes the cells 0 to [k] of the new row
    are those of the table. *)
Lemma lev_fold x ai l0 k :
  k <= List.length b -> List.length l0 = S (List.length b) ->
  cell l0 0 = S (List.length x) ->
  let l := fold_left (lev_cell ai b (row b x)) (seq 0 k) l0 in
  List.length l = S (List.length b) /\
  forall j, j <= k -> cell l j = edit (ai :: x) (rev (take j b)).
Proof.
  intros Hk Hl0 H0. induction k as [|k IH].
  - cbn [seq fold_left]. split; [exact Hl0|]. intros j Hj.
    replace j with 0 by lia. cbn [take rev]. now rewrite edit_nil_r.
  - rewrite seq_S, fold_left_app. cbn [fold_left Nat.add].
    destruct (IH ltac:(lia)) as [Hlen Hcells].
    set (lk := fold_left (lev_cell ai b (row b x)) (seq 0 k) l0) in *.
    unfold lev_cell. split; [now rewrite length_insert|].
    intros j Hj. destruct (Nat.eq_dec j (S k)) as [->|Hne].
    + rewrite cell_insert_eq by lia.
      rewrite !cell_row, (Hcells k), rev_take_S, edit_cons by lia.
      reflexivity.
    + rewrite cell_insert_ne by lia. apply Hcells. lia.
Qed.

Lemma lev_row_correct x ai next :
  List.length next = S (List.length b) ->
  lev_row b (row b x) next (List.length x) ai = row b (ai :: x).
Proof.
  intros Hnext. unfold lev_row.
  destruct (lev_fold x ai (<[0 := S (List.length x)]> next) (List.length b))
    as [Hlen Hcells].
  - lia.
  - now rewrite length_insert.
  - apply cell_insert_eq. lia.
  - apply (nth_ext _ _ 0 0); [now rewrite Hlen, length_row|].
    intros j Hj. rewrite Hlen in Hj.
    change (cell (fold_left (lev_cell ai b (row b x)) (seq 0 (List.length b))
                    (<[0 := S (List.length x)]> next)) j
            = cell (row b (ai :: x)) j).
    rewrite Hcells, cell_row by lia. reflexivity.
Qed.

Lemma lev_rows_correct a : forall x,
  lev_rows b (row b x) (List.length x) a = row b (rev a ++ x).
Proof.
  induction a as [|ai a IH]; intros x; [reflexivity|].
  cbn [lev_rows]. rewrite lev_row_correct by apply length_row.
  change (S (List.length x)) with (List.length (ai :: x)).
  rewrite IH. cbn [rev]. now rewrite <- app_assoc.
Qed.

End Table.

Lemma length_list_ascii s :
  List.length (list_ascii_of_string s) = String.length s.
Proof. induction s as [|c s IH]; [reflexivity|]. cbn. now rewrite IH. Qed.

Lemma list_ascii_inj a b :
  list_ascii_of_string a = list_ascii_of_string b -> a = b.
Proof.
  intros H. rewrite <- (string_of_list_ascii_of_string a),
    <- (string_of_list_ascii_of_string b). now rewrite H.
Qed.

(** The two rows of [levenshteinDistance] compute the edit distance. *)
Lemma lev_distance a b : levenshteinDistance a b = distance a b.
Proof.
  unfold levenshteinDistance, distance.
  destruct (String.eqb_spec a b) as [->|Hab]; [now rewrite edit_same|].
  destruct a as [|ca a]; cbn [is_empty].
  { cbn [list_ascii_of_string rev edit]. now rewrite length_rev, length_list_ascii. }
  destruct b as [|cb b]; cbn [is_empty].
  { change (rev (list_ascii_of_string EmptyString)) with (@nil ascii).
    now rewrite edit_nil_r, length_rev, length_list_ascii. }
  set (la := list_ascii_of_string (String ca a)).
  set (lb := list_ascii_of_string (String cb b)).
  rewrite <- (row_nil lb).
  change O with (List.length (@nil ascii)) at 1.
  rewrite lev_rows_correct, cell_row by lia.
  now rewrite app_nil_r, take_ge by lia.
Qed.

(** [levenshteinDistance] is the edit distance: what its two rows compute
    is the least number of deletions, insertions and replacements of a
    character, as the recursion on the last characters defines it. *)
Theorem levenshtein_is_edit_distance a b :
  levenshteinDistance a b = distance a b.
Proof. apply lev_distance. Qed.

(** The distance is 0 for equal texts only, it is symmetric, it is at
    most the length of the longer text and at least the difference of the
    two lengths. *)
Theorem levenshtein_laws a b :
  (levenshteinDistance a b = 0 <-> a = b) /\
  levenshteinDistance a b = levenshteinDistance b a /\
  levenshteinDistance a b <= Nat.max (String.length a) (String.length b) /\
  String.length a - String.length b <= levenshteinDistance a b /\
  String.length b - String.length a <= levenshteinDistance a b.
Proof.
  rewrite !lev_distance. unfold distance.
  pose proof (edit_bounds (rev (list_ascii_of_string a))
                (rev (list_ascii_of_string b))) as Hb.
  rewrite !length_rev, !length_list_ascii in Hb.
  split; [|split; [apply edit_sym | exact Hb]].
  split.
  - intros H. apply edit_zero in H. apply list_ascii_inj.
    rewrite <- (rev_involutive (list_ascii_of_string a)),
      <- (rev_involutive (list_ascii_of_string b)). now rewrite H.
  - intros ->. apply edit_same.
Qed.

Lemma number_words_are_short word :
  In word (map fst number_words) -> String.length word <= 9.
Proof.
  assert (H : forallb (fun w => String.length w <=? 9) (map fst number_words) = true)
    by (vm_compute; reflexivity).
  rewrite forallb_forall in H. intros Hin. now apply Nat.leb_le, H.
Qed.

(** A token of at least 12 characters is never read as a misspelt number
    word: every number word is more than two edits away. *)
Theorem long_token_is_no_number_word token :
  12 <= String.length token -> findClosestNumberWord token 2 = EmptyString.
Proof.
  intros Hlen. unfold findClosestNumberWord.
  pose proof (CountMoreProofs.closest_invariant token (map fst number_words)
                EmptyString 3) as (Hle & Hall & Hor).
  destruct (fold_left (closest_step token) (map fst number_words) (EmptyString, 3))
    as [best d]. cbn [fst snd] in *.
  destruct (d <=? 2) eqn:E; [|reflexivity].
  apply Nat.leb_le in E. destruct Hor as [[_ Hd]|[Hin Hd]]; [lia|].
  pose proof (number_words_are_short _ Hin).
  pose proof (lev_distance token best) as Hdist. unfold distance in Hdist.
  pose proof (edit_bounds (rev (list_ascii_of_string token))
                (rev (list_ascii_of_string best))) as (_ & Hlow & _).
  rewrite !length_rev, !length_list_ascii in Hlow. lia.
Qed.

Lemma long_token_witness :
  findClosestNumberWord "internationalization" 2 = EmptyString.
Proof.
  apply (long_token_is_no_number_word "internationalization").
  vm_compute. lia.
Defined.

End EditProofs.

Module GitCallProofs.

Import Patch Claude Git Ext Scenario CascadeSpec Effects Blocks GitCallSpec
  EffectFacts BlockFacts.

Section Calls.

Variable env : Env.
Variable pp : string.

Lemma calls_runGit args cwd :
  apply_call pp (EGit args) = true -> emits (apply_call pp) (runGit env args cwd).
Proof.
  intros H. apply emits_one with (e := EGit args); [|exact H].
  intros w. unfold runGit.
  destruct (git_exec env (fs w) cwd args) as [[s|e] t]; reflexivity.
Qed.

Lemma apply_call_ok args :
  args = checkArgs pp \/ args = applyArgs pp \/ args = threeWayArgs pp ->
  apply_call pp (EGit args) = true.
Proof.
  intros H. cbn [apply_call]. rewrite !orb_true_iff.
  destruct H as [H|[H|H]]; [left; left | left; right | right];
    now apply bool_decide_eq_true_2.
Qed.

Lemma calls_validate root : emits (apply_call pp) (validatePatch env root pp).
Proof.
  unfold validatePatch. apply emits_bind; [|intros; apply emits_ret].
  apply calls_runGit, apply_call_ok. now left.
Qed.

Lemma calls_apply root : emits (apply_call pp) (applyPatch env root pp).
Proof.
  unfold applyPatch. apply emits_bind; [|intros; apply emits_ret].
  apply calls_runGit, apply_call_ok. right. now left.
Qed.

Lemma calls_threeWay root : emits (apply_call pp) (applyPatchThreeWay env root pp).
Proof.
  unfold applyPatchThreeWay. apply emits_bind; [|intros; apply emits_ret].
  apply calls_runGit, apply_call_ok. right. now right.
Qed.

Lemma calls_emit e : apply_call pp e = true -> emits (apply_call pp) (emit e).
Proof. intros H. now apply emits_one with (e := e). Qed.

Ltac quiet_helper :=
  first [ apply emits_createFile | apply emits_replaceFile | apply emits_regenerate
        | apply emits_rewrite | apply emits_isMissing | apply emits_generatePatch
        | apply emits_normalize | apply emits_nonPatch | apply emits_writeFile
        | apply emits_mkdir | apply emits_unlink ];
  intros; reflexivity.

Ltac calls_leaf :=
  first [ apply emits_ret | apply emits_throw
        | apply calls_validate | apply calls_apply | apply calls_threeWay
        | apply calls_emit; reflexivity
        | quiet_helper ].

Ltac calls_tac :=
  repeat first
    [ solve [calls_leaf]
    | apply emits_bind; [|intros]
    | apply emits_try; [|intros]
    | match goal with
      | |- emits _ (match ?x with _ => _ end) => destruct x
      | |- emits _ (if ?b then _ else _) => destruct b
      end ].

Lemma calls_afterThreeWay apiKey model prompt ctx root np details twd :
  emits (apply_call pp)
    (afterThreeWayFailure env apiKey model prompt ctx root np pp details twd).
Proof. unfold afterThreeWayFailure. calls_tac. Qed.

Lemma calls_afterDirect apiKey model prompt ctx root np details :
  emits (apply_call pp)
    (afterDirectFailure env apiKey model prompt ctx root np pp details).
Proof.
  unfold afterDirectFailure. calls_tac; apply calls_afterThreeWay.
Qed.

Lemma calls_applyDiff apiKey model prompt ctx root label np :
  pp = patchPathOf env root label ->
  emits (apply_call pp) (applyDiff env apiKey model prompt ctx root label np).
Proof.
  intros Hpp. unfold applyDiff. rewrite <- Hpp.
  calls_tac; apply calls_afterDirect.
Qed.

End Calls.

(** The only git commands a step of the cascade runs are [git apply
    --check], [git apply --whitespace=fix] and [git apply --3way
    --whitespace=fix], each on the patch artifact of the step. *)
Theorem step_runs_only_git_apply
    env apiKey model prompt contextText repoRoot stepLabel allowEmpty w :
  let rw := applyPatchFromClaude env apiKey model prompt contextText repoRoot
              stepLabel allowEmpty w in
  exists l,
    history (snd rw) = history w ++ l /\
    forallb (apply_call (patchPathOf env repoRoot stepLabel)) l = true.
Proof.
  intros rw.
  assert (E : emits (apply_call (patchPathOf env repoRoot stepLabel))
                (applyPatchFromClaude env apiKey model prompt contextText
                   repoRoot stepLabel allowEmpty)).
  { unfold applyPatchFromClaude.
    apply emits_bind; [apply emits_generatePatch; intros; reflexivity | intros patch].
    apply emits_bind; [apply emits_normalize; intros; reflexivity | intros np].
    destruct (is_empty (trim np)).
    - destruct allowEmpty; [apply emits_ret | apply emits_throw].
    - destruct (negb (isUnifiedDiff np)).
      + apply emits_bind; [apply emits_nonPatch; intros; reflexivity | intros wrote].
        destruct wrote; [apply emits_ret | apply emits_throw].
      + now apply calls_applyDiff. }
  apply E.
Qed.

End GitCallProofs.
